(** * classroom-feedback: the asynchronous grading pipeline

    A shallow embedding of [main.py] and [models.py]: the grading worker
    [process_submission_queue], the request handlers that write to the
    database, and the two reporting views, together with the parts of the
    Python runtime they lean on ([str.strip], [str.startswith],
    [str.replace], [json.loads], [asyncio.Queue]).

    Conventions.
    - A Python [str] is a list of Unicode code points.
    - A Python exception is a value of [exn]; code that can raise returns a
      sum [exn + A].
    - Database tables are finite maps from primary key to row. *)

From Stdlib Require Import String Ascii ZArith NArith Lia Sorting.Sorted.
From stdpp Require Import base option list gmap fin_maps.

#[local] Set Warnings "-register-all".

Local Open Scope N_scope.

(** ** Python strings *)

Module PyStr.

(** [str]: a sequence of code points. *)
Abbreviation str := (list N).

(** Source literals are written as UTF-8 text and decoded once. *)
Fixpoint utf8_decode (bs : list N) (need : nat) (acc : N) : str :=
  match bs with
  | [] => []
  | b :: bs' =>
      match need with
      | O =>
          if b <? 128 then b :: utf8_decode bs' 0 0
          else if b <? 224 then utf8_decode bs' 1 (b mod 32)
          else if b <? 240 then utf8_decode bs' 2 (b mod 16)
          else utf8_decode bs' 3 (b mod 8)
      | S k =>
          let acc' := acc * 64 + b mod 64 in
          match k with
          | O => acc' :: utf8_decode bs' 0 0
          | S _ => utf8_decode bs' k acc'
          end
      end
  end.

Definition lit (s : string) : str :=
  utf8_decode (List.map N_of_ascii (list_ascii_of_string s)) 0 0.

(** JSON sample texts are written with an apostrophe where the text has a
    double quote. *)
Definition jlit (s : string) : str :=
  List.map (fun c => if c =? 39 then 34 else c) (lit s).

(** [str.isspace] for one character (Unicode White_Space plus the four
    information separators, as CPython's [Py_UNICODE_ISSPACE]). *)
Definition isspace (c : N) : bool :=
  ((9 <=? c) && (c <=? 13)) || ((28 <=? c) && (c <=? 32))
  || (c =? 133) || (c =? 160) || (c =? 5760)
  || ((8192 <=? c) && (c <=? 8202))
  || (c =? 8232) || (c =? 8233) || (c =? 8239) || (c =? 8287)
  || (c =? 12288).

Fixpoint lstrip (s : str) : str :=
  match s with
  | c :: s' => if isspace c then lstrip s' else s
  | [] => []
  end.

Fixpoint rstrip (s : str) : str :=
  match s with
  | c :: s' =>
      match rstrip s' with
      | [] => if isspace c then [] else [c]
      | r => c :: r
      end
  | [] => []
  end.

(** [s.strip()] *)
Definition strip (s : str) : str := rstrip (lstrip s).

(** [s.startswith(p)] *)
Fixpoint startswith (s p : str) {struct p} : bool :=
  match p with
  | [] => true
  | a :: p' =>
      match s with
      | b :: s' => (a =? b) && startswith s' p'
      | [] => false
      end
  end.

(** The scan of [s.replace(old, new)] for a non-empty [old]: [skip] counts
    the characters of a match that are still to be passed over. *)
Fixpoint replace_scan (old new : str) (skip : nat) (s : str) : str :=
  match s with
  | [] => []
  | c :: s' =>
      match skip with
      | S k => replace_scan old new k s'
      | O =>
          if startswith s old
          then new ++ replace_scan old new (Nat.pred (length old)) s'
          else c :: replace_scan old new 0 s'
      end
  end.

(** [s.replace(old, new)]: every non-overlapping occurrence, leftmost
    first; an empty [old] matches before every character and at the end. *)
Definition replace (s old new : str) : str :=
  match old with
  | [] => new ++ List.concat (List.map (fun c => c :: new) s)
  | _ :: _ => replace_scan old new 0 s
  end.

(** [p in s] *)
Fixpoint contains (s p : str) : bool :=
  startswith s p ||
  match s with
  | [] => false
  | _ :: s' => contains s' p
  end.

End PyStr.

Import PyStr.

(** ** Exceptions

    The classes of Python exception the modelled code can meet.  All of them
    derive from [Exception], so the worker's [except Exception] clause
    catches every one. *)
Inductive exn :=
| KeyError            (* d[k] on a missing key *)
| AttributeError      (* x.get / x.name on a value without that attribute *)
| JSONDecodeError     (* json.loads on text that is not JSON *)
| ValueError          (* Queue.task_done called too many times *)
| GraderError         (* anything raised by the grading service client *)
| StatementError      (* the database refuses a value for a column *)
| HTTPException (code : Z).

(** ** [json.loads]

    The decoder of the standard library, with its default settings: the
    scanner, [JSONObject], [JSONArray] and [scanstring] of [json.decoder].
    Limits of the interpreter (recursion depth, digits of an integer) are
    not part of the model. *)

Module Json.

(** The Python value a JSON text decodes to.  A [float] is kept as the
    lexeme it was read from; a [dict] is its list of items in insertion
    order, without repeated keys. *)
Inductive json :=
| JNull
| JBool (b : bool)
| JInt (z : Z)
| JFloat (lexeme : str)
| JStr (s : str)
| JArr (items : list json)
| JObj (items : list (str * json)).

(** Outcome of a scanner: a value and the text left, a decode error, or
    not enough fuel. *)
Inductive scan (A : Type) :=
| Done (a : A)
| Fail
| Starved.
Arguments Done {A} a.
Arguments Fail {A}.
Arguments Starved {A}.

#[global] Instance scan_bind : MBind scan := fun A B k m =>
  match m with
  | Done a => k a
  | Fail => Fail
  | Starved => Starved
  end.

(** [WHITESPACE]: space, tab, line feed, carriage return. *)
Definition is_ws (c : N) : bool :=
  (c =? 32) || (c =? 9) || (c =? 10) || (c =? 13).

Fixpoint skip_ws (s : str) : str :=
  match s with
  | c :: s' => if is_ws c then skip_ws s' else s
  | [] => []
  end.

Definition is_digit (c : N) : bool := (48 <=? c) && (c <=? 57).

Fixpoint span_digits (s : str) : str * str :=
  match s with
  | c :: s' =>
      if is_digit c
      then let '(d, r) := span_digits s' in (c :: d, r)
      else ([], s)
  | [] => ([], [])
  end.

Definition int_of_digits (ds : str) : Z :=
  fold_left (fun acc c => (10 * acc + (Z.of_N c - 48))%Z) ds 0%Z.

(** [int(lexeme)] for a lexeme matched by the integer part of
    [NUMBER_RE]. *)
Definition parse_int (lexeme : str) : Z :=
  match lexeme with
  | c :: ds => if c =? 45 then (- int_of_digits ds)%Z else int_of_digits lexeme
  | [] => int_of_digits lexeme
  end.

(** [NUMBER_RE]: an optional minus sign and either a single 0 or a
    non-zero digit with any digits after it (group 1); optionally a dot
    with at least one digit (group 2); optionally e or E, an optional
    sign and at least one digit (group 3). *)
Definition match_integer (s : str) : option (str * str) :=
  let '(sign, s1) :=
    match s with
    | c :: t => if c =? 45 then ([c], t) else ([], s)
    | [] => ([], s)
    end in
  match s1 with
  | c :: t =>
      if c =? 48 then Some (sign ++ [c], t)
      else if is_digit c
           then let '(d, r) := span_digits t in Some (sign ++ c :: d, r)
           else None
  | [] => None
  end.

Definition match_frac (s : str) : str * str :=
  match s with
  | c :: t =>
      if c =? 46 then
        match span_digits t with
        | ([], _) => ([], s)
        | (d, r) => (c :: d, r)
        end
      else ([], s)
  | [] => ([], s)
  end.

Definition match_exp (s : str) : str * str :=
  match s with
  | c :: t =>
      if (c =? 101) || (c =? 69) then
        let '(sign, t1) :=
          match t with
          | g :: t' => if (g =? 45) || (g =? 43) then ([g], t') else ([], t)
          | [] => ([], t)
          end in
        match span_digits t1 with
        | ([], _) => ([], s)
        | (d, r) => (c :: sign ++ d, r)
        end
      else ([], s)
  | [] => ([], s)
  end.

Definition match_number (s : str) : option (str * str * str * str) :=
  match match_integer s with
  | Some (integer, r1) =>
      let '(frac, r2) := match_frac r1 in
      let '(exp, r3) := match_exp r2 in
      Some (integer, frac, exp, r3)
  | None => None
  end.

Definition hexval (c : N) : option N :=
  if is_digit c then Some (c - 48)
  else if (97 <=? c) && (c <=? 102) then Some (c - 87)
  else if (65 <=? c) && (c <=? 70) then Some (c - 55)
  else None.

(** [_decode_uXXXX] on the four characters after [\u]. *)
Definition decode_uXXXX (a b c d : N) : option N :=
  match hexval a, hexval b, hexval c, hexval d with
  | Some x, Some y, Some z, Some w => Some (((x * 16 + y) * 16 + z) * 16 + w)
  | _, _, _, _ => None
  end.

(** [BACKSLASH] *)
Definition unescape (e : N) : option N :=
  if e =? 34 then Some 34
  else if e =? 92 then Some 92
  else if e =? 47 then Some 47
  else if e =? 98 then Some 8
  else if e =? 102 then Some 12
  else if e =? 110 then Some 10
  else if e =? 114 then Some 13
  else if e =? 116 then Some 9
  else None.

Definition scan_cons (c : N) (m : scan (str * str)) : scan (str * str) :=
  '(k, r) ← m; Done (c :: k, r).

(** [scanstring(s, end, strict=True)], entered after the opening quote:
    the decoded string and the text after the closing quote. *)
Fixpoint scanstring (s : str) : scan (str * str) :=
  match s with
  | [] => Fail
  | c :: s' =>
      if c =? 34 then Done ([], s')
      else if c =? 92 then
        match s' with
        | [] => Fail
        | e :: s'' =>
            if e =? 117 then
              match s'' with
              | h1 :: h2 :: h3 :: h4 :: r =>
                  match decode_uXXXX h1 h2 h3 h4 with
                  | None => Fail
                  | Some uni =>
                      if (55296 <=? uni) && (uni <=? 56319) then
                        match r with
                        | b :: u :: r1 =>
                            if (b =? 92) && (u =? 117) then
                              match r1 with
                              | g1 :: g2 :: g3 :: g4 :: r2 =>
                                  match decode_uXXXX g1 g2 g3 g4 with
                                  | None => Fail
                                  | Some uni2 =>
                                      if (56320 <=? uni2) && (uni2 <=? 57343)
                                      then scan_cons
                                             (65536 + ((uni - 55296) * 1024
                                                       + (uni2 - 56320)))
                                             (scanstring r2)
                                      else scan_cons uni (scanstring r)
                                  end
                              | _ => Fail
                              end
                            else scan_cons uni (scanstring r)
                        | _ => scan_cons uni (scanstring r)
                        end
                      else scan_cons uni (scanstring r)
                  end
              | _ => Fail
              end
            else
              match unescape e with
              | Some ch => scan_cons ch (scanstring s'')
              | None => Fail
              end
        end
      else if c <? 32 then Fail
      else scan_cons c (scanstring s')
  end.

(** [dict(pairs)]: a later item with the same key replaces the value and
    keeps the key's place. *)
Fixpoint dict_set (d : list (str * json)) (k : str) (v : json)
  : list (str * json) :=
  match d with
  | [] => [(k, v)]
  | (k', v') :: d' =>
      if bool_decide (k = k') then (k, v) :: d'
      else (k', v') :: dict_set d' k v
  end.

Definition dict_of_pairs (pairs : list (str * json)) : list (str * json) :=
  fold_left (fun d kv => dict_set d (fst kv) (snd kv)) pairs [].

(** [d.get(k)] *)
Fixpoint dict_get (d : list (str * json)) (k : str) : option json :=
  match d with
  | [] => None
  | (k', v) :: d' => if bool_decide (k = k') then Some v else dict_get d' k
  end.

Section Containers.
(** [JSONObject] and [JSONArray] receive the value scanner as an
    argument, as in [json.decoder]. *)
Variable scan_once : str -> scan (json * str).

(** The [while True] loop of [JSONObject], entered after the opening
    quote of a key. *)
Fixpoint object_items (n : nat) (s : str) (pairs : list (str * json))
  : scan (json * str) :=
  match n with
  | O => Starved
  | S n' =>
      '(key, s1) ← scanstring s;
      match skip_ws s1 with
      | colon :: s2 =>
          if colon =? 58 then
            '(value, s3) ← scan_once (skip_ws s2);
            let pairs' := pairs ++ [(key, value)] in
            match skip_ws s3 with
            | nextchar :: s4 =>
                if nextchar =? 125 then Done (JObj (dict_of_pairs pairs'), s4)
                else if nextchar =? 44 then
                  match skip_ws s4 with
                  | quote :: s5 =>
                      if quote =? 34 then object_items n' s5 pairs' else Fail
                  | [] => Fail
                  end
                else Fail
            | [] => Fail
            end
          else Fail
      | [] => Fail
      end
  end.

(** [JSONObject], entered after the opening brace. *)
Definition JSONObject (s : str) : scan (json * str) :=
  match skip_ws s with
  | nextchar :: r =>
      if nextchar =? 125 then Done (JObj [], r)
      else if nextchar =? 34 then object_items (S (length r)) r []
      else Fail
  | [] => Fail
  end.

(** The [while True] loop of [JSONArray]. *)
Fixpoint array_items (n : nat) (s : str) (values : list json)
  : scan (json * str) :=
  match n with
  | O => Starved
  | S n' =>
      '(value, s1) ← scan_once s;
      let values' := values ++ [value] in
      match skip_ws s1 with
      | nextchar :: s2 =>
          if nextchar =? 93 then Done (JArr values', s2)
          else if nextchar =? 44 then array_items n' (skip_ws s2) values'
          else Fail
      | [] => Fail
      end
  end.

(** [JSONArray], entered after the opening bracket. *)
Definition JSONArray (s : str) : scan (json * str) :=
  let s1 := skip_ws s in
  if startswith s1 [93] then Done (JArr [], drop 1 s1)
  else array_items (S (length s1)) s1 [].
End Containers.

Definition kw_null : str := Eval vm_compute in lit "null".
Definition kw_true : str := Eval vm_compute in lit "true".
Definition kw_false : str := Eval vm_compute in lit "false".
Definition kw_NaN : str := Eval vm_compute in lit "NaN".
Definition kw_Infinity : str := Eval vm_compute in lit "Infinity".
Definition kw_minus_Infinity : str := Eval vm_compute in lit "-Infinity".

(** [_scan_once]: one JSON value at the head of [s].  [fuel] bounds the
    nesting depth. *)
Fixpoint scan_once (fuel : nat) (s : str) : scan (json * str) :=
  match fuel with
  | O => Starved
  | S f =>
      match s with
      | [] => Fail
      | c :: s' =>
          if c =? 34 then '(k, r) ← scanstring s'; Done (JStr k, r)
          else if c =? 123 then JSONObject (scan_once f) s'
          else if c =? 91 then JSONArray (scan_once f) s'
          else if startswith s kw_null then Done (JNull, drop 4 s)
          else if startswith s kw_true then Done (JBool true, drop 4 s)
          else if startswith s kw_false then Done (JBool false, drop 5 s)
          else
            match match_number s with
            | Some (integer, frac, exp, r) =>
                match frac, exp with
                | [], [] => Done (JInt (parse_int integer), r)
                | _, _ => Done (JFloat (integer ++ frac ++ exp), r)
                end
            | None =>
                if startswith s kw_NaN then Done (JFloat kw_NaN, drop 3 s)
                else if startswith s kw_Infinity
                     then Done (JFloat kw_Infinity, drop 8 s)
                else if startswith s kw_minus_Infinity
                     then Done (JFloat kw_minus_Infinity, drop 9 s)
                else Fail
            end
      end
  end.

(** [json.loads(s)]: leading whitespace, one value, trailing whitespace,
    nothing else.  The fuel given is enough for every text (see
    [scan_once_fed]), so the [Starved] branch is never taken. *)
Definition loads (s : str) : exn + json :=
  let s0 := skip_ws s in
  match scan_once (S (length s0)) s0 with
  | Done (v, r) =>
      match skip_ws r with
      | [] => inr v
      | _ :: _ => inl JSONDecodeError
      end
  | Fail => inl JSONDecodeError
  | Starved => inl JSONDecodeError
  end.

End Json.

Import Json.

Local Open Scope Z_scope.

(** ** models.py: table rows and request bodies

    A row's primary key [id] is the key under which the table holds it. *)

Module Course.
Record t := { name : str }.
End Course.

Module Classroom.
Record t := {
  course_id : Z;
  name : str;
  active_chapter : str;
  is_active : bool
}.
End Classroom.

Module Student.
Record t := {
  classroom_id : Z;
  student_number : str;
  name : str;
  created_at : Z
}.
End Student.

Module Submission.
Record t := {
  student_id : Z;
  problem_id : Z;
  code_answer : str;
  ai_feedback : option str;
  score : option Z;
  status : str;
  created_at : Z
}.
End Submission.

Record SetupRequest := {
  setup_course_name : str;
  setup_class_names : list str
}.

Record LoginRequest := {
  login_classroom_id : Z;
  login_student_number : str;
  login_name : str
}.

Record SubmitRequest := {
  submit_student_id : Z;
  submit_problem_id : Z;
  submit_code_answer : str
}.

Record ProgressUpdateRequest := {
  progress_classroom_id : Z;
  progress_active_chapter : str
}.

Record ActivateClassRequest := { activate_classroom_id : Z }.

(** ** String constants of main.py *)

Definition STATUS_GRADING : str := Eval vm_compute in lit "grading".
Definition STATUS_COMPLETED : str := Eval vm_compute in lit "completed".
Definition STATUS_NONE : str := Eval vm_compute in lit "none".

Definition FEEDBACK_QUEUED : str := Eval vm_compute in
  lit "채점 대기열에 등록되었습니다. 잠시만 기다려주세요...".
Definition FEEDBACK_DEFAULT : str := Eval vm_compute in lit "피드백 생성 실패".
Definition FEEDBACK_FAILED : str := Eval vm_compute in
  lit "서버 사용량이 많아 채점에 실패했습니다. 잠시 후 다시 시도해주세요.".

Definition FENCE : str := Eval vm_compute in lit "```".
Definition FENCE_JSON : str := Eval vm_compute in lit "```json".
Definition KEY_SCORE : str := Eval vm_compute in lit "score".
Definition KEY_FEEDBACK : str := Eval vm_compute in lit "feedback".
Definition DEFAULT_COURSE : str := Eval vm_compute in lit "기본과목".
Definition UNKNOWN : str := Eval vm_compute in lit "Unknown".

Definition NL : str := [10%N].

Definition SYSTEM_PROMPT : str := Eval vm_compute in
  NL ++ lit "당신은 학교 선생님을 돕는 유능한 AI 보조교사입니다." ++
  NL ++ lit "학생의 코드를 채점하고 피드백을 줄 때 다음 원칙을 반드시 지키세요:" ++
  NL ++ lit "0. 모든 해설은 한국어로 해주세요." ++
  NL ++ lit "1. 정답 코드를 바로 알려주지 마세요. 학생이 스스로 고칠 수 있도록 힌트(Scaffolding)를 제공하세요." ++
  NL ++ lit "2. 칭찬을 먼저 하고, 고쳐야 할 점을 부드럽게 이야기하세요." ++
  NL ++ lit "3. 점수는 코드의 정확성과 문제 요구사항 충족 여부에 따라 0~100점 사이 정수로 매기세요." ++
  NL ++ lit "4. 문법 에러가 있다면 어디가 틀렸는지 구체적으로 지적하세요." ++
  NL ++ lit "5. 학생들은 예외처리(try-except) 같이 어려운 문법은 배우지 않았습니다. 정말 기초 문법 수준에서 대답해주세요." ++
  NL.

(** The worker sleeps 6.5 seconds; durations are counted in milliseconds. *)
Definition SLEEP_INTERVAL_MS : Z := 6500.

(** ** problems.yaml and the catalogs built from it at import time *)

Module Problem.
(** One problem of problems.yaml.  The keys the code reads with [p[k]]
    may be absent from the file; [course_name] is written by the
    loader. *)
Record t := {
  id : Z;
  chapter : option str;
  title : option str;
  description : option str;
  ai_prompt : option str;
  course_name : option str
}.

Definition with_course_name (c : str) (p : t) : t :=
  {| id := id p; chapter := chapter p; title := title p;
     description := description p; ai_prompt := ai_prompt p;
     course_name := Some c |}.
End Problem.

(** What [yaml.safe_load] returns: a list of problems, or a mapping from
    course name to such a list (items in file order). *)
Inductive RawData :=
| RawList (problems : list Problem.t)
| RawDict (courses : list (str * list Problem.t)).

(** [d.get(k, default)] on a mapping kept as an item list. *)
Fixpoint assoc_get {A} (d : list (str * A)) (k : str) (default : A) : A :=
  match d with
  | [] => default
  | (k', v) :: d' => if bool_decide (k = k') then v else assoc_get d' k default
  end.

(** Code-point order on [str], as Python compares strings. *)
Fixpoint str_ltb (a b : str) : bool :=
  match a, b with
  | [], [] => false
  | [], _ :: _ => true
  | _ :: _, [] => false
  | x :: a', y :: b' => (x <? y)%N || ((x =? y)%N && str_ltb a' b')
  end.

(** Insertion into a sorted list without repetition: [sorted(list(set(..)))]
    folds it over the elements. *)
Fixpoint sorted_insert (x : str) (l : list str) : list str :=
  match l with
  | [] => [x]
  | y :: l' =>
      if bool_decide (x = y) then l
      else if str_ltb x y then x :: l
      else y :: sorted_insert x l'
  end.

Definition sorted_set (l : list str) : list str :=
  foldr sorted_insert [] l.

Section Catalog.
Variable raw_data : RawData.

(** [PROBLEMS_BY_COURSE], after the loader has written [course_name] into
    every problem. *)
Definition PROBLEMS_BY_COURSE : list (str * list Problem.t) :=
  let by_course :=
    match raw_data with
    | RawList l => [(DEFAULT_COURSE, l)]
    | RawDict d => d
    end in
  List.map (fun cp => (fst cp, List.map (Problem.with_course_name (fst cp)) (snd cp)))
           by_course.

(** [PROBLEMS_DICT[p['id']] = p], in file order: a later problem with the
    same id replaces an earlier one. *)
Definition PROBLEMS_DICT : gmap Z Problem.t :=
  fold_left
    (fun d cp => fold_left (fun d p => <[Problem.id p := p]> d) (snd cp) d)
    PROBLEMS_BY_COURSE ∅.

Definition CHAPTERS_BY_COURSE : list (str * list str) :=
  List.map
    (fun cp =>
       (fst cp,
        sorted_set (List.map (fun p => default UNKNOWN (Problem.chapter p))
                             (snd cp))))
    PROBLEMS_BY_COURSE.
End Catalog.

(** ** The database *)

(** Modelled from the spec: database.py ([engine], [get_session],
    [create_db_and_tables]) is not among the sources.  The store offers
    create, get by id and update of a row (spec 4.4), one table for each
    table model of models.py; a commit makes the session's pending writes
    durable. *)
Record DB := {
  courses : gmap Z Course.t;
  classrooms : gmap Z Classroom.t;
  students : gmap Z Student.t;
  submissions : gmap Z Submission.t
}.

Definition empty_db : DB :=
  {| courses := ∅; classrooms := ∅; students := ∅; submissions := ∅ |}.

Definition set_courses (f : gmap Z Course.t -> gmap Z Course.t) (d : DB) : DB :=
  {| courses := f (courses d); classrooms := classrooms d;
     students := students d; submissions := submissions d |}.

Definition set_classrooms (f : gmap Z Classroom.t -> gmap Z Classroom.t) (d : DB) : DB :=
  {| courses := courses d; classrooms := f (classrooms d);
     students := students d; submissions := submissions d |}.

Definition set_students (f : gmap Z Student.t -> gmap Z Student.t) (d : DB) : DB :=
  {| courses := courses d; classrooms := classrooms d;
     students := f (students d); submissions := submissions d |}.

Definition set_submissions (f : gmap Z Submission.t -> gmap Z Submission.t) (d : DB) : DB :=
  {| courses := courses d; classrooms := classrooms d;
     students := students d; submissions := f (submissions d) |}.

(** Modelled from the spec: the unique identifier a row is assigned at
    creation, as an auto-increment primary key column gives it: one more
    than the largest key in use. *)
Definition next_id {A} (table : gmap Z A) : Z :=
  1 + map_fold (fun k _ acc => Z.max k acc) 0 table.

(** Modelled from the spec: a column holds exactly the values of the type
    models.py declares for it, and a commit that is handed another value
    raises.  [bind_int] binds a Python value to the [Optional[int]] column
    [score] ([True] and [False] are the integers 1 and 0). *)
Definition bind_int (v : json) : exn + option Z :=
  match v with
  | JInt z => inr (Some z)
  | JBool b => inr (Some (if b then 1 else 0))
  | JNull => inr None
  | _ => inl StatementError
  end.

(** Modelled from the spec: the same for the [Optional[str]] column
    [ai_feedback]. *)
Definition bind_str (v : json) : exn + option str :=
  match v with
  | JStr s => inr (Some s)
  | JNull => inr None
  | _ => inl StatementError
  end.

(** ** The grading queue and the worker's world *)

(** A queued job: [(submission.id, problem, req.code_answer)]. *)
Definition Job : Type := Z * Problem.t * str.

(** What the worker does that can be observed from outside. *)
Inductive Event :=
| EvGet (submission_id : Z)      (* [submission_queue.get()] returned a job *)
| EvGenerate (prompt : str)      (* [model.generate_content] was called *)
| EvSleep (ms : Z).              (* [asyncio.sleep] *)

Record World := {
  db : DB;
  queue : list Job;              (* [submission_queue], oldest job first *)
  unfinished_tasks : Z;          (* the queue's count of unfinished tasks *)
  events : list Event            (* oldest first *)
}.

Definition set_db (f : DB -> DB) (w : World) : World :=
  {| db := f (db w); queue := queue w;
     unfinished_tasks := unfinished_tasks w; events := events w |}.

Definition set_queue (q : list Job) (w : World) : World :=
  {| db := db w; queue := q;
     unfinished_tasks := unfinished_tasks w; events := events w |}.

Definition set_unfinished_tasks (n : Z) (w : World) : World :=
  {| db := db w; queue := queue w; unfinished_tasks := n; events := events w |}.

Definition emit (e : Event) (w : World) : World :=
  {| db := db w; queue := queue w;
     unfinished_tasks := unfinished_tasks w; events := events w ++ [e] |}.

Definition initial_world : World :=
  {| db := empty_db; queue := []; unfinished_tasks := 0; events := [] |}.

(** A computation that reads and writes the world and may raise. *)
Definition M (A : Type) : Type := World -> (exn + A) * World.

#[global] Instance M_ret : MRet M := fun A a w => (inr a, w).

#[global] Instance M_bind : MBind M := fun A B k m w =>
  match m w with
  | (inr a, w') => k a w'
  | (inl e, w') => (inl e, w')
  end.

Definition raise {A} (e : exn) : M A := fun w => (inl e, w).

Definition lift {A} (r : exn + A) : M A := fun w => (r, w).

(** [try: body except Exception: handler] *)
Definition try_except {A} (body : M A) (handler : exn -> M A) : M A :=
  fun w =>
    match body w with
    | (inr a, w') => (inr a, w')
    | (inl e, w') => handler e w'
    end.

(** [try: body finally: cleanup]: the cleanup runs on every exit from the
    body (normal, [continue], exception); when the cleanup raises, its
    exception is the one that leaves the statement. *)
Definition try_finally {A} (body : M A) (cleanup : M unit) : M A :=
  fun w =>
    match body w with
    | (r, w') =>
        match cleanup w' with
        | (inr _, w'') => (r, w'')
        | (inl e, w'') => (inl e, w'')
        end
    end.

(** [submission_queue.put(job)] *)
Definition put (job : Job) : M unit := fun w =>
  (inr (),
   set_unfinished_tasks (unfinished_tasks w + 1) (set_queue (queue w ++ [job]) w)).

(** [submission_queue.task_done()] *)
Definition task_done : M unit := fun w =>
  if unfinished_tasks w <=? 0 then (inl ValueError, w)
  else (inr (), set_unfinished_tasks (unfinished_tasks w - 1) w).

(** [asyncio.sleep(seconds)] *)
Definition sleep (ms : Z) : M unit := fun w => (inr (), emit (EvSleep ms) w).

(** [session.get(Submission, id)] *)
Definition get_submission (id : Z) : M (option Submission.t) := fun w =>
  (inr (submissions (db w) !! id), w).

(** [session.add(submission); session.commit()] for a row that exists. *)
Definition commit_submission (id : Z) (row : Submission.t) : M unit := fun w =>
  (inr (), set_db (set_submissions <[id := row]>) w).

(** ** The grading service *)

(** The response object of the client library: reading [response.text] may
    raise. *)
Record Response := { text : exn + str }.

(** One call of [model.generate_content]: the environment's answer to a
    prompt. *)
Definition Grader : Type := str -> exn + Response.

Definition INDENT : str := Eval vm_compute in lit "                ".
Definition PROMPT_TAIL : str := Eval vm_compute in
  jlit "Return SINGLE JSON: 'score'(int), 'feedback'(str)".

Definition subscript (field : option str) : exn + str :=
  match field with
  | Some v => inr v
  | None => inl KeyError
  end.

(** The f-string of the worker. *)
Definition build_prompt (problem_info : Problem.t) (code : str) : exn + str :=
  match subscript (Problem.title problem_info),
        subscript (Problem.description problem_info),
        subscript (Problem.ai_prompt problem_info) with
  | inr title, inr description, inr ai_prompt =>
      inr (NL ++ INDENT ++ SYSTEM_PROMPT ++
           NL ++ INDENT ++ lit "[Problem] " ++ title ++
           NL ++ INDENT ++ lit "[Desc] " ++ description ++
           NL ++ INDENT ++ lit "[Criteria] " ++ ai_prompt ++
           NL ++ INDENT ++ lit "[Code]" ++
           NL ++ INDENT ++ code ++
           NL ++ INDENT ++ PROMPT_TAIL ++
           NL ++ INDENT)
  | _, _, _ => inl KeyError
  end.

(** Lines 86 to 88: strip the text and, when it starts with a fence, delete
    every fence marker in it. *)
Definition strip_fences (response_text : str) : str :=
  let text_res := strip response_text in
  if startswith text_res FENCE
  then replace (replace text_res FENCE_JSON []) FENCE []
  else text_res.

(** Lines 86 to 90. *)
Definition parse_response (response_text : str) : exn + json :=
  loads (strip_fences response_text).

(** Lines 91 and 92: [res_json[0] if res_json else {}] for a list. *)
Definition first_of_list (res_json : json) : json :=
  match res_json with
  | JArr (x :: _) => x
  | JArr [] => JObj []
  | other => other
  end.

(** [res_json.get(key, default)]: only a dict has [get]. *)
Definition py_get (res_json : json) (key : str) (default : json) : exn + json :=
  match res_json with
  | JObj d =>
      match dict_get d key with
      | Some v => inr v
      | None => inr default
      end
  | _ => inl AttributeError
  end.

(** Lines 94 to 96: the row as it is handed to the session. *)
Definition graded (row : Submission.t) (score : option Z)
    (feedback : option str) : Submission.t :=
  {| Submission.student_id := Submission.student_id row;
     Submission.problem_id := Submission.problem_id row;
     Submission.code_answer := Submission.code_answer row;
     Submission.ai_feedback := feedback;
     Submission.score := score;
     Submission.status := STATUS_COMPLETED;
     Submission.created_at := Submission.created_at row |}.

Section Worker.
Variable generate_content : Grader.

(** Lines 72 to 99, for a submission that was found. *)
Definition grade (submission_id : Z) (submission : Submission.t)
    (problem_info : Problem.t) (code : str) : M unit :=
  prompt ← lift (build_prompt problem_info code);
  response ← (fun w => (generate_content prompt, emit (EvGenerate prompt) w));
  response_text ← lift (text response);
  res_json ← lift (parse_response response_text);
  let res_json := first_of_list res_json in
  score ← lift (py_get res_json KEY_SCORE (JInt 0));
  feedback ← lift (py_get res_json KEY_FEEDBACK (JStr FEEDBACK_DEFAULT));
  score_column ← lift (bind_int score);
  feedback_column ← lift (bind_str feedback);
  commit_submission submission_id (graded submission score_column feedback_column).

(** Lines 66 to 100: the [try] suite.  A missing row ends the suite after
    [task_done()]; [continue] then leaves through [finally]. *)
Definition try_suite (job : Job) : M unit :=
  let '(submission_id, problem_info, code) := job in
  submission ← get_submission submission_id;
  match submission with
  | None => task_done
  | Some row => grade submission_id row problem_info code
  end.

(** Lines 102 to 111: the [except Exception] suite. *)
Definition except_suite (job : Job) (e : exn) : M unit :=
  let '(submission_id, _, _) := job in
  submission ← get_submission submission_id;
  match submission with
  | Some row =>
      commit_submission submission_id (graded row (Some 0) (Some FEEDBACK_FAILED))
  | None => mret ()
  end.

(** Lines 113 to 116: the [finally] suite. *)
Definition finally_suite : M unit :=
  _ ← task_done; sleep SLEEP_INTERVAL_MS.

(** The body of [while True] once [get()] has returned [job]. *)
Definition process_job (job : Job) : M unit :=
  try_finally (try_except (try_suite job) (except_suite job)) finally_suite.
End Worker.

(** One turn of the worker's loop. *)
Inductive Outcome :=
| Blocked (w : World)            (* the queue is empty: [get()] waits *)
| Next (w : World)               (* the loop goes on to its next turn *)
| Died (e : exn) (w : World).    (* an exception left the coroutine *)

Definition worker_iteration (g : Grader) (w : World) : Outcome :=
  match queue w with
  | [] => Blocked w
  | job :: rest =>
      match process_job g job (emit (EvGet (fst (fst job))) (set_queue rest w)) with
      | (inr _, w') => Next w'
      | (inl e, w') => Died e w'
      end
  end.

(** [process_submission_queue]: the loop, run against the grader's answers
    to the successive calls; it stops early when the queue runs empty or
    the coroutine dies. *)
Fixpoint process_submission_queue (graders : list Grader) (w : World) : Outcome :=
  match graders with
  | [] => Next w
  | g :: gs =>
      match worker_iteration g w with
      | Next w' => process_submission_queue gs w'
      | stop => stop
      end
  end.

(** ** Request handlers that write to the database *)

#[global] Instance exn_ret : MRet (sum exn) := fun A a => inr a.

#[global] Instance exn_bind : MBind (sum exn) := fun A B k m =>
  match m with
  | inr a => k a
  | inl e => inl e
  end.

(** [session.add(row); session.commit(); session.refresh(row)] for a new
    row: the row gets its primary key. *)
Definition add_submission (row : Submission.t) : M Z := fun w =>
  let id := next_id (submissions (db w)) in
  (inr id, set_db (set_submissions <[id := row]>) w).

Definition add_classroom (row : Classroom.t) (d : DB) : DB :=
  set_classrooms <[next_id (classrooms d) := row]> d.

(** [x.attr] on the result of [session.get]: [None] has no attributes. *)
Definition attr_of {A} (row : option A) : exn + A :=
  match row with
  | Some r => inr r
  | None => inl AttributeError
  end.

Record LoginResponse := {
  resp_id : Z;
  resp_name : str;
  resp_class_name : str;
  resp_course_name : str;
  resp_classroom_id : Z
}.

(** The row [submit] creates: status "grading", no score, the placeholder
    feedback. *)
Definition new_row (now : Z) (req : SubmitRequest) : Submission.t :=
  {| Submission.student_id := submit_student_id req;
     Submission.problem_id := submit_problem_id req;
     Submission.code_answer := submit_code_answer req;
     Submission.ai_feedback := Some FEEDBACK_QUEUED;
     Submission.score := None;
     Submission.status := STATUS_GRADING;
     Submission.created_at := now |}.

Section Handlers.
Variable raw_data : RawData.

(** [POST /api/system/setup] *)
Definition setup_system (req : SetupRequest) : M unit := fun w =>
  let d := db w in
  let course_id := next_id (courses d) in
  let d1 := set_courses <[course_id := {| Course.name := setup_course_name req |}]> d in
  let chapters := assoc_get (CHAPTERS_BY_COURSE raw_data) (setup_course_name req) [] in
  let def_chap := hd [] chapters in
  let d2 :=
    fold_left
      (fun d name =>
         add_classroom {| Classroom.course_id := course_id;
                          Classroom.name := name;
                          Classroom.active_chapter := def_chap;
                          Classroom.is_active := false |} d)
      (setup_class_names req) d1 in
  (inr (), set_db (fun _ => d2) w).

(** [POST /api/login]; [now] is the clock reading given to a new row. *)
Definition login (now : Z) (req : LoginRequest) : M LoginResponse := fun w =>
  let d := db w in
  let found :=
    head (filter (fun kv => Student.student_number (snd kv) = login_student_number req)
                 (map_to_list (students d))) in
  let '(id, student) :=
    match found with
    | None =>
        (next_id (students d),
         {| Student.classroom_id := login_classroom_id req;
            Student.student_number := login_student_number req;
            Student.name := login_name req;
            Student.created_at := now |})
    | Some (id, old) =>
        (id,
         {| Student.classroom_id := login_classroom_id req;
            Student.student_number := Student.student_number old;
            Student.name := login_name req;
            Student.created_at := Student.created_at old |})
    end in
  let d' := set_students <[id := student]> d in
  let response :=
    classroom ← attr_of (classrooms d' !! Student.classroom_id student);
    course ← attr_of (courses d' !! Classroom.course_id classroom);
    mret {| resp_id := id;
            resp_name := Student.name student;
            resp_class_name := Classroom.name classroom;
            resp_course_name := Course.name course;
            resp_classroom_id := Student.classroom_id student |} in
  (response, set_db (fun _ => d') w).

(** [POST /api/submit]; [now] is the clock reading given to the row. *)
Definition submit (now : Z) (req : SubmitRequest) : M (Z * Submission.t) :=
  match PROBLEMS_DICT raw_data !! submit_problem_id req with
  | None => raise (HTTPException 404)
  | Some problem =>
      let submission := new_row now req in
      id ← add_submission submission;
      _ ← put (id, problem, submit_code_answer req);
      mret (id, submission)
  end.

(** [GET /api/check_submission/{submission_id}] *)
Definition check_submission (submission_id : Z) : M Submission.t := fun w =>
  match submissions (db w) !! submission_id with
  | None => (inl (HTTPException 404), w)
  | Some sub => (inr sub, w)
  end.

Definition deactivate (c : Classroom.t) : Classroom.t :=
  {| Classroom.course_id := Classroom.course_id c;
     Classroom.name := Classroom.name c;
     Classroom.active_chapter := Classroom.active_chapter c;
     Classroom.is_active := false |}.

Definition activate (c : Classroom.t) : Classroom.t :=
  {| Classroom.course_id := Classroom.course_id c;
     Classroom.name := Classroom.name c;
     Classroom.active_chapter := Classroom.active_chapter c;
     Classroom.is_active := true |}.

(** [POST /api/admin/activate] *)
Definition activate_class (req : ActivateClassRequest) : M unit := fun w =>
  (inr (),
   set_db (set_classrooms
             (fun cs => alter activate (activate_classroom_id req)
                          (deactivate <$> cs))) w).

(** [POST /api/admin/progress] *)
Definition update_progress (req : ProgressUpdateRequest) : M unit := fun w =>
  match classrooms (db w) !! progress_classroom_id req with
  | None => (inl (HTTPException 404), w)
  | Some c =>
      let c' := {| Classroom.course_id := Classroom.course_id c;
                   Classroom.name := Classroom.name c;
                   Classroom.active_chapter := progress_active_chapter req;
                   Classroom.is_active := Classroom.is_active c |} in
      (inr (), set_db (set_classrooms <[progress_classroom_id req := c']>) w)
  end.
End Handlers.

(** ** The process: handlers and the worker taking turns

    All tasks run on one thread.  A handler runs from its first line to its
    last; a turn of the worker is taken as a whole, the requests served
    while it awaits the grader or sleeps coming before or after it. *)

Inductive Request :=
| ReqSetup (req : SetupRequest)
| ReqLogin (now : Z) (req : LoginRequest)
| ReqSubmit (now : Z) (req : SubmitRequest)
| ReqCheck (submission_id : Z)
| ReqActivate (req : ActivateClassRequest)
| ReqProgress (req : ProgressUpdateRequest).

Definition handle (raw_data : RawData) (r : Request) (w : World) : World :=
  match r with
  | ReqSetup req => snd (setup_system raw_data req w)
  | ReqLogin now req => snd (login now req w)
  | ReqSubmit now req => snd (submit raw_data now req w)
  | ReqCheck id => snd (check_submission id w)
  | ReqActivate req => snd (activate_class req w)
  | ReqProgress req => snd (update_progress req w)
  end.

Inductive Action :=
| Handle (r : Request)           (* a request is served *)
| WorkerTurn (g : Grader).       (* the worker runs one turn of its loop *)

Record System := {
  world : World;
  worker_alive : bool            (* the coroutine has not been left by an exception *)
}.

(** The first start of the process: the database is empty, the queue is
    empty and the worker is running.  A later start finds the database as
    the earlier process left it ([started], below). *)
Definition initial_system : System :=
  {| world := initial_world; worker_alive := true |}.

Definition step (raw_data : RawData) (a : Action) (s : System) : System :=
  match a with
  | Handle r => {| world := handle raw_data r (world s); worker_alive := worker_alive s |}
  | WorkerTurn g =>
      if worker_alive s then
        match worker_iteration g (world s) with
        | Blocked _ => s
        | Next w' => {| world := w'; worker_alive := true |}
        | Died _ w' => {| world := w'; worker_alive := false |}
        end
      else s
  end.

Definition run (raw_data : RawData) (actions : list Action) (s : System) : System :=
  fold_left (fun s a => step raw_data a s) actions s.

(** ** The two views: [GET /api/problems] and [GET /api/status] *)

(** The keys [pc.update] adds to a problem that has a submission. *)
Record Attempt := {
  last_code : str;
  last_score : option Z;
  last_feedback : option str;
  attempt_status : str
}.

(** One cell of the status table. *)
Record Cell := {
  cell_id : option Z;
  cell_status : str;
  cell_score : option Z;
  cell_feedback : option str;
  cell_code : str
}.

Record StatusRow := {
  row_info : str;
  row_problems : gmap Z Cell
}.

Record StatusReport := {
  report_students : list StatusRow;
  report_problems : list Problem.t;
  report_chapter : option str
}.

(** [[p for p in course_problems if p['chapter'] == active_chapter]] *)
Fixpoint target_problems (active_chapter : str) (course_problems : list Problem.t)
  : exn + list Problem.t :=
  match course_problems with
  | [] => inr []
  | p :: ps =>
      c ← subscript (Problem.chapter p);
      rest ← target_problems active_chapter ps;
      mret (if bool_decide (c = active_chapter) then p :: rest else rest)
  end.

(** The loop of [get_problems] over the query result: the first row met
    for a problem is kept. *)
Definition problems_sub_map (rows : list (Z * Submission.t))
  : gmap Z (Z * Submission.t) :=
  fold_left
    (fun sub_map sub =>
       match sub_map !! Submission.problem_id (snd sub) with
       | None => <[Submission.problem_id (snd sub) := sub]> sub_map
       | Some _ => sub_map
       end)
    rows ∅.

(** The loop of [get_status] over the query result. *)
Definition status_sub_map (rows : list (Z * Submission.t))
  : gmap Z (gmap Z (Z * Submission.t)) :=
  fold_left
    (fun sub_map sub =>
       let sid := Submission.student_id (snd sub) in
       let pid := Submission.problem_id (snd sub) in
       let sub_map1 :=
         match sub_map !! sid with
         | None => <[sid := ∅]> sub_map
         | Some _ => sub_map
         end in
       let inner := default ∅ (sub_map1 !! sid) in
       match inner !! pid with
       | None => <[sid := <[pid := sub]> inner]> sub_map1
       | Some _ => sub_map1
       end)
    rows ∅.

Definition attempt_of (s : Submission.t) : Attempt :=
  {| last_code := Submission.code_answer s;
     last_score := Submission.score s;
     last_feedback := Submission.ai_feedback s;
     attempt_status := Submission.status s |}.

Definition cell_of (item : option (Z * Submission.t)) : Cell :=
  match item with
  | Some (id, s) =>
      {| cell_id := Some id;
         cell_status := Submission.status s;
         cell_score := Submission.score s;
         cell_feedback := Submission.ai_feedback s;
         cell_code := Submission.code_answer s |}
  | None =>
      {| cell_id := None;
         cell_status := STATUS_NONE;
         cell_score := Some 0;
         cell_feedback := Some [];
         cell_code := [] |}
  end.

Section Views.
Variable raw_data : RawData.

(** [ORDER BY created_at DESC] as the database engine performs it.  SQL
    fixes the result only up to the order of rows with equal
    [created_at]. *)
Variable order_by_created_at_desc :
  list (Z * Submission.t) -> list (Z * Submission.t).

(** [select(Submission).where(student_id in s_ids)
      .where(problem_id in p_ids).order_by(created_at.desc()).all()] *)
Definition select_submissions (s_ids p_ids : list Z) (d : DB)
  : list (Z * Submission.t) :=
  order_by_created_at_desc
    (filter (fun kv => Submission.student_id (snd kv) ∈ s_ids
                       ∧ Submission.problem_id (snd kv) ∈ p_ids)
            (map_to_list (submissions d))).

(** [GET /api/problems]: the active chapter and, for each of its
    problems, the attempt shown. *)
Definition get_problems (student_id : Z) (d : DB)
  : exn + (str * list (Problem.t * option Attempt)) :=
  match students d !! student_id with
  | None => inl (HTTPException 404)
  | Some student =>
      classroom ← attr_of (classrooms d !! Student.classroom_id student);
      course ← attr_of (courses d !! Classroom.course_id classroom);
      let course_problems :=
        assoc_get (PROBLEMS_BY_COURSE raw_data) (Course.name course) [] in
      targets ← target_problems (Classroom.active_chapter classroom) course_problems;
      let p_ids := List.map Problem.id targets in
      let rows := select_submissions [student_id] p_ids d in
      let sub_map := problems_sub_map rows in
      mret (Classroom.active_chapter classroom,
            List.map
              (fun p => (p, attempt_of ∘ snd <$> sub_map !! Problem.id p))
              targets)
  end.

(** [GET /api/status].  The query for the students has no ORDER BY: the
    order of the rows is the database's.  Here they come in the order of
    [map_to_list], which stands for any order; what is proved of the list
    of rows is proved up to its order. *)
Definition get_status (classroom_id : Z) (d : DB) : exn + StatusReport :=
  match classrooms d !! classroom_id with
  | None =>
      inr {| report_students := []; report_problems := []; report_chapter := None |}
  | Some classroom =>
      course ← attr_of (courses d !! Classroom.course_id classroom);
      let course_problems :=
        assoc_get (PROBLEMS_BY_COURSE raw_data) (Course.name course) [] in
      targets ← target_problems (Classroom.active_chapter classroom) course_problems;
      let p_ids := List.map Problem.id targets in
      let studs :=
        filter (fun kv => Student.classroom_id (snd kv) = classroom_id)
               (map_to_list (students d)) in
      let s_ids := List.map fst studs in
      let rows := select_submissions s_ids p_ids d in
      let sub_map := status_sub_map rows in
      let result :=
        List.map
          (fun s =>
             {| row_info := Student.student_number (snd s) ++ [32%N]
                            ++ Student.name (snd s);
                row_problems :=
                  fold_left
                    (fun cells p =>
                       <[Problem.id p :=
                           cell_of (default ∅ (sub_map !! fst s) !! Problem.id p)]>
                         cells)
                    targets ∅ |})
          studs in
      mret {| report_students := result;
              report_problems := targets;
              report_chapter := Some (Classroom.active_chapter classroom) |}
  end.
End Views.

(** A reference [ORDER BY created_at DESC]: insertion sort; rows with equal
    [created_at] keep the order in which they were read. *)
Fixpoint insert_desc (x : Z * Submission.t) (l : list (Z * Submission.t))
  : list (Z * Submission.t) :=
  match l with
  | [] => [x]
  | y :: l' =>
      if Submission.created_at (snd y) <=? Submission.created_at (snd x)
      then x :: l
      else y :: insert_desc x l'
  end.

Definition sort_desc (l : list (Z * Submission.t)) : list (Z * Submission.t) :=
  foldr insert_desc [] l.

(** [created_at] does not increase along the list. *)
Definition desc_sorted (l : list (Z * Submission.t)) : Prop :=
  StronglySorted
    (fun a b => Submission.created_at (snd b) <= Submission.created_at (snd a)) l.

(** ** Reading the event log *)

(** [paced got called l]: in the log [l], no job is taken and no grader call
    is made while an earlier one has not yet been followed by a sleep of
    the full interval.  [got] and [called] tell whether a job was taken,
    and a call made, since the last such sleep. *)
Fixpoint paced (got called : bool) (l : list Event) : bool :=
  match l with
  | [] => true
  | EvGet _ :: l' => negb got && paced true called l'
  | EvGenerate _ :: l' => negb called && paced got true l'
  | EvSleep ms :: l' =>
      if ms =? SLEEP_INTERVAL_MS then paced false false l' else paced got called l'
  end.

(** ** Sample data *)

Definition sample_problem : Problem.t :=
  {| Problem.id := 1;
     Problem.chapter := Some (lit "ch1");
     Problem.title := Some (lit "Hello");
     Problem.description := Some (lit "Print a greeting");
     Problem.ai_prompt := Some (lit "The output is a greeting");
     Problem.course_name := None |}.

Definition sample_raw : RawData := RawList [sample_problem].

Definition sample_request : SubmitRequest :=
  {| submit_student_id := 7;
     submit_problem_id := 1;
     submit_code_answer := lit "print(1)" |}.

(** The row [submit] creates for [sample_request] at clock reading 1000. *)
Definition sample_row : Submission.t := new_row 1000 sample_request.

(** The world after one accepted submission. *)
Definition world_submitted : World :=
  snd (submit sample_raw 1000 sample_request initial_world).

(** The same world after the submission's row was deleted from the database
    by hand while its job was still queued. *)
Definition world_row_deleted : World :=
  set_db (set_submissions (delete 1)) world_submitted.

(** A grader whose response text is [t]. *)
Definition answers (t : str) : Grader := fun _ => inr {| text := inr t |}.

(** A grader that cannot be reached. *)
Definition network_error : Grader := fun _ => inl GraderError.

Definition world_of (o : Outcome) : World :=
  match o with
  | Next w => w
  | Died _ w => w
  | Blocked w => w
  end.

(** Wrapping a response text in a fenced code block tagged json. *)
Definition fenced (t : str) : str := FENCE_JSON ++ NL ++ t ++ NL ++ FENCE.

(** ** Predicates on the state of the process *)

(** Every stored status is one of the two the code writes. *)
Definition statuses_known (s : System) : Prop :=
  forall id row,
    submissions (db (world s)) !! id = Some row ->
    Submission.status row = STATUS_GRADING \/ Submission.status row = STATUS_COMPLETED.

Definition job_id (j : Job) : Z := fst (fst j).

(** The jobs in the queue name distinct rows, each of them stored with
    status "grading". *)
Definition queued_jobs_grading (w : World) : Prop :=
  NoDup (List.map job_id (queue w))
  /\ forall j, j ∈ queue w ->
       exists row, submissions (db w) !! job_id j = Some row
                   /\ Submission.status row = STATUS_GRADING.

(** [item] is what a view must show for a student and a problem: nothing
    when the student has no submission for the problem, else a stored
    submission of that student for that problem than which none is more
    recent. *)
Definition latest_of (d : DB) (sid pid : Z) (item : option (Z * Submission.t)) : Prop :=
  match item with
  | Some (id, s) =>
      submissions d !! id = Some s
      /\ Submission.student_id s = sid
      /\ Submission.problem_id s = pid
      /\ forall id' s',
           submissions d !! id' = Some s' ->
           Submission.student_id s' = sid ->
           Submission.problem_id s' = pid ->
           Submission.created_at s' <= Submission.created_at s
  | None =>
      forall id' s',
        submissions d !! id' = Some s' ->
        ~ (Submission.student_id s' = sid /\ Submission.problem_id s' = pid)
  end.

(** A class is set up, a student logs in and submits twice for the same
    problem, and the worker grades both submissions. *)
Definition sample_history : list Action :=
  [Handle (ReqSetup {| setup_course_name := DEFAULT_COURSE;
                       setup_class_names := [lit "1-1"] |});
   Handle (ReqLogin 10 {| login_classroom_id := 1;
                          login_student_number := lit "1101";
                          login_name := lit "Kim" |});
   Handle (ReqSubmit 1000 {| submit_student_id := 1; submit_problem_id := 1;
                             submit_code_answer := lit "print(0)" |});
   Handle (ReqSubmit 2000 {| submit_student_id := 1; submit_problem_id := 1;
                             submit_code_answer := lit "print(1)" |});
   WorkerTurn (answers (jlit "{'score':40,'feedback':'Try again'}"));
   WorkerTurn (answers (jlit "{'score':90,'feedback':'good'}"))].

Definition sample_db : DB := db (world (run sample_raw sample_history initial_system)).

(** ** Predicates on the outcome of a scanner *)

(** [m'] gives the result of [m] with [x] left unread behind it. *)
Definition carries {A} (x : str) (m m' : scan (A * str)) : Prop :=
  forall y r, m = Done (y, r) -> m' = Done (y, r ++ x).

(** [x] is empty or starts with JSON whitespace. *)
Definition boundary (x : str) : Prop :=
  match x with
  | [] => True
  | c :: _ => is_ws c = true
  end.

(** [m] is the outcome of a scanner fed well on the text [s]: it did not
    starve, and what it left unread is shorter than [s]. *)
Definition shrinks {A} (s : str) (m : scan (A * str)) : Prop :=
  m <> Starved /\ forall y r, m = Done (y, r) -> (length r < length s)%nat.


(** ** The handlers that only read: [GET /api/student/active_classes] and
    [GET /api/system/info] *)

(** [f"[{course_name}] {class_name}"] *)
Definition display_name (course_name class_name : str) : str :=
  [91%N] ++ course_name ++ [93%N; 32%N] ++ class_name.

Record ActiveClass := {
  active_id : Z;
  active_display_name : str
}.

(** The loop of [get_active_classes]: [course.name] raises when the course
    of a class is not in the database. *)
Fixpoint active_entries (d : DB) (classes : list (Z * Classroom.t))
  : exn + list ActiveClass :=
  match classes with
  | [] => inr []
  | cls :: rest =>
      course ← attr_of (courses d !! Classroom.course_id (snd cls));
      result ← active_entries d rest;
      mret ({| active_id := fst cls;
               active_display_name :=
                 display_name (Course.name course) (Classroom.name (snd cls)) |}
            :: result)
  end.

(** [GET /api/student/active_classes] *)
Definition get_active_classes (d : DB) : exn + list ActiveClass :=
  active_entries d
    (filter (fun kv => Classroom.is_active (snd kv) = true)
            (map_to_list (classrooms d))).

Record ClassInfo := {
  info_id : Z;
  info_name : str;
  info_course_id : Z;
  info_course_name : str;
  info_display_name : str;
  info_active_chapter : str;
  info_is_active : bool
}.

Record SystemInfo := {
  info_initialized : bool;
  info_courses : list (Z * Course.t);
  info_classes : list ClassInfo;
  info_available_courses_in_yaml : list str;
  info_chapters_by_course : list (str * list str)
}.

(** One entry of [class_list]: the course name is looked up with
    [course_map.get(cls.course_id, "Unknown")]. *)
Definition class_info (d : DB) (cls : Z * Classroom.t) : ClassInfo :=
  let c_name :=
    default UNKNOWN (Course.name <$> courses d !! Classroom.course_id (snd cls)) in
  {| info_id := fst cls;
     info_name := Classroom.name (snd cls);
     info_course_id := Classroom.course_id (snd cls);
     info_course_name := c_name;
     info_display_name := display_name c_name (Classroom.name (snd cls));
     info_active_chapter := Classroom.active_chapter (snd cls);
     info_is_active := Classroom.is_active (snd cls) |}.

(** [GET /api/system/info] *)
Definition get_system_info (raw_data : RawData) (d : DB) : SystemInfo :=
  let all_courses := map_to_list (courses d) in
  {| info_initialized := bool_decide (0 < length all_courses)%nat;
     info_courses := all_courses;
     info_classes := List.map (class_info d) (map_to_list (classrooms d));
     info_available_courses_in_yaml := List.map fst (PROBLEMS_BY_COURSE raw_data);
     info_chapters_by_course := CHAPTERS_BY_COURSE raw_data |}.

(** ** More predicates on the state of the process *)

(** The ids of the jobs the worker has taken, oldest first. *)
Fixpoint got_ids (l : list Event) : list Z :=
  match l with
  | [] => []
  | EvGet id :: l' => id :: got_ids l'
  | _ :: l' => got_ids l'
  end.

(** The jobs taken so far followed by the jobs still waiting. *)
Definition job_history (w : World) : list Z :=
  got_ids (events w) ++ List.map job_id (queue w).

(** No two students have the same student number. *)
Definition unique_student_numbers (d : DB) : Prop :=
  forall i j a b,
    students d !! i = Some a -> students d !! j = Some b ->
    Student.student_number a = Student.student_number b -> i = j.

(** The shapes of response [res_json.get] can be applied to after lines 91
    and 92: an object, an empty list, a list headed by an object. *)
Definition accepted_shape (res_json : json) : bool :=
  match res_json with
  | JObj _ => true
  | JArr [] => true
  | JArr (JObj _ :: _) => true
  | _ => false
  end.

(** The fields of a submission that are given at creation. *)
Definition same_origin (a b : Submission.t) : Prop :=
  Submission.student_id a = Submission.student_id b
  /\ Submission.problem_id a = Submission.problem_id b
  /\ Submission.code_answer a = Submission.code_answer b
  /\ Submission.created_at a = Submission.created_at b.

(** A problem written without a [chapter] key, and a problems.yaml that
    holds it beside [sample_problem]. *)
Definition chapterless_problem : Problem.t :=
  {| Problem.id := 2;
     Problem.chapter := None;
     Problem.title := Some (lit "Loop");
     Problem.description := Some (lit "Count to ten");
     Problem.ai_prompt := Some (lit "A loop is expected");
     Problem.course_name := None |}.

Definition chapterless_raw : RawData := RawList [sample_problem; chapterless_problem].

(** Every class belongs to a course that is stored. *)
Definition classes_have_courses (d : DB) : Prop :=
  forall id c, classrooms d !! id = Some c ->
               is_Some (courses d !! Classroom.course_id c).

(** At most one class is active. *)
Definition one_active_class (d : DB) : Prop :=
  forall i j a b,
    classrooms d !! i = Some a -> classrooms d !! j = Some b ->
    Classroom.is_active a = true -> Classroom.is_active b = true -> i = j.

(** The class row [setup_system] adds for the class name [name]. *)
Definition setup_row (raw_data : RawData) (req : SetupRequest) (d : DB) (name : str)
  : Classroom.t :=
  {| Classroom.course_id := next_id (courses d);
     Classroom.name := name;
     Classroom.active_chapter :=
       hd [] (assoc_get (CHAPTERS_BY_COURSE raw_data) (setup_course_name req) []);
     Classroom.is_active := false |}.

(** The setup requests served in a history, oldest first. *)
Fixpoint setups (actions : list Action) : list SetupRequest :=
  match actions with
  | [] => []
  | Handle (ReqSetup req) :: rest => req :: setups rest
  | _ :: rest => setups rest
  end.

(** The worker is running, the queue's count of unfinished tasks is the
    number of queued jobs, the queued jobs name distinct rows that are
    stored with status "grading", and every row with that status has its
    job in the queue. *)
Definition worker_healthy (s : System) : Prop :=
  worker_alive s = true
  /\ unfinished_tasks (world s) = Z.of_nat (length (queue (world s)))
  /\ queued_jobs_grading (world s)
  /\ forall id row,
       submissions (db (world s)) !! id = Some row ->
       Submission.status row = STATUS_GRADING ->
       id ∈ List.map job_id (queue (world s)).

(** The calls of the grader in an event log, oldest first. *)
Fixpoint prompts (l : list Event) : list str :=
  match l with
  | [] => []
  | EvGenerate prompt :: l' => prompt :: prompts l'
  | _ :: l' => prompts l'
  end.

(** A class is set up, a student logs in and submits twice. *)
Definition sample_requests : list Action :=
  [Handle (ReqSetup {| setup_course_name := DEFAULT_COURSE;
                       setup_class_names := [lit "1-1"] |});
   Handle (ReqLogin 10 {| login_classroom_id := 1;
                          login_student_number := lit "1101";
                          login_name := lit "Kim" |});
   Handle (ReqSubmit 1000 {| submit_student_id := 1; submit_problem_id := 1;
                             submit_code_answer := lit "print(0)" |});
   Handle (ReqSubmit 2000 {| submit_student_id := 1; submit_problem_id := 1;
                             submit_code_answer := lit "print(1)" |})].

(** Every queued job carries the code of its row and the catalog's problem
    for the row's problem id. *)
Definition jobs_match_rows (raw_data : RawData) (w : World) : Prop :=
  forall id p code,
    (id, p, code) ∈ queue w ->
    exists row,
      submissions (db w) !! id = Some row
      /\ Submission.code_answer row = code
      /\ PROBLEMS_DICT raw_data !! Submission.problem_id row = Some p.

(** The ids in the history of jobs are distinct and name stored rows. *)
Definition job_history_sound (w : World) : Prop :=
  NoDup (job_history w)
  /\ forall id, id ∈ job_history w -> is_Some (submissions (db w) !! id).

(** All problems of problems.yaml, in file order. *)
Definition all_problems (raw_data : RawData) : list Problem.t :=
  concat (List.map snd (PROBLEMS_BY_COURSE raw_data)).

(** A problems.yaml in which two courses use the problem id 1. *)
Definition shared_id_raw : RawData :=
  RawDict [(lit "A", [sample_problem]);
           (lit "B", [{| Problem.id := 1;
                         Problem.chapter := Some (lit "ch9");
                         Problem.title := Some (lit "Other");
                         Problem.description := Some (lit "Another problem");
                         Problem.ai_prompt := Some (lit "Other criteria");
                         Problem.course_name := None |}])].

(** A problem written without a [title] key, and a problems.yaml that
    holds it alone. *)
Definition untitled_problem : Problem.t :=
  {| Problem.id := 3;
     Problem.chapter := Some (lit "ch1");
     Problem.title := None;
     Problem.description := Some (lit "Add two numbers");
     Problem.ai_prompt := Some (lit "The sum is printed");
     Problem.course_name := None |}.

Definition untitled_raw : RawData := RawList [untitled_problem].

(** ** Starting the process again *)

(** A start of the process on the stored database [d]: the database is
    durable, the queue is created empty at import time (line 39) and the
    worker is started (lines 118 to 122).  [initial_system] is the first
    start, on the empty database. *)
Definition started (d : DB) : System :=
  {| world := {| db := d; queue := []; unfinished_tasks := 0; events := [] |};
     worker_alive := true |}.

(** What holds of a state reached after a start on [d]: the worker is
    running, the queue's count of unfinished tasks is the number of queued
    jobs, the queued jobs name distinct rows stored with status "grading",
    none of them a row of [d]; every row of [d] is stored as it was; and a
    row stored since the start is "grading" with its job in the queue, or
    "completed". *)
Definition sound_since (d : DB) (s : System) : Prop :=
  worker_alive s = true
  /\ unfinished_tasks (world s) = Z.of_nat (length (queue (world s)))
  /\ queued_jobs_grading (world s)
  /\ (forall j, j ∈ queue (world s) -> submissions d !! job_id j = None)
  /\ (forall id row,
        submissions d !! id = Some row ->
        submissions (db (world s)) !! id = Some row)
  /\ (forall id row,
        submissions (db (world s)) !! id = Some row ->
        submissions d !! id = None ->
        (Submission.status row = STATUS_GRADING
         /\ id ∈ List.map job_id (queue (world s)))
        \/ Submission.status row = STATUS_COMPLETED).

(** The world after two accepted submissions, the row of the first having
    been deleted from the database by hand while both jobs were queued. *)
Definition world_first_row_deleted : World :=
  set_db (set_submissions (delete 1))
         (snd (submit sample_raw 2000 sample_request world_submitted)).

(** A problem of a second chapter, and a problems.yaml that holds it
    beside [sample_problem]. *)
Definition second_problem : Problem.t :=
  {| Problem.id := 4;
     Problem.chapter := Some (lit "ch2");
     Problem.title := Some (lit "Sum");
     Problem.description := Some (lit "Add the numbers of a list");
     Problem.ai_prompt := Some (lit "The sum is printed");
     Problem.course_name := None |}.

Definition two_chapter_raw : RawData := RawList [sample_problem; second_problem].

(** * Properties *)

(** ** The database *)

Lemma next_id_above {A} (table : gmap Z A) (k : Z) :
  is_Some (table !! k) -> k < next_id table.
Proof.
  intros Hk. unfold next_id.
  enough (k <= map_fold (fun k _ acc => Z.max k acc) 0 table) by lia.
  revert Hk.
  apply (map_fold_weak_ind
           (fun r (m : gmap Z A) => is_Some (m !! k) -> k <= r)).
  - intros [x Hx]. rewrite lookup_empty in Hx. discriminate.
  - intros i x m r Hi IH Hk.
    destruct (decide (i = k)) as [->|Hne]; [lia|].
    rewrite lookup_insert_ne in Hk by done.
    specialize (IH Hk). lia.
Qed.

Lemma next_id_fresh {A} (table : gmap Z A) : table !! next_id table = None.
Proof.
  destruct (table !! next_id table) eqn:E; [|done].
  assert (next_id table < next_id table) by (apply next_id_above; eauto).
  lia.
Qed.

(** ** The worker, suite by suite *)

Section WorkerFacts.
Variable g : Grader.

Lemma try_suite_found id p code w row :
  submissions (db w) !! id = Some row ->
  try_suite g (id, p, code) w = grade g id row p code w.
Proof. intros H. unfold try_suite, mbind, M_bind, get_submission. by rewrite H. Qed.

Lemma try_suite_missing id p code w :
  submissions (db w) !! id = None ->
  try_suite g (id, p, code) w = task_done w.
Proof. intros H. unfold try_suite, mbind, M_bind, get_submission. by rewrite H. Qed.

(** What a successful run of lines 72 to 99 has done. *)
Lemma grade_ok id row p code w w' :
  grade g id row p code w = (inr (), w') ->
  exists prompt response response_text res_json score feedback sc fc,
    build_prompt p code = inr prompt
    /\ g prompt = inr response
    /\ text response = inr response_text
    /\ parse_response response_text = inr res_json
    /\ py_get (first_of_list res_json) KEY_SCORE (JInt 0) = inr score
    /\ py_get (first_of_list res_json) KEY_FEEDBACK (JStr FEEDBACK_DEFAULT) = inr feedback
    /\ bind_int score = inr sc
    /\ bind_str feedback = inr fc
    /\ w' = set_db (set_submissions <[id := graded row sc fc]>)
                   (emit (EvGenerate prompt) w).
Proof.
  unfold grade, mbind, M_bind, lift, commit_submission.
  destruct (build_prompt p code) as [e|prompt] eqn:E1; [discriminate|].
  destruct (g prompt) as [e|response] eqn:E2; [discriminate|].
  destruct (text response) as [e|rt] eqn:E3; [discriminate|].
  destruct (parse_response rt) as [e|j] eqn:E4; [discriminate|].
  destruct (py_get (first_of_list j) KEY_SCORE (JInt 0)) as [e|sc] eqn:E5; [discriminate|].
  destruct (py_get (first_of_list j) KEY_FEEDBACK _) as [e|fb] eqn:E6; [discriminate|].
  destruct (bind_int sc) as [e|scc] eqn:E7; [discriminate|].
  destruct (bind_str fb) as [e|fbc] eqn:E8; [discriminate|].
  intros [= <-]. by eexists prompt, response, rt, j, sc, fb, scc, fbc.
Qed.

(** A failed run of lines 72 to 99 has written nothing. *)
Lemma grade_raises id row p code w e w' :
  grade g id row p code w = (inl e, w') ->
  db w' = db w /\ queue w' = queue w
  /\ unfinished_tasks w' = unfinished_tasks w
  /\ (events w' = events w
      \/ exists prompt, events w' = events w ++ [EvGenerate prompt]).
Proof.
  unfold grade, mbind, M_bind, lift, commit_submission.
  destruct (build_prompt p code) as [e1|prompt] eqn:E1.
  { intros [= _ <-]. auto. }
  destruct (g prompt) as [e2|response] eqn:E2.
  { intros [= _ <-]. simpl. eauto 6. }
  destruct (text response) as [?|rt]; [intros [= _ <-]; simpl; eauto 6|].
  destruct (parse_response rt) as [?|j]; [intros [= _ <-]; simpl; eauto 6|].
  destruct (py_get (first_of_list j) KEY_SCORE (JInt 0)) as [?|sc];
    [intros [= _ <-]; simpl; eauto 6|].
  destruct (py_get (first_of_list j) KEY_FEEDBACK _) as [?|fb];
    [intros [= _ <-]; simpl; eauto 6|].
  destruct (bind_int sc) as [?|scc]; [intros [= _ <-]; simpl; eauto 6|].
  destruct (bind_str fb) as [?|fbc]; [intros [= _ <-]; simpl; eauto 6|].
  discriminate.
Qed.
End WorkerFacts.

(** ** C1: a failed grading ends as completed with score 0 *)

Lemma process_job_db g job w r w' :
  process_job g job w = (r, w') ->
  db w' = db (snd (try_except (try_suite g job) (except_suite job) w)).
Proof.
  unfold process_job, try_finally, finally_suite, mbind, M_bind, task_done, sleep.
  destruct (try_except _ _ w) as [r0 w0]. simpl.
  destruct (unfinished_tasks w0 <=? 0); intros [= _ <-]; reflexivity.
Qed.

(** The causes of failure the specification names do make the [try] suite
    raise. *)
Lemma grade_raises_on_grader_error g id row p code w prompt e :
  build_prompt p code = inr prompt -> g prompt = inl e ->
  fst (grade g id row p code w) = inl e.
Proof.
  intros Hp Hg. unfold grade, mbind, M_bind, lift. rewrite Hp. simpl. by rewrite Hg.
Qed.

Lemma grade_raises_on_unreadable_response g id row p code w prompt response e :
  build_prompt p code = inr prompt -> g prompt = inr response ->
  text response = inl e ->
  fst (grade g id row p code w) = inl e.
Proof.
  intros Hp Hg Ht. unfold grade, mbind, M_bind, lift.
  rewrite Hp. simpl. rewrite Hg. simpl. by rewrite Ht.
Qed.

Lemma grade_raises_on_parse_error g id row p code w prompt response response_text e :
  build_prompt p code = inr prompt -> g prompt = inr response ->
  text response = inr response_text -> parse_response response_text = inl e ->
  fst (grade g id row p code w) = inl e.
Proof.
  intros Hp Hg Ht He. unfold grade, mbind, M_bind, lift.
  rewrite Hp. simpl. rewrite Hg. simpl. rewrite Ht. simpl. by rewrite He.
Qed.

Lemma grade_raises_on_missing_problem_field g id row p code w :
  Problem.title p = None \/ Problem.description p = None \/ Problem.ai_prompt p = None ->
  fst (grade g id row p code w) = inl KeyError.
Proof.
  intros H. unfold grade, mbind, M_bind, lift, build_prompt, subscript.
  destruct (Problem.title p), (Problem.description p), (Problem.ai_prompt p);
    try reflexivity.
  destruct H as [H|[H|H]]; discriminate.
Qed.

(** The [except] suite after a failed [try] suite, for a row that exists. *)
Lemma try_except_on_failure g id p code w row e w0 :
  submissions (db w) !! id = Some row ->
  grade g id row p code w = (inl e, w0) ->
  try_except (try_suite g (id, p, code)) (except_suite (id, p, code)) w
  = (inr (), set_db (set_submissions
                       <[id := graded row (Some 0) (Some FEEDBACK_FAILED)]>) w0)
  /\ db w0 = db w /\ unfinished_tasks w0 = unfinished_tasks w.
Proof.
  intros Hrow Hg.
  destruct (grade_raises g id row p code w e w0 Hg) as (Hdb & Hq & Hu & Hev).
  split; [|by split].
  unfold try_except. rewrite (try_suite_found g id p code w row Hrow), Hg.
  unfold except_suite, mbind, M_bind, get_submission, commit_submission.
  rewrite Hdb, Hrow. reflexivity.
Qed.

(** C1, as stated, fails for "missing fields". The grader answers with an
    object that has a score and no feedback: the response is parsed, the
    key "feedback" is absent, and nothing raises. The row is completed
    with the score given and the default feedback, not with score 0 and
    the failure message. *)
Lemma C1_missing_field_is_not_a_failure :
  parse_response (jlit "{'score':50}") = inr (JObj [(KEY_SCORE, JInt 50)])
  /\ dict_get [(KEY_SCORE, JInt 50)] KEY_FEEDBACK = None
  /\ fst (try_suite (answers (jlit "{'score':50}")) (1, sample_problem, lit "print(1)")
                    world_submitted) = inr ()
  /\ submissions
       (db (snd (process_job (answers (jlit "{'score':50}"))
                             (1, sample_problem, lit "print(1)") world_submitted))) !! 1
     = Some (graded sample_row (Some 50) (Some FEEDBACK_DEFAULT))
  /\ graded sample_row (Some 50) (Some FEEDBACK_DEFAULT)
     <> graded sample_row (Some 0) (Some FEEDBACK_FAILED).
Proof.
  split; [vm_compute; reflexivity|]. split; [vm_compute; reflexivity|].
  split; [vm_compute; reflexivity|]. split; [vm_compute; reflexivity|].
  discriminate.
Qed.

(** C1, amended. For every job whose submission row exists:
    - if the [try] suite of the worker raises, whatever the exception,
      the [except] suite catches it: no exception leaves the try/except
      statement, and the row is stored with status "completed", score 0
      and the fixed failure message; the turn as a whole leaves exactly
      that row in the database, and when the queue's task count is
      positive the worker goes on to its next turn;
    - the [try] suite raises in every case but one: the prompt was built,
      the grader answered, the text of its response was read and parsed,
      the parsed value (its first element, for a list) took [get] for both
      keys, and the two values fitted their columns;
    - a key that is absent from the response object is not a failure: it
      stands for its default, 0 for "score" and the default feedback for
      "feedback", and the row is completed with these values. *)
Theorem C1_failure_is_completed_with_zero
    (g : Grader) (id : Z) (p : Problem.t) (code : str) (w : World)
    (row : Submission.t) :
  submissions (db w) !! id = Some row ->
  let failed := graded row (Some 0) (Some FEEDBACK_FAILED) in
  (forall e,
      fst (try_suite g (id, p, code) w) = inl e ->
      (exists w1,
          try_except (try_suite g (id, p, code)) (except_suite (id, p, code)) w
          = (inr (), w1)
          /\ db w1 = set_submissions <[id := failed]> (db w))
      /\ submissions (db (snd (process_job g (id, p, code) w))) !! id = Some failed
      /\ Submission.status failed = STATUS_COMPLETED
      /\ Submission.score failed = Some 0
      /\ Submission.ai_feedback failed = Some FEEDBACK_FAILED
      /\ (0 < unfinished_tasks w ->
          exists w2, process_job g (id, p, code) w = (inr (), w2)
                     /\ db w2 = set_submissions <[id := failed]> (db w)))
  /\ (fst (try_suite g (id, p, code) w) = inr ()
      <-> exists prompt response response_text res_json score feedback sc fc,
            build_prompt p code = inr prompt
            /\ g prompt = inr response
            /\ text response = inr response_text
            /\ parse_response response_text = inr res_json
            /\ py_get (first_of_list res_json) KEY_SCORE (JInt 0) = inr score
            /\ py_get (first_of_list res_json) KEY_FEEDBACK (JStr FEEDBACK_DEFAULT)
               = inr feedback
            /\ bind_int score = inr sc
            /\ bind_str feedback = inr fc)
  /\ (forall prompt response response_text d sc fc,
         build_prompt p code = inr prompt ->
         g prompt = inr response ->
         text response = inr response_text ->
         parse_response response_text = inr (JObj d) ->
         bind_int (default (JInt 0) (dict_get d KEY_SCORE)) = inr sc ->
         bind_str (default (JStr FEEDBACK_DEFAULT) (dict_get d KEY_FEEDBACK)) = inr fc ->
         try_except (try_suite g (id, p, code)) (except_suite (id, p, code)) w
         = (inr (), set_db (set_submissions <[id := graded row sc fc]>)
                           (emit (EvGenerate prompt) w))).
Proof.
  intros Hrow failed. split; [|split].
  - intros e Hfail.
    rewrite (try_suite_found g id p code w row Hrow) in Hfail.
    destruct (grade g id row p code w) as [r w0] eqn:Hg. simpl in Hfail. subst r.
    destruct (try_except_on_failure g id p code w row e w0 Hrow Hg) as (Htry & Hdb & Hu).
    fold failed in Htry.
    assert (Hdb1 : db (set_db (set_submissions <[id := failed]>) w0)
                   = set_submissions <[id := failed]> (db w)).
    { simpl. by rewrite Hdb. }
    split; [eauto|].
    split.
    { destruct (process_job g (id, p, code) w) as [r w3] eqn:Hp.
      simpl. rewrite (process_job_db _ _ _ _ _ Hp), Htry. simpl.
      rewrite Hdb. simpl. apply lookup_insert_eq. }
    do 3 (split; [reflexivity|]).
    intros Hpos.
    unfold process_job, try_finally. rewrite Htry.
    unfold finally_suite, mbind, M_bind, task_done, sleep. simpl.
    rewrite Hu. destruct (unfinished_tasks w <=? 0) eqn:Hle; [lia|].
    eexists. split; [reflexivity|]. simpl. by rewrite Hdb.
  - rewrite (try_suite_found g id p code w row Hrow). split.
    + intros Hok. destruct (grade g id row p code w) as [[e|[]] w0] eqn:Hg;
        [discriminate|].
      destruct (grade_ok g id row p code w w0 Hg)
        as (prompt & response & rt & j & sc & fb & scc & fbc
            & E1 & E2 & E3 & E4 & E5 & E6 & E7 & E8 & _).
      by exists prompt, response, rt, j, sc, fb, scc, fbc.
    + intros (prompt & response & rt & j & sc & fb & scc & fbc
              & E1 & E2 & E3 & E4 & E5 & E6 & E7 & E8).
      unfold grade, mbind, M_bind, lift.
      rewrite E1. simpl. rewrite E2. simpl. rewrite E3. simpl. rewrite E4. simpl.
      rewrite E5. simpl. rewrite E6. simpl. rewrite E7. simpl. rewrite E8. reflexivity.
  - intros prompt response rt d sc fc E1 E2 E3 E4 E7 E8.
    unfold try_except. rewrite (try_suite_found g id p code w row Hrow).
    unfold grade, mbind, M_bind, lift.
    rewrite E1. simpl. rewrite E2. simpl. rewrite E3. simpl. rewrite E4. simpl.
    destruct (dict_get d KEY_SCORE) as [score|];
      destruct (dict_get d KEY_FEEDBACK) as [feedback|];
      simpl in E7, E8 |- *;
      try (injection E7 as <-); try (injection E8 as <-);
      try rewrite E7; simpl; try rewrite E8; reflexivity.
Qed.

Lemma C1_failure_witness :
  submissions (db world_submitted) !! 1 = Some sample_row
  /\ fst (try_suite (answers (lit "[")) (1, sample_problem, lit "print(1)")
                    world_submitted) = inl JSONDecodeError
  /\ submissions
       (db (snd (process_job (answers (lit "[")) (1, sample_problem, lit "print(1)")
                             world_submitted))) !! 1
     = Some (graded sample_row (Some 0) (Some FEEDBACK_FAILED)).
Proof.
  assert (H1 : submissions (db world_submitted) !! 1 = Some sample_row)
    by (vm_compute; reflexivity).
  assert (H2 : fst (try_suite (answers (lit "[")) (1, sample_problem, lit "print(1)")
                              world_submitted) = inl JSONDecodeError)
    by (vm_compute; reflexivity).
  split; [exact H1|]. split; [exact H2|].
  exact (proj1 (proj2 (proj1 (C1_failure_is_completed_with_zero
                                (answers (lit "[")) 1 sample_problem (lit "print(1)")
                                world_submitted sample_row H1)
                             JSONDecodeError H2))).
Defined.

(** The two scenarios of the specification: the grader answers with a score
    of 85, and the grader cannot be reached; the client then polls. *)
Example scenario_graded :
  fst (check_submission 1
         (world (run sample_raw
                     [Handle (ReqSubmit 1000 sample_request);
                      WorkerTurn (answers (jlit "{'score':85,'feedback':'Nice job'}"))]
                     initial_system)))
  = inr (graded sample_row (Some 85) (Some (lit "Nice job"))).
Proof. vm_compute. reflexivity. Qed.

Example scenario_network_error :
  fst (check_submission 1
         (world (run sample_raw
                     [Handle (ReqSubmit 1000 sample_request); WorkerTurn network_error]
                     initial_system)))
  = inr (graded sample_row (Some 0) (Some FEEDBACK_FAILED)).
Proof. vm_compute. reflexivity. Qed.

(** ** C2: the stored score *)

(** C2, as stated, fails: the grader answers with a score of 150, the worker
    accepts the response, and the completed row holds 150. *)
Lemma C2_score_above_100_is_stored :
  ~ (forall row,
        submissions
          (db (world_of
                 (worker_iteration (answers (jlit "{'score':150,'feedback':'x'}"))
                                   world_submitted))) !! 1 = Some row ->
        Submission.status row = STATUS_COMPLETED ->
        exists n, Submission.score row = Some n /\ 0 <= n <= 100).
Proof.
  intros H.
  destruct (H (graded sample_row (Some 150) (Some (lit "x")))) as (n & Hn & Hr).
  - vm_compute. reflexivity.
  - reflexivity.
  - simpl in Hn. injection Hn as <-. lia.
Qed.

(** C2, amended. For every job whose submission row exists, the turn leaves
    the row with status "completed", and its score is
    - 0 when the [try] suite raised (the failure path);
    - otherwise the value found under "score" in the grader's parsed
      response (0 when the key is absent), as the integer column takes it:
      an integer n is stored as n, with no check of its range. *)
Theorem C2_score_is_zero_or_the_graders
    (g : Grader) (id : Z) (p : Problem.t) (code : str) (w : World)
    (row : Submission.t) :
  submissions (db w) !! id = Some row ->
  exists row',
    submissions (db (snd (process_job g (id, p, code) w))) !! id = Some row'
    /\ Submission.status row' = STATUS_COMPLETED
    /\ (((exists e, fst (try_suite g (id, p, code) w) = inl e)
         /\ Submission.score row' = Some 0)
        \/ (exists prompt response response_text res_json v,
               build_prompt p code = inr prompt
               /\ g prompt = inr response
               /\ text response = inr response_text
               /\ parse_response response_text = inr res_json
               /\ py_get (first_of_list res_json) KEY_SCORE (JInt 0) = inr v
               /\ bind_int v = inr (Submission.score row')
               /\ forall n, v = JInt n -> Submission.score row' = Some n)).
Proof.
  intros Hrow.
  destruct (try_suite g (id, p, code) w) as [[e|[]] w0] eqn:Htry.
  - pose proof Htry as Hg. rewrite (try_suite_found g id p code w row Hrow) in Hg.
    destruct (try_except_on_failure g id p code w row e w0 Hrow Hg) as (Hte & Hdb & _).
    exists (graded row (Some 0) (Some FEEDBACK_FAILED)). split.
    + destruct (process_job g (id, p, code) w) as [r w3] eqn:Hp. simpl.
      rewrite (process_job_db _ _ _ _ _ Hp), Hte. simpl. apply lookup_insert_eq.
    + split; [reflexivity|]. left. split; [|reflexivity].
      exists e. reflexivity.
  - pose proof Htry as Hg. rewrite (try_suite_found g id p code w row Hrow) in Hg.
    destruct (grade_ok g id row p code w w0 Hg)
      as (prompt & response & rt & j & sc & fb & scc & fbc
          & E1 & E2 & E3 & E4 & E5 & E6 & E7 & E8 & ->).
    exists (graded row scc fbc). split.
    + destruct (process_job g (id, p, code) w) as [r w3] eqn:Hp. simpl.
      rewrite (process_job_db _ _ _ _ _ Hp). unfold try_except. rewrite Htry.
      simpl. apply lookup_insert_eq.
    + split; [reflexivity|]. right.
      exists prompt, response, rt, j, sc. do 5 (split; [assumption|]).
      split; [exact E7|]. intros n Hn. subst sc. simpl in E7.
      injection E7 as <-. reflexivity.
Qed.

Lemma C2_score_witness :
  submissions (db (set_queue [] world_submitted)) !! 1 = Some sample_row
  /\ exists row',
      submissions
        (db (snd (process_job (answers (jlit "{'score':85,'feedback':'Nice job'}"))
                              (1, sample_problem, lit "print(1)")
                              (set_queue [] world_submitted)))) !! 1 = Some row'
      /\ Submission.status row' = STATUS_COMPLETED.
Proof.
  assert (H : submissions (db (set_queue [] world_submitted)) !! 1 = Some sample_row)
    by (vm_compute; reflexivity).
  split; [exact H|].
  destruct (C2_score_is_zero_or_the_graders
              (answers (jlit "{'score':85,'feedback':'Nice job'}"))
              1 sample_problem (lit "print(1)") _ sample_row H)
    as (row' & H1 & H2 & _).
  exists row'. split; assumption.
Defined.

(** ** C3: a job whose row is gone *)

(** C3, on the code. The row of the only queued job has been deleted. The
    [try] suite calls [task_done()] and leaves by [continue]; the [finally]
    suite calls [task_done()] a second time, which raises [ValueError]:
    the exception leaves the coroutine before the sleep, the database is
    untouched, and a submission accepted afterwards stays in "grading"
    however many turns the worker is offered. *)
Theorem C3_missing_row_ends_the_worker (g g' : Grader) :
  (exists w',
      worker_iteration g world_row_deleted = Died ValueError w'
      /\ db w' = db world_row_deleted
      /\ events w' = [EvGet 1])
  /\ let s := run sample_raw
                [WorkerTurn g; Handle (ReqSubmit 2000 sample_request);
                 WorkerTurn g'; WorkerTurn g']
                {| world := world_row_deleted; worker_alive := true |} in
     worker_alive s = false
     /\ (exists row, submissions (db (world s)) !! 1 = Some row
                     /\ Submission.status row = STATUS_GRADING)
     /\ queue (world s) <> [].
Proof.
  split.
  - eexists. split; [reflexivity|]. split; reflexivity.
  - vm_compute. split; [reflexivity|]. split; [|discriminate].
    eexists. split; reflexivity.
Qed.

(** ** C6: a response that is a list *)

Lemma grade_of_parsed g id row p code w prompt response response_text res_json :
  build_prompt p code = inr prompt -> g prompt = inr response ->
  text response = inr response_text ->
  parse_response response_text = inr res_json ->
  grade g id row p code w =
  (score ← lift (py_get (first_of_list res_json) KEY_SCORE (JInt 0));
   feedback ← lift (py_get (first_of_list res_json) KEY_FEEDBACK (JStr FEEDBACK_DEFAULT));
   score_column ← lift (bind_int score);
   feedback_column ← lift (bind_str feedback);
   commit_submission id (graded row score_column feedback_column))
    (emit (EvGenerate prompt) w).
Proof.
  intros Hp Hg Ht Hj. unfold grade, mbind at 1 2 3 4, M_bind at 1 2 3 4, lift at 1 3 4.
  rewrite Hp. simpl. rewrite Hg. simpl. rewrite Ht. simpl. rewrite Hj. reflexivity.
Qed.

(** C6. A parsed response that is a list stands for its first element, an
    empty list for the empty object. Hence a response text that parses to a
    list headed by an object [d] leaves the worker's world exactly as a
    response text that parses to [d] does; and a response text that parses
    to the empty list makes the [try] suite succeed and store score 0 with
    the default feedback. *)
Theorem C6_list_response_is_its_first_element :
  (forall x l, first_of_list (JArr (x :: l)) = x)
  /\ first_of_list (JArr []) = JObj []
  /\ (forall t1 t2 d l job w,
         parse_response t1 = inr (JArr (JObj d :: l)) ->
         parse_response t2 = inr (JObj d) ->
         process_job (answers t1) job w = process_job (answers t2) job w)
  /\ (forall t id p code w row prompt,
         parse_response t = inr (JArr []) ->
         submissions (db w) !! id = Some row ->
         build_prompt p code = inr prompt ->
         try_suite (answers t) (id, p, code) w
         = (inr (), set_db (set_submissions
                              <[id := graded row (Some 0) (Some FEEDBACK_DEFAULT)]>)
                           (emit (EvGenerate prompt) w))).
Proof.
  split; [reflexivity|]. split; [reflexivity|]. split.
  - intros t1 t2 d l [[id p] code] w H1 H2.
    unfold process_job, try_finally, try_except.
    enough (try_suite (answers t1) (id, p, code) w = try_suite (answers t2) (id, p, code) w)
      as -> by reflexivity.
    destruct (submissions (db w) !! id) as [row|] eqn:Hrow.
    + rewrite !(try_suite_found _ id p code w row Hrow).
      destruct (build_prompt p code) as [e|prompt] eqn:Hp.
      * unfold grade, mbind, M_bind, lift. rewrite Hp. reflexivity.
      * rewrite (grade_of_parsed (answers t1) id row p code w prompt _ t1 _ Hp eq_refl eq_refl H1).
        rewrite (grade_of_parsed (answers t2) id row p code w prompt _ t2 _ Hp eq_refl eq_refl H2).
        reflexivity.
    + by rewrite !(try_suite_missing _ id p code w Hrow).
  - intros t id p code w row prompt Ht Hrow Hp.
    rewrite (try_suite_found _ id p code w row Hrow).
    rewrite (grade_of_parsed (answers t) id row p code w prompt _ t _ Hp eq_refl eq_refl Ht).
    reflexivity.
Qed.

Lemma C6_list_response_witness :
  process_job (answers (jlit "[{'score':90,'feedback':'good'}]"))
              (1, sample_problem, lit "print(1)") world_submitted
  = process_job (answers (jlit "{'score':90,'feedback':'good'}"))
                (1, sample_problem, lit "print(1)") world_submitted
  /\ submissions
       (db (snd (process_job (answers (jlit "[{'score':90,'feedback':'good'}]"))
                             (1, sample_problem, lit "print(1)") world_submitted))) !! 1
     = Some (graded sample_row (Some 90) (Some (lit "good")))
  /\ submissions
       (db (snd (try_suite (answers (lit "[]"))
                           (1, sample_problem, lit "print(1)") world_submitted))) !! 1
     = Some (graded sample_row (Some 0) (Some FEEDBACK_DEFAULT)).
Proof.
  destruct C6_list_response_is_its_first_element as (_ & _ & Hsame & Hempty).
  split.
  - apply (Hsame _ _ [(KEY_SCORE, JInt 90); (KEY_FEEDBACK, JStr (lit "good"))] []);
      vm_compute; reflexivity.
  - split; [vm_compute; reflexivity|].
    destruct (build_prompt sample_problem (lit "print(1)")) as [e|prompt] eqn:Hp;
      [vm_compute in Hp; discriminate|].
    rewrite (Hempty (lit "[]") 1 sample_problem (lit "print(1)") world_submitted
                    sample_row prompt);
      [apply lookup_insert_eq | vm_compute; reflexivity
       | vm_compute; reflexivity | exact Hp].
Defined.

(** ** C10: a submission for an unknown problem *)

(** C10. When the problem id of a submit request is not a key of the
    problem catalog, the handler raises HTTP 404 and the world is what it
    was: no row is created, no job is queued. *)
Theorem C10_unknown_problem_is_404
    (raw_data : RawData) (now : Z) (req : SubmitRequest) (w : World) :
  PROBLEMS_DICT raw_data !! submit_problem_id req = None ->
  submit raw_data now req w = (inl (HTTPException 404), w).
Proof. intros H. unfold submit. rewrite H. reflexivity. Qed.

Lemma C10_unknown_problem_witness :
  PROBLEMS_DICT sample_raw !! 2 = None
  /\ submit sample_raw 1000
            {| submit_student_id := 7; submit_problem_id := 2;
               submit_code_answer := lit "print(1)" |} world_submitted
     = (inl (HTTPException 404), world_submitted).
Proof.
  split; [vm_compute; reflexivity|].
  apply (C10_unknown_problem_is_404 sample_raw 1000
           {| submit_student_id := 7; submit_problem_id := 2;
              submit_code_answer := lit "print(1)" |} world_submitted).
  vm_compute. reflexivity.
Defined.

(** ** C4: the sleep between turns *)

Lemma try_except_events g job w :
  let w1 := snd (try_except (try_suite g job) (except_suite job) w) in
  fst (try_except (try_suite g job) (except_suite job) w) = inr ()
  /\ queue w1 = queue w
  /\ (events w1 = events w \/ exists prompt, events w1 = events w ++ [EvGenerate prompt]).
Proof.
  destruct job as [[id p] code]. unfold try_except.
  destruct (submissions (db w) !! id) as [row|] eqn:Hrow.
  - rewrite (try_suite_found g id p code w row Hrow).
    destruct (grade g id row p code w) as [[e|[]] w0] eqn:Hg.
    + destruct (grade_raises g id row p code w e w0 Hg) as (Hdb & Hq & Hu & Hev).
      unfold except_suite, mbind, M_bind, get_submission, commit_submission.
      rewrite Hdb, Hrow. simpl. auto.
    + destruct (grade_ok g id row p code w w0 Hg)
        as (prompt & ? & ? & ? & ? & ? & ? & ? & _ & _ & _ & _ & _ & _ & _ & _ & ->).
      simpl. eauto.
  - rewrite (try_suite_missing g id p code w Hrow). unfold task_done.
    destruct (unfinished_tasks w <=? 0); simpl; [|auto].
    unfold except_suite, mbind, M_bind, get_submission. rewrite Hrow. simpl. auto.
Qed.

Lemma process_job_events g job w :
  exists mid,
    (mid = [] \/ exists prompt, mid = [EvGenerate prompt])
    /\ queue (snd (process_job g job w)) = queue w
    /\ match fst (process_job g job w) with
       | inr _ => events (snd (process_job g job w))
                  = events w ++ mid ++ [EvSleep SLEEP_INTERVAL_MS]
       | inl _ => events (snd (process_job g job w)) = events w ++ mid
       end.
Proof.
  destruct (try_except_events g job w) as (Hr & Hq & Hev).
  unfold process_job, try_finally.
  destruct (try_except (try_suite g job) (except_suite job) w) as [r w1].
  simpl in Hr, Hq, Hev. subst r.
  assert (exists mid, (mid = [] \/ exists prompt, mid = [EvGenerate prompt])
                      /\ events w1 = events w ++ mid) as (mid & Hmid & Hw1).
  { destruct Hev as [->|[prompt ->]].
    - exists []. split; [auto|]. by rewrite app_nil_r.
    - exists [EvGenerate prompt]. eauto. }
  exists mid. split; [exact Hmid|].
  unfold finally_suite, mbind, M_bind, task_done, sleep.
  destruct (unfinished_tasks w1 <=? 0); simpl.
  - split; assumption.
  - split; [assumption|]. rewrite Hw1, <- app_assoc. reflexivity.
Qed.

Lemma worker_iteration_events g w :
  match worker_iteration g w with
  | Blocked w' => w' = w
  | Next w' =>
      exists id mid, (mid = [] \/ exists prompt, mid = [EvGenerate prompt])
                     /\ events w' = events w ++ EvGet id :: mid ++ [EvSleep SLEEP_INTERVAL_MS]
  | Died _ w' =>
      exists id mid, (mid = [] \/ exists prompt, mid = [EvGenerate prompt])
                     /\ events w' = events w ++ EvGet id :: mid
  end.
Proof.
  unfold worker_iteration. destruct (queue w) as [|job rest]; [reflexivity|].
  destruct (process_job_events g job (emit (EvGet job.1.1) (set_queue rest w)))
    as (mid & Hmid & _ & Hev).
  destruct (process_job g job _) as [[e|[]] w']; simpl in Hev;
    exists job.1.1, mid; (split; [exact Hmid|]);
    rewrite Hev, <- app_assoc; reflexivity.
Qed.

Lemma process_submission_queue_paced graders w :
  exists new,
    events (world_of (process_submission_queue graders w)) = events w ++ new
    /\ paced false false new = true.
Proof.
  revert w. induction graders as [|g gs IH]; intros w; simpl.
  { exists []. by rewrite app_nil_r. }
  pose proof (worker_iteration_events g w) as H.
  destruct (worker_iteration g w) as [w'|w'|e w'].
  - subst w'. exists []. by rewrite app_nil_r.
  - destruct H as (id & mid & Hmid & Hev).
    destruct (IH w') as (new & Hnew & Hp).
    exists (EvGet id :: mid ++ [EvSleep SLEEP_INTERVAL_MS] ++ new). split.
    + rewrite Hnew, Hev, <- app_assoc. f_equal. simpl. f_equal.
      by rewrite <- app_assoc.
    + destruct Hmid as [->|[prompt ->]]; simpl; exact Hp.
  - destruct H as (id & mid & Hmid & Hev).
    exists (EvGet id :: mid). split; [exact Hev|].
    destruct Hmid as [->|[prompt ->]]; reflexivity.
Qed.

Lemma paced_after_get called l2 id l3 :
  paced true called (l2 ++ EvGet id :: l3) = true ->
  EvSleep SLEEP_INTERVAL_MS ∈ l2.
Proof.
  revert called. induction l2 as [|[i|prompt|ms] l2 IH]; intros called; simpl.
  - discriminate.
  - discriminate.
  - intros [_ H]%andb_prop. apply list_elem_of_further. eauto.
  - destruct (ms =? SLEEP_INTERVAL_MS) eqn:E.
    + intros _. apply Z.eqb_eq in E. subst ms. apply list_elem_of_here.
    + intros H. apply list_elem_of_further. eauto.
Qed.

Lemma paced_after_call got l2 prompt l3 :
  paced got true (l2 ++ EvGenerate prompt :: l3) = true ->
  EvSleep SLEEP_INTERVAL_MS ∈ l2.
Proof.
  revert got. induction l2 as [|[i|p|ms] l2 IH]; intros got; simpl.
  - discriminate.
  - intros [_ H]%andb_prop. apply list_elem_of_further. eauto.
  - discriminate.
  - destruct (ms =? SLEEP_INTERVAL_MS) eqn:E.
    + intros _. apply Z.eqb_eq in E. subst ms. apply list_elem_of_here.
    + intros H. apply list_elem_of_further. eauto.
Qed.

Lemma paced_suffix got called l1 l :
  paced got called (l1 ++ l) = true -> exists got' called', paced got' called' l = true.
Proof.
  revert got called. induction l1 as [|[i|p|ms] l1 IH]; intros got called; simpl.
  - eauto.
  - intros [_ H]%andb_prop. eauto.
  - intros [_ H]%andb_prop. eauto.
  - destruct (ms =? SLEEP_INTERVAL_MS); eauto.
Qed.

(** The grader is called when, and only when, the prompt can be built. *)
Lemma grade_events g id row p code w :
  events (snd (grade g id row p code w))
  = events w ++ match build_prompt p code with
                | inr prompt => [EvGenerate prompt]
                | inl _ => []
                end.
Proof.
  unfold grade, mbind, M_bind, lift, commit_submission.
  destruct (build_prompt p code) as [e1|prompt]; [by rewrite app_nil_r|].
  destruct (g prompt) as [e2|response]; [reflexivity|].
  destruct (text response) as [?|rt]; [reflexivity|].
  destruct (parse_response rt) as [?|j]; [reflexivity|].
  destruct (py_get (first_of_list j) KEY_SCORE (JInt 0)) as [?|sc]; [reflexivity|].
  destruct (py_get (first_of_list j) KEY_FEEDBACK _) as [?|fb]; [reflexivity|].
  destruct (bind_int sc) as [?|scc]; [reflexivity|].
  destruct (bind_str fb) as [?|fbc]; reflexivity.
Qed.

(** The try/except statement for a row that exists: it ends normally, the
    row is rewritten as a graded copy, queue and task count are as before. *)
Lemma try_except_found g id p code w row :
  submissions (db w) !! id = Some row ->
  exists sc fc w1,
    try_except (try_suite g (id, p, code)) (except_suite (id, p, code)) w = (inr (), w1)
    /\ db w1 = set_submissions <[id := graded row sc fc]> (db w)
    /\ queue w1 = queue w
    /\ unfinished_tasks w1 = unfinished_tasks w
    /\ events w1 = events (snd (grade g id row p code w)).
Proof.
  intros Hrow.
  destruct (grade g id row p code w) as [[e|[]] w0] eqn:Hg.
  - destruct (try_except_on_failure g id p code w row e w0 Hrow Hg) as (-> & Hdb & Hu).
    destruct (grade_raises g id row p code w e w0 Hg) as (_ & Hq & _).
    eexists _, _, _. split; [reflexivity|]. simpl. rewrite Hdb. by repeat split.
  - unfold try_except. rewrite (try_suite_found g id p code w row Hrow), Hg.
    destruct (grade_ok g id row p code w w0 Hg)
      as (prompt & ? & ? & ? & ? & ? & sc & fc & _ & _ & _ & _ & _ & _ & _ & _ & ->).
    eexists sc, fc, _. split; [reflexivity|]. by repeat split.
Qed.

Lemma finally_suite_ok w :
  0 < unfinished_tasks w ->
  finally_suite w
  = (inr (), emit (EvSleep SLEEP_INTERVAL_MS)
               (set_unfinished_tasks (unfinished_tasks w - 1) w)).
Proof.
  intros H. unfold finally_suite, mbind, M_bind, task_done, sleep.
  destruct (unfinished_tasks w <=? 0) eqn:E; [apply Z.leb_le in E; lia|reflexivity].
Qed.

(** One turn of the worker on a job whose row exists, the task count being
    positive. *)
Lemma worker_iteration_found g w id p code rest row :
  queue w = (id, p, code) :: rest ->
  submissions (db w) !! id = Some row ->
  0 < unfinished_tasks w ->
  exists sc fc w',
    worker_iteration g w = Next w'
    /\ db w' = set_submissions <[id := graded row sc fc]> (db w)
    /\ queue w' = rest
    /\ unfinished_tasks w' = unfinished_tasks w - 1
    /\ events w'
       = events w ++ EvGet id
           :: match build_prompt p code with
              | inr prompt => [EvGenerate prompt]
              | inl _ => []
              end ++ [EvSleep SLEEP_INTERVAL_MS].
Proof.
  intros Hq Hrow Hpos. unfold worker_iteration. rewrite Hq.
  change ((id, p, code).1.1) with id.
  set (w0 := emit (EvGet id) (set_queue rest w)).
  destruct (try_except_found g id p code w0 row Hrow) as (sc & fc & w1 & Ht & Hdb & Hq1 & Hu & Hev).
  change (unfinished_tasks w0) with (unfinished_tasks w) in Hu.
  unfold process_job, try_finally. rewrite Ht.
  rewrite (finally_suite_ok w1) by lia.
  eexists sc, fc, _. split; [reflexivity|]. simpl.
  split; [exact Hdb|]. split; [exact Hq1|]. split; [by rewrite Hu|].
  rewrite Hev, grade_events. simpl. by rewrite <- !app_assoc.
Qed.

(** One turn of the worker on a job whose row is missing: [task_done()] is
    called in the [try] suite and again in the [finally] suite.  The second
    call raises when the first has brought the count to zero, or when the
    first has itself raised and was caught. *)
Lemma worker_iteration_skipped g w id p code rest :
  queue w = (id, p, code) :: rest ->
  submissions (db w) !! id = None ->
  (1 < unfinished_tasks w ->
   worker_iteration g w
   = Next (emit (EvSleep SLEEP_INTERVAL_MS)
             (set_unfinished_tasks (unfinished_tasks w - 1 - 1)
                (emit (EvGet id) (set_queue rest w)))))
  /\ (unfinished_tasks w <= 1 ->
      exists w', worker_iteration g w = Died ValueError w'
                 /\ db w' = db w
                 /\ queue w' = rest
                 /\ events w' = events w ++ [EvGet id]).
Proof.
  intros Hq Hrow. unfold worker_iteration. rewrite Hq.
  change ((id, p, code).1.1) with id.
  set (w0 := emit (EvGet id) (set_queue rest w)).
  assert (Hrow0 : submissions (db w0) !! id = None) by exact Hrow.
  assert (Htry : try_except (try_suite g (id, p, code)) (except_suite (id, p, code)) w0
                 = (inr (), if unfinished_tasks w <=? 0 then w0
                            else set_unfinished_tasks (unfinished_tasks w - 1) w0)).
  { unfold try_except. rewrite (try_suite_missing g id p code w0 Hrow0).
    unfold task_done. change (unfinished_tasks w0) with (unfinished_tasks w).
    destruct (unfinished_tasks w <=? 0); [|reflexivity].
    unfold except_suite, mbind, M_bind, get_submission. by rewrite Hrow0. }
  unfold process_job, try_finally. rewrite Htry.
  split.
  - intros Hmany.
    destruct (unfinished_tasks w <=? 0) eqn:E0; [apply Z.leb_le in E0; lia|].
    rewrite finally_suite_ok by (simpl; lia). reflexivity.
  - intros Hfew.
    unfold finally_suite, mbind, M_bind, task_done.
    destruct (unfinished_tasks w <=? 0) eqn:E0.
    + change (unfinished_tasks w0) with (unfinished_tasks w). rewrite E0.
      by exists w0.
    + apply Z.leb_gt in E0. simpl.
      destruct (unfinished_tasks w - 1 <=? 0) eqn:E1; [|apply Z.leb_gt in E1; lia].
      eexists. split; [reflexivity|]. by repeat split.
Qed.

(** C4, on the code. A turn of the worker ends with the sleep of the fixed
    interval, 6.5 seconds, when the job was graded or its grading failed
    (the row exists and the queue's task count is positive), and when the
    job was skipped while another task is still counted.  It does not when
    the job is skipped and the count is at most one: [task_done()] has
    been called in the [try] suite, the call in the [finally] suite raises
    [ValueError], and the exception leaves the coroutine before the sleep.
    So the row of the only queued job being deleted, the turn ends without
    a sleep; and of two queued jobs of which the first has lost its row,
    the first is skipped and followed by a sleep, the second is graded and
    not followed by one.  In the log of any run of the worker, a sleep of
    the interval lies between any two takings of a job and between any two
    calls of the grader. *)
Theorem C4_sleep_after_turn :
  SLEEP_INTERVAL_MS = 6500
  /\ (forall g w id p code rest row,
         queue w = (id, p, code) :: rest ->
         submissions (db w) !! id = Some row ->
         0 < unfinished_tasks w ->
         exists w',
           worker_iteration g w = Next w'
           /\ events w'
              = events w
                ++ EvGet id
                   :: match build_prompt p code with
                      | inr prompt => [EvGenerate prompt]
                      | inl _ => []
                      end
                ++ [EvSleep SLEEP_INTERVAL_MS])
  /\ (forall g w id p code rest,
         queue w = (id, p, code) :: rest ->
         submissions (db w) !! id = None ->
         1 < unfinished_tasks w ->
         exists w',
           worker_iteration g w = Next w'
           /\ events w' = events w ++ [EvGet id; EvSleep SLEEP_INTERVAL_MS])
  /\ (forall g w id p code rest,
         queue w = (id, p, code) :: rest ->
         submissions (db w) !! id = None ->
         unfinished_tasks w <= 1 ->
         exists w',
           worker_iteration g w = Died ValueError w'
           /\ events w' = events w ++ [EvGet id])
  /\ (forall g,
         exists w',
           worker_iteration g world_row_deleted = Died ValueError w'
           /\ events w' = [EvGet 1])
  /\ (exists prompt w',
         process_submission_queue
           [network_error; answers (jlit "{'score':85,'feedback':'Nice job'}")]
           world_first_row_deleted
         = Died ValueError w'
         /\ events w'
            = [EvGet 1; EvSleep SLEEP_INTERVAL_MS; EvGet 2; EvGenerate prompt]
         /\ submissions (db w') !! 2
            = Some (graded (new_row 2000 sample_request) (Some 85)
                           (Some (lit "Nice job"))))
  /\ (forall graders w,
         exists new,
           events (world_of (process_submission_queue graders w)) = events w ++ new
           /\ (forall l1 i1 l2 i2 l3,
                  new = l1 ++ EvGet i1 :: l2 ++ EvGet i2 :: l3 ->
                  EvSleep SLEEP_INTERVAL_MS ∈ l2)
           /\ (forall l1 p1 l2 p2 l3,
                  new = l1 ++ EvGenerate p1 :: l2 ++ EvGenerate p2 :: l3 ->
                  EvSleep SLEEP_INTERVAL_MS ∈ l2)).
Proof.
  split; [reflexivity|]. split; [|split; [|split; [|split; [|split]]]].
  - intros g w id p code rest row Hq Hrow Hpos.
    destruct (worker_iteration_found g w id p code rest row Hq Hrow Hpos)
      as (sc & fc & w' & Hturn & _ & _ & _ & Hev).
    exists w'. by split.
  - intros g w id p code rest Hq Hrow Hmany.
    destruct (worker_iteration_skipped g w id p code rest Hq Hrow) as [H _].
    eexists. split; [exact (H Hmany)|]. simpl. by rewrite <- app_assoc.
  - intros g w id p code rest Hq Hrow Hfew.
    destruct (worker_iteration_skipped g w id p code rest Hq Hrow) as [_ H].
    destruct (H Hfew) as (w' & Hturn & _ & _ & Hev). exists w'. by split.
  - intros g.
    destruct (worker_iteration_skipped g world_row_deleted 1
                (Problem.with_course_name DEFAULT_COURSE sample_problem)
                (lit "print(1)") []) as [_ H];
      [vm_compute; reflexivity|vm_compute; reflexivity|].
    destruct H as (w' & Hturn & _ & _ & Hev); [vm_compute; discriminate|].
    exists w'. by split.
  - vm_compute. eexists _, _. split; [reflexivity|]. split; reflexivity.
  - intros graders w.
    destruct (process_submission_queue_paced graders w) as (new & Hnew & Hp).
    exists new. split; [exact Hnew|]. split.
    + intros l1 i1 l2 i2 l3 ->.
      apply paced_suffix in Hp as (got & called & Hp). simpl in Hp.
      apply andb_prop in Hp as [_ Hp]. eapply paced_after_get, Hp.
    + intros l1 p1 l2 p2 l3 ->.
      apply paced_suffix in Hp as (got & called & Hp). simpl in Hp.
      apply andb_prop in Hp as [_ Hp]. eapply paced_after_call, Hp.
Qed.

(** ** What one action does to the submissions table and to the queue *)

Lemma fold_add_classroom_submissions (rows : str -> Classroom.t) names d :
  submissions
    (fold_left (fun d name => add_classroom (rows name) d) names d)
  = submissions d.
Proof.
  revert d. induction names as [|n ns IH]; intros d; simpl; [reflexivity|].
  by rewrite IH.
Qed.

Lemma setup_system_submissions raw req w :
  submissions (db (snd (setup_system raw req w))) = submissions (db w)
  /\ queue (snd (setup_system raw req w)) = queue w.
Proof.
  unfold setup_system. simpl. split; [|reflexivity].
  rewrite (fold_add_classroom_submissions
           (fun name => {| Classroom.course_id := _; Classroom.name := name;
                           Classroom.active_chapter := _;
                           Classroom.is_active := false |})).
  reflexivity.
Qed.

Lemma login_submissions now req w :
  submissions (db (snd (login now req w))) = submissions (db w)
  /\ queue (snd (login now req w)) = queue w.
Proof.
  unfold login.
  destruct (head _) as [[id old]|]; simpl; split; reflexivity.
Qed.

Lemma submit_world raw now req w :
  match PROBLEMS_DICT raw !! submit_problem_id req with
  | None => submit raw now req w = (inl (HTTPException 404), w)
  | Some problem =>
      let row := new_row now req in
      let id := next_id (submissions (db w)) in
      let w1 := set_db (set_submissions <[id := row]>) w in
      add_submission row w = (inr id, w1)
      /\ put (id, problem, submit_code_answer req) w1
         = (inr (), set_unfinished_tasks (unfinished_tasks w + 1)
                      (set_queue (queue w ++ [(id, problem, submit_code_answer req)]) w1))
      /\ submit raw now req w
         = (inr (id, row),
            set_unfinished_tasks (unfinished_tasks w + 1)
              (set_queue (queue w ++ [(id, problem, submit_code_answer req)]) w1))
  end.
Proof.
  unfold submit.
  destruct (PROBLEMS_DICT raw !! submit_problem_id req); [|reflexivity].
  split; [reflexivity|]. split; reflexivity.
Qed.

(** The five requests other than submit leave submissions and queue alone. *)
Lemma handle_other raw r w :
  (forall now req, r <> ReqSubmit now req) ->
  submissions (db (handle raw r w)) = submissions (db w)
  /\ queue (handle raw r w) = queue w.
Proof.
  intros Hr. destruct r as [req|now req|now req|id|req|req]; simpl.
  - apply setup_system_submissions.
  - apply login_submissions.
  - by destruct (Hr now req).
  - unfold check_submission. by destruct (submissions (db w) !! id).
  - split; reflexivity.
  - unfold update_progress. by destruct (classrooms (db w) !! _).
Qed.

Lemma process_job_world g id p code w :
  let w' := snd (process_job g (id, p, code) w) in
  queue w' = queue w
  /\ match submissions (db w) !! id with
     | None => db w' = db w
     | Some row =>
         exists sc fc, db w' = set_submissions <[id := graded row sc fc]> (db w)
     end.
Proof.
  destruct (process_job_events g (id, p, code) w) as (_ & _ & Hq & _).
  split; [exact Hq|].
  destruct (process_job g (id, p, code) w) as [r w'] eqn:Hp. simpl.
  rewrite (process_job_db _ _ _ _ _ Hp). unfold try_except.
  destruct (submissions (db w) !! id) as [row|] eqn:Hrow.
  - rewrite (try_suite_found g id p code w row Hrow).
    destruct (grade g id row p code w) as [[e|[]] w0] eqn:Hg.
    + destruct (grade_raises g id row p code w e w0 Hg) as (Hdb & _).
      unfold except_suite, mbind, M_bind, get_submission, commit_submission.
      rewrite Hdb, Hrow. simpl. rewrite Hdb. eauto.
    + destruct (grade_ok g id row p code w w0 Hg)
        as (prompt & ? & ? & ? & ? & ? & sc & fc & _ & _ & _ & _ & _ & _ & _ & _ & ->).
      simpl. eauto.
  - rewrite (try_suite_missing g id p code w Hrow). unfold task_done.
    destruct (unfinished_tasks w <=? 0); simpl; [|reflexivity].
    unfold except_suite, mbind, M_bind, get_submission. rewrite Hrow. reflexivity.
Qed.

Lemma worker_iteration_world g w :
  let w' := world_of (worker_iteration g w) in
  match queue w with
  | [] => w' = w
  | (id, p, code) :: rest =>
      queue w' = rest
      /\ match submissions (db w) !! id with
         | None => db w' = db w
         | Some row =>
             exists sc fc, db w' = set_submissions <[id := graded row sc fc]> (db w)
         end
  end.
Proof.
  unfold worker_iteration. destruct (queue w) as [|[[id p] code] rest] eqn:Hq;
    [reflexivity|].
  pose proof (process_job_world g id p code (emit (EvGet id) (set_queue rest w))) as H.
  simpl in H. simpl.
  destruct (process_job g (id, p, code) _) as [[e|[]] w']; simpl in *; exact H.
Qed.

Lemma step_world_worker raw g s :
  world (step raw (WorkerTurn g) s)
  = if worker_alive s then world_of (worker_iteration g (world s)) else world s.
Proof.
  simpl. destruct (worker_alive s); [|reflexivity].
  destruct (worker_iteration g (world s)) as [w'|w'|e w'] eqn:E; try reflexivity.
  unfold worker_iteration in E. destruct (queue (world s)); [by injection E as <-|].
  destruct (process_job _ _ _) as [[?|?] ?]; discriminate.
Qed.

(** One action and one row: the row is created by a submit, rewritten by the
    worker as a graded copy of itself, or left as it is; it is never
    removed. *)
Lemma step_submissions raw a s id :
  match submissions (db (world s)) !! id,
        submissions (db (world (step raw a s))) !! id with
  | None, None => True
  | None, Some row' =>
      exists now req, a = Handle (ReqSubmit now req) /\ row' = new_row now req
  | Some row, Some row' =>
      row' = row \/ exists g sc fc, a = WorkerTurn g /\ row' = graded row sc fc
  | Some _, None => False
  end.
Proof.
  assert (Hsame : forall (m : gmap Z Submission.t),
             match m !! id, m !! id with
             | None, None => True
             | None, Some row' =>
                 exists now req, a = Handle (ReqSubmit now req) /\ row' = new_row now req
             | Some row, Some row' =>
                 row' = row \/ exists g sc fc, a = WorkerTurn g /\ row' = graded row sc fc
             | Some _, None => False
             end).
  { intros m. destruct (m !! id); auto. }
  destruct a as [r|g].
  - change (world (step raw (Handle r) s)) with (handle raw r (world s)).
    destruct r as [req|now req|now req|cid|req|req];
      try (match goal with
           | |- context [handle raw ?r _] =>
               let H := fresh in
               assert (H : forall now req, r <> ReqSubmit now req) by discriminate;
               destruct (handle_other raw r (world s) H) as [-> _]; apply Hsame
           end).
    simpl. pose proof (submit_world raw now req (world s)) as H.
    destruct (PROBLEMS_DICT raw !! submit_problem_id req) as [problem|].
    + destruct H as (_ & _ & ->). simpl.
      destruct (decide (id = next_id (submissions (db (world s))))) as [->|Hne].
      * rewrite next_id_fresh, lookup_insert_eq. eauto.
      * rewrite lookup_insert_ne by done. apply Hsame.
    + rewrite H. simpl. apply Hsame.
  - rewrite step_world_worker. destruct (worker_alive s); [|apply Hsame].
    pose proof (worker_iteration_world g (world s)) as H. simpl in H.
    destruct (queue (world s)) as [|[[jid p] code] rest]; [rewrite H; apply Hsame|].
    destruct H as [_ H].
    destruct (submissions (db (world s)) !! jid) as [row|] eqn:Hrow.
    + destruct H as (sc & fc & ->). simpl.
      destruct (decide (id = jid)) as [->|Hne].
      * rewrite Hrow, lookup_insert_eq. right. eauto.
      * rewrite lookup_insert_ne by done. apply Hsame.
    + rewrite H. apply Hsame.
Qed.

(** ** C7: the life of a status *)

Lemma step_statuses_known raw a s :
  statuses_known s -> statuses_known (step raw a s).
Proof.
  intros Hs id row' Hrow'. pose proof (step_submissions raw a s id) as H.
  rewrite Hrow' in H.
  destruct (submissions (db (world s)) !! id) as [row|] eqn:Hrow.
  - destruct H as [->|(g & sc & fc & _ & ->)]; [eauto|by right].
  - destruct H as (now & req & _ & ->). by left.
Qed.

Lemma run_app raw l1 l2 s : run raw (l1 ++ l2) s = run raw l2 (run raw l1 s).
Proof. apply fold_left_app. Qed.

Lemma run_statuses_known raw actions :
  statuses_known (run raw actions initial_system).
Proof.
  induction actions as [|a actions IH] using rev_ind.
  - intros id row H. simpl in H. rewrite lookup_empty in H. discriminate.
  - rewrite run_app. simpl. by apply step_statuses_known.
Qed.

(** C7. In every state the process can reach, and for every action taken
    there: a row that appears is created by a submit with status "grading";
    a row that exists keeps existing, its status is "grading" or
    "completed", and the action either leaves the status as it is or is a
    turn of the worker that moves it from "grading" to "completed". So a
    status changes at most once, only from "grading" to "completed", only
    through the worker, and never back. *)
Theorem C7_status_changes_once
    (raw : RawData) (actions : list Action) (a : Action) (id : Z) :
  let s := run raw actions initial_system in
  STATUS_GRADING <> STATUS_COMPLETED
  /\ match submissions (db (world s)) !! id,
           submissions (db (world (step raw a s))) !! id with
     | None, None => True
     | None, Some row' =>
         Submission.status row' = STATUS_GRADING
         /\ exists now req, a = Handle (ReqSubmit now req)
     | Some row, Some row' =>
         (Submission.status row = STATUS_GRADING
          \/ Submission.status row = STATUS_COMPLETED)
         /\ (Submission.status row' = Submission.status row
             \/ (Submission.status row = STATUS_GRADING
                 /\ Submission.status row' = STATUS_COMPLETED
                 /\ exists g, a = WorkerTurn g))
     | Some _, None => False
     end.
Proof.
  intros s. split; [discriminate|].
  pose proof (step_submissions raw a s id) as H.
  pose proof (run_statuses_known raw actions id) as Hk. fold s in Hk.
  destruct (submissions (db (world s)) !! id) as [row|] eqn:Hrow;
    destruct (submissions (db (world (step raw a s))) !! id) as [row'|] eqn:Hrow';
    try exact H.
  - specialize (Hk row eq_refl). split; [exact Hk|].
    destruct H as [->|(g & sc & fc & -> & ->)]; [by left|].
    destruct Hk as [Hg|Hc].
    + right. eauto.
    + left. by rewrite Hc.
  - destruct H as (now & req & -> & ->). eauto.
Qed.

(** ** C9: the row exists before its job is queued *)

Lemma step_queued_jobs_grading raw a s :
  queued_jobs_grading (world s) -> queued_jobs_grading (world (step raw a s)).
Proof.
  intros [Hnd Hq]. destruct a as [r|g].
  - change (world (step raw (Handle r) s)) with (handle raw r (world s)).
    destruct r as [req|now req|now req|cid|req|req];
      try (match goal with
           | |- context [handle raw ?r _] =>
               let H := fresh in
               assert (H : forall now req, r <> ReqSubmit now req) by discriminate;
               destruct (handle_other raw r (world s) H) as [Hs Hqq];
               unfold queued_jobs_grading; rewrite Hs, Hqq; split; assumption
           end).
    simpl. pose proof (submit_world raw now req (world s)) as H.
    destruct (PROBLEMS_DICT raw !! submit_problem_id req) as [problem|].
    + destruct H as (_ & _ & ->). unfold queued_jobs_grading. simpl.
      set (nid := next_id (submissions (db (world s)))).
      assert (Hfresh : forall j, j ∈ queue (world s) -> job_id j <> nid).
      { intros j Hj Heq. destruct (Hq j Hj) as (row & Hrow & _).
        rewrite Heq in Hrow. unfold nid in Hrow. rewrite next_id_fresh in Hrow.
        discriminate. }
      split.
      * rewrite map_app. simpl. apply NoDup_app. split; [exact Hnd|]. split.
        -- intros x Hx ->%list_elem_of_singleton.
           apply list_elem_of_In, in_map_iff in Hx as (j & Hj1 & Hj2).
           apply list_elem_of_In in Hj2. by apply (Hfresh j Hj2).
        -- apply NoDup_singleton.
      * intros j [Hj|Hj]%elem_of_app.
        -- destruct (Hq j Hj) as (row & Hrow & Hst). exists row.
           rewrite lookup_insert_ne by (intros Heq; by apply (Hfresh j Hj)).
           eauto.
        -- apply list_elem_of_singleton in Hj. subst j. unfold job_id. simpl.
           rewrite lookup_insert_eq. eauto.
    + rewrite H. simpl. split; assumption.
  - rewrite step_world_worker. destruct (worker_alive s); [|split; assumption].
    pose proof (worker_iteration_world g (world s)) as H. simpl in H.
    destruct (queue (world s)) as [|[[jid p] code] rest] eqn:Hqueue.
    { rewrite H. unfold queued_jobs_grading. rewrite Hqueue. split; assumption. }
    destruct H as [Hrest H]. simpl in Hnd. apply NoDup_cons in Hnd as [Hnotin Hnd].
    unfold queued_jobs_grading. rewrite Hrest. split; [exact Hnd|].
    intros j Hj.
    assert (Hne : job_id j <> jid).
    { intros <-. apply Hnotin. apply list_elem_of_In, in_map_iff.
      exists j. split; [reflexivity|]. by apply list_elem_of_In. }
    destruct (Hq j) as (row & Hrow & Hst); [by apply list_elem_of_further|].
    exists row. split; [|exact Hst].
    destruct (submissions (db (world s)) !! jid) as [r0|].
    + destruct H as (sc & fc & ->). simpl. by rewrite lookup_insert_ne.
    + by rewrite H.
Qed.

Lemma run_queued_jobs_grading raw actions :
  queued_jobs_grading (world (run raw actions initial_system)).
Proof.
  induction actions as [|a actions IH] using rev_ind.
  - split; [apply NoDup_nil_2|]. intros j Hj. simpl in Hj.
    by apply not_elem_of_nil in Hj.
  - rewrite run_app. simpl. by apply step_queued_jobs_grading.
Qed.

(** C9. In every state the process can reach, a submit request for a known
    problem first stores the new row, with status "grading", under a fresh
    id, the queue being as it was; only then does it put the job for that id
    at the back of the queue. Once the job is queued, every job in the queue
    names a row that is in the database with status "grading". *)
Theorem C9_row_before_job
    (raw : RawData) (actions : list Action) (now : Z) (req : SubmitRequest)
    (problem : Problem.t) :
  PROBLEMS_DICT raw !! submit_problem_id req = Some problem ->
  let w := world (run raw actions initial_system) in
  exists id row w1 w2,
    add_submission row w = (inr id, w1)
    /\ Submission.status row = STATUS_GRADING
    /\ submissions (db w) !! id = None
    /\ submissions (db w1) !! id = Some row
    /\ queue w1 = queue w
    /\ put (id, problem, submit_code_answer req) w1 = (inr (), w2)
    /\ submit raw now req w = (inr (id, row), w2)
    /\ queue w2 = queue w ++ [(id, problem, submit_code_answer req)]
    /\ forall j, j ∈ queue w2 ->
         exists r, submissions (db w2) !! job_id j = Some r
                   /\ Submission.status r = STATUS_GRADING.
Proof.
  intros Hp w.
  pose proof (submit_world raw now req w) as H. rewrite Hp in H.
  destruct H as (Hadd & Hput & Hsub).
  eexists _, _, _, _. split; [exact Hadd|]. split; [reflexivity|].
  split; [apply next_id_fresh|]. split; [simpl; apply lookup_insert_eq|].
  split; [reflexivity|]. split; [exact Hput|]. split; [exact Hsub|].
  split; [reflexivity|].
  pose proof (run_queued_jobs_grading raw (actions ++ [Handle (ReqSubmit now req)])) as [_ Hq].
  rewrite run_app in Hq. simpl in Hq. fold w in Hq. rewrite Hsub in Hq. exact Hq.
Qed.

Lemma C9_row_before_job_witness :
  PROBLEMS_DICT sample_raw !! submit_problem_id sample_request
  = Some (Problem.with_course_name DEFAULT_COURSE sample_problem)
  /\ exists id row w2,
      submit sample_raw 2000 sample_request
             (world (run sample_raw [Handle (ReqSubmit 1000 sample_request)]
                         initial_system))
      = (inr (id, row), w2)
      /\ Submission.status row = STATUS_GRADING.
Proof.
  assert (H : PROBLEMS_DICT sample_raw !! submit_problem_id sample_request
              = Some (Problem.with_course_name DEFAULT_COURSE sample_problem))
    by (vm_compute; reflexivity).
  split; [exact H|].
  destruct (C9_row_before_job sample_raw [Handle (ReqSubmit 1000 sample_request)]
                              2000 sample_request _ H)
    as (id & row & w1 & w2 & _ & Hst & _ & _ & _ & _ & Hsub & _).
  exists id, row, w2. split; assumption.
Defined.

(** ** C8: the views show the latest submission *)

Lemma head_filter_sorted {A} (P : A -> Prop) `{!forall x, Decision (P x)}
    (R : A -> A -> Prop) (l : list A) :
  StronglySorted R l ->
  match head (filter P l) with
  | Some x => x ∈ l /\ P x /\ forall y, y ∈ l -> P y -> y = x \/ R x y
  | None => forall y, y ∈ l -> ~ P y
  end.
Proof.
  induction 1 as [|a l Hs IH Hall].
  - simpl. intros y Hy. by apply not_elem_of_nil in Hy.
  - rewrite filter_cons. destruct (decide (P a)) as [Ha|Ha]; simpl.
    + split; [apply list_elem_of_here|]. split; [exact Ha|].
      intros y [->|Hy]%elem_of_cons _; [by left|].
      right. rewrite Forall_forall in Hall. by apply Hall.
    + destruct (head (filter P l)) as [x|].
      * destruct IH as (Hx & HP & Hmax). split; [by apply list_elem_of_further|].
        split; [exact HP|].
        intros y [->|Hy]%elem_of_cons Hy'; [contradiction|]. by apply Hmax.
      * intros y [->|Hy]%elem_of_cons; [exact Ha|]. by apply IH.
Qed.

Lemma problems_sub_map_fold rows (m : gmap Z (Z * Submission.t)) pid :
  fold_left
    (fun sub_map sub =>
       match sub_map !! Submission.problem_id (snd sub) with
       | None => <[Submission.problem_id (snd sub) := sub]> sub_map
       | Some _ => sub_map
       end) rows m !! pid
  = match m !! pid with
    | Some x => Some x
    | None => head (filter (fun r => Submission.problem_id (snd r) = pid) rows)
    end.
Proof.
  revert m. induction rows as [|r rows IH]; intros m; simpl.
  - by destruct (m !! pid).
  - rewrite IH, filter_cons.
    destruct (m !! Submission.problem_id r.2) as [x|] eqn:Hm.
    + destruct (decide (Submission.problem_id r.2 = pid)) as [<-|Hne];
        [by rewrite Hm|reflexivity].
    + destruct (decide (Submission.problem_id r.2 = pid)) as [<-|Hne].
      * by rewrite lookup_insert_eq, Hm.
      * by rewrite lookup_insert_ne.
Qed.

Lemma problems_sub_map_head rows pid :
  problems_sub_map rows !! pid
  = head (filter (fun r => Submission.problem_id (snd r) = pid) rows).
Proof. unfold problems_sub_map. by rewrite problems_sub_map_fold, lookup_empty. Qed.

Lemma status_sub_map_fold rows (m : gmap Z (gmap Z (Z * Submission.t))) sid pid :
  default ∅
    (fold_left
       (fun sub_map sub =>
          let sid := Submission.student_id (snd sub) in
          let pid := Submission.problem_id (snd sub) in
          let sub_map1 :=
            match sub_map !! sid with
            | None => <[sid := ∅]> sub_map
            | Some _ => sub_map
            end in
          let inner := default ∅ (sub_map1 !! sid) in
          match inner !! pid with
          | None => <[sid := <[pid := sub]> inner]> sub_map1
          | Some _ => sub_map1
          end) rows m !! sid) !! pid
  = match default ∅ (m !! sid) !! pid with
    | Some x => Some x
    | None =>
        head (filter (fun r => Submission.student_id (snd r) = sid
                               /\ Submission.problem_id (snd r) = pid) rows)
    end.
Proof.
  revert m. induction rows as [|r rows IH]; intros m; simpl.
  - by destruct (default ∅ (m !! sid) !! pid).
  - rewrite IH, filter_cons. clear IH.
    set (rs := Submission.student_id r.2). set (rp := Submission.problem_id r.2).
    set (m1 := match m !! rs with None => <[rs := ∅]> m | Some _ => m end).
    assert (Hm1 : forall k, default ∅ (m1 !! k) = default ∅ (m !! k)).
    { intros k. unfold m1. destruct (m !! rs) eqn:E; [reflexivity|].
      destruct (decide (rs = k)) as [<-|Hne].
      - by rewrite lookup_insert_eq, E.
      - by rewrite lookup_insert_ne. }
    destruct (default ∅ (m1 !! rs) !! rp) as [x|] eqn:Hin.
    + rewrite Hm1. destruct (decide (rs = sid /\ rp = pid)) as [[<- <-]|Hne];
        [|reflexivity].
      rewrite Hm1 in Hin. by rewrite Hin.
    + destruct (decide (rs = sid)) as [<-|Hs].
      * rewrite lookup_insert_eq. simpl.
        destruct (decide (rp = pid)) as [<-|Hp].
        -- rewrite lookup_insert_eq. rewrite Hm1 in Hin. rewrite Hin.
           destruct (decide _) as [_|Hn]; [reflexivity|]. by destruct Hn.
        -- rewrite lookup_insert_ne by done. rewrite Hm1.
           destruct (decide _) as [[_ Hn]|_]; [contradiction|reflexivity].
      * rewrite lookup_insert_ne by done. rewrite Hm1.
        destruct (decide _) as [[Hn _]|_]; [contradiction|reflexivity].
Qed.

Lemma status_sub_map_head rows sid pid :
  default ∅ (status_sub_map rows !! sid) !! pid
  = head (filter (fun r => Submission.student_id (snd r) = sid
                           /\ Submission.problem_id (snd r) = pid) rows).
Proof.
  unfold status_sub_map. rewrite status_sub_map_fold, lookup_empty. simpl.
  by rewrite lookup_empty.
Qed.

Lemma insert_desc_perm x l : insert_desc x l ≡ₚ x :: l.
Proof.
  induction l as [|y l IH]; simpl; [reflexivity|].
  destruct (_ <=? _); [reflexivity|]. rewrite IH. apply Permutation_swap.
Qed.

Lemma sort_desc_perm l : sort_desc l ≡ₚ l.
Proof.
  induction l as [|x l IH]; simpl; [reflexivity|].
  rewrite insert_desc_perm. by rewrite IH.
Qed.

Lemma insert_desc_sorted x l : desc_sorted l -> desc_sorted (insert_desc x l).
Proof.
  unfold desc_sorted. induction 1 as [|y l Hs IH Hall]; simpl.
  - repeat constructor.
  - destruct (Submission.created_at y.2 <=? Submission.created_at x.2) eqn:E.
    + apply Z.leb_le in E. constructor; [by constructor|].
      constructor; [exact E|].
      eapply Forall_impl; [exact Hall|]. simpl. intros z Hz. lia.
    + apply Z.leb_gt in E. constructor; [exact IH|].
      rewrite (insert_desc_perm x l). constructor; [lia|exact Hall].
Qed.

Lemma sort_desc_sorted l : desc_sorted (sort_desc l).
Proof.
  induction l as [|x l IH]; simpl; [constructor|]. by apply insert_desc_sorted.
Qed.

Lemma fold_cells_lookup (F : Z -> Cell) targets (m : gmap Z Cell) pid cell :
  fold_left (fun cells p => <[Problem.id p := F (Problem.id p)]> cells) targets m !! pid
  = Some cell ->
  (pid ∈ List.map Problem.id targets /\ cell = F pid) \/ m !! pid = Some cell.
Proof.
  revert m. induction targets as [|p ps IH]; intros m; simpl; [auto|].
  intros H. destruct (IH _ H) as [[Hin ->]|Hm].
  - left. split; [by apply list_elem_of_further|reflexivity].
  - destruct (decide (Problem.id p = pid)) as [<-|Hne].
    + rewrite lookup_insert_eq in Hm. injection Hm as <-.
      left. split; [apply list_elem_of_here|reflexivity].
    + rewrite lookup_insert_ne in Hm by done. by right.
Qed.

Lemma fold_cells_lookup_in (F : Z -> Cell) targets (m : gmap Z Cell) pid :
  pid ∈ List.map Problem.id targets ->
  fold_left (fun cells p => <[Problem.id p := F (Problem.id p)]> cells) targets m !! pid
  = Some (F pid).
Proof.
  revert m. induction targets as [|p ps IH]; intros m; simpl.
  - intros H. by apply not_elem_of_nil in H.
  - intros H. destruct (decide (pid ∈ List.map Problem.id ps)) as [Hin|Hout].
    + by apply IH.
    + apply elem_of_cons in H as [->|H]; [|contradiction].
      destruct (fold_left _ ps _ !! Problem.id p) as [cell|] eqn:E.
      * apply fold_cells_lookup in E as [[_ ->]|E]; [reflexivity|].
        by rewrite lookup_insert_eq in E.
      * assert (Hnone : forall m0 : gmap Z Cell,
                   is_Some (m0 !! Problem.id p) ->
                   is_Some (fold_left
                              (fun cells q => <[Problem.id q := F (Problem.id q)]> cells)
                              ps m0 !! Problem.id p)).
        { clear. induction ps as [|q qs IHq]; intros m0 Hm0; simpl; [exact Hm0|].
          apply IHq. destruct (decide (Problem.id q = Problem.id p)) as [->|Hne].
          - rewrite lookup_insert_eq. eauto.
          - by rewrite lookup_insert_ne. }
        destruct (Hnone (<[Problem.id p := F (Problem.id p)]> m)) as [c Hc].
        { rewrite lookup_insert_eq. eauto. }
        rewrite E in Hc. discriminate.
Qed.

Lemma target_problems_ok ch ps :
  Forall (fun p => Problem.chapter p <> None) ps ->
  target_problems ch ps = inr (filter (fun p => Problem.chapter p = Some ch) ps).
Proof.
  induction 1 as [|p ps Hp _ IH]; [reflexivity|].
  cbn [target_problems]. destruct (Problem.chapter p) as [c|] eqn:E; [|done].
  simpl. rewrite IH. simpl. rewrite filter_cons.
  case_bool_decide as Hc; destruct (decide (Problem.chapter p = Some ch)) as [Hd|Hd];
    try reflexivity.
  - subst c. done.
  - rewrite E in Hd. injection Hd as ->. done.
Qed.

Section ViewFacts.
Variable raw : RawData.
Variable order_by : list (Z * Submission.t) -> list (Z * Submission.t).

(** What SQL promises of [ORDER BY created_at DESC]: the same rows, none
    older before a newer one. *)
Hypothesis order_by_perm : forall l, order_by l ≡ₚ l.
Hypothesis order_by_sorted : forall l, desc_sorted (order_by l).

Lemma select_submissions_elem s_ids p_ids d id s :
  (id, s) ∈ select_submissions order_by s_ids p_ids d
  <-> submissions d !! id = Some s
      /\ Submission.student_id s ∈ s_ids /\ Submission.problem_id s ∈ p_ids.
Proof.
  unfold select_submissions. rewrite order_by_perm, list_elem_of_filter.
  rewrite elem_of_map_to_list. simpl. tauto.
Qed.

Lemma select_latest_status s_ids p_ids d sid pid :
  sid ∈ s_ids -> pid ∈ p_ids ->
  latest_of d sid pid
    (default ∅ (status_sub_map (select_submissions order_by s_ids p_ids d) !! sid) !! pid).
Proof.
  intros Hs Hp. rewrite status_sub_map_head.
  pose proof (head_filter_sorted
                (fun r : Z * Submission.t =>
                   Submission.student_id r.2 = sid /\ Submission.problem_id r.2 = pid)
                _ _ (order_by_sorted
                       (filter (fun kv => Submission.student_id kv.2 ∈ s_ids
                                          ∧ Submission.problem_id kv.2 ∈ p_ids)
                               (map_to_list (submissions d))))) as H.
  fold (select_submissions order_by s_ids p_ids d) in H.
  destruct (head _) as [[id s]|]; simpl.
  - destruct H as (Hin & [H1 H2] & Hmax). simpl in H1, H2.
    apply select_submissions_elem in Hin as (Hst & _ & _).
    do 3 (split; [assumption|]).
    intros id' s' Hst' Hs' Hp'.
    destruct (Hmax (id', s')) as [[= _ ->]|Hle]; [| |lia|exact Hle].
    + apply select_submissions_elem. by rewrite Hs', Hp'.
    + by split.
  - intros id' s' Hst' [Hs' Hp']. apply (H (id', s')); [|by split].
    apply select_submissions_elem. by rewrite Hs', Hp'.
Qed.

Lemma select_latest_problems p_ids d sid pid :
  pid ∈ p_ids ->
  latest_of d sid pid
    (problems_sub_map (select_submissions order_by [sid] p_ids d) !! pid).
Proof.
  intros Hp. rewrite problems_sub_map_head.
  pose proof (head_filter_sorted
                (fun r : Z * Submission.t => Submission.problem_id r.2 = pid)
                _ _ (order_by_sorted
                       (filter (fun kv => Submission.student_id kv.2 ∈ [sid]
                                          ∧ Submission.problem_id kv.2 ∈ p_ids)
                               (map_to_list (submissions d))))) as H.
  fold (select_submissions order_by [sid] p_ids d) in H.
  destruct (head _) as [[id s]|]; simpl.
  - destruct H as (Hin & H2 & Hmax). simpl in H2.
    apply select_submissions_elem in Hin as (Hst & Hsid & _).
    apply list_elem_of_singleton in Hsid.
    do 3 (split; [assumption|]).
    intros id' s' Hst' Hs' Hp'.
    destruct (Hmax (id', s')) as [[= _ ->]|Hle]; [| |lia|exact Hle].
    + apply select_submissions_elem. rewrite Hs', Hp'.
      split; [assumption|]. split; [by apply list_elem_of_singleton|assumption].
    + exact Hp'.
  - intros id' s' Hst' [Hs' Hp']. apply (H (id', s')); [|exact Hp'].
    apply select_submissions_elem. rewrite Hs', Hp'.
    split; [assumption|]. split; [by apply list_elem_of_singleton|assumption].
Qed.

(** What [GET /api/problems] answers for a stored student of a stored
    class of a stored course whose problems all have a chapter. *)
Lemma get_problems_ok d sid student classroom course :
  students d !! sid = Some student ->
  classrooms d !! Student.classroom_id student = Some classroom ->
  courses d !! Classroom.course_id classroom = Some course ->
  Forall (fun p => Problem.chapter p <> None)
         (assoc_get (PROBLEMS_BY_COURSE raw) (Course.name course) []) ->
  let targets :=
    filter (fun p => Problem.chapter p = Some (Classroom.active_chapter classroom))
           (assoc_get (PROBLEMS_BY_COURSE raw) (Course.name course) []) in
  exists entries,
    get_problems raw order_by sid d = inr (Classroom.active_chapter classroom, entries)
    /\ List.map fst entries = targets.
Proof.
  intros Hs Hc Hcourse Hall targets. unfold get_problems.
  rewrite Hs, Hc. simpl. rewrite Hcourse. simpl.
  rewrite (target_problems_ok _ _ Hall). simpl.
  eexists. split; [reflexivity|]. rewrite map_map. simpl. apply map_id.
Qed.

(** The same for [GET /api/status]. *)
Lemma get_status_ok d cid classroom course :
  classrooms d !! cid = Some classroom ->
  courses d !! Classroom.course_id classroom = Some course ->
  Forall (fun p => Problem.chapter p <> None)
         (assoc_get (PROBLEMS_BY_COURSE raw) (Course.name course) []) ->
  let targets :=
    filter (fun p => Problem.chapter p = Some (Classroom.active_chapter classroom))
           (assoc_get (PROBLEMS_BY_COURSE raw) (Course.name course) []) in
  exists report,
    get_status raw order_by cid d = inr report
    /\ report_problems report = targets
    /\ report_chapter report = Some (Classroom.active_chapter classroom)
    /\ List.map row_info (report_students report)
       ≡ₚ List.map (fun s => Student.student_number (snd s) ++ [32%N]
                             ++ Student.name (snd s))
            (filter (fun kv => Student.classroom_id (snd kv) = cid)
                    (map_to_list (students d))).
Proof.
  intros Hc Hcourse Hall targets. unfold get_status.
  rewrite Hc. simpl. rewrite Hcourse. simpl.
  rewrite (target_problems_ok _ _ Hall). simpl.
  eexists. split; [reflexivity|]. simpl. split; [reflexivity|].
  split; [reflexivity|]. by rewrite map_map.
Qed.

End ViewFacts.

(** ** json.loads: the scanners do not look past a whitespace character *)

Lemma is_ws_cases c :
  is_ws c = true -> c = 32%N \/ c = 9%N \/ c = 10%N \/ c = 13%N.
Proof.
  unfold is_ws. intros H.
  repeat (apply orb_prop in H as [H|H]); apply N.eqb_eq in H; auto.
Qed.

Ltac at_boundary x H :=
  destruct x as [|? ?];
  [ rewrite ?app_nil_r
  | apply is_ws_cases in H as [-> | [-> | [-> | ->]]] ].

Lemma carries_fail {A} x (m' : scan (A * str)) : carries x Fail m'.
Proof. intros y r H. discriminate. Qed.

Lemma carries_starved {A} x (m' : scan (A * str)) : carries x Starved m'.
Proof. intros y r H. discriminate. Qed.

Lemma carries_done {A} x (y : A) r : carries x (Done (y, r)) (Done (y, r ++ x)).
Proof. intros y' r' [= <- <-]. reflexivity. Qed.

Lemma carries_cons x c m m' :
  carries x m m' -> carries x (scan_cons c m) (scan_cons c m').
Proof.
  intros H y r. unfold scan_cons, mbind, scan_bind.
  destruct m as [[k r0]| |]; try discriminate.
  intros [= <- <-]. by rewrite (H k r0 eq_refl).
Qed.

Lemma skip_ws_app s x : skip_ws s <> [] -> skip_ws (s ++ x) = skip_ws s ++ x.
Proof.
  induction s as [|c s IH]; simpl; [done|].
  destruct (is_ws c); [exact IH|reflexivity].
Qed.

Lemma skip_ws_app_blank r w : skip_ws r = [] -> skip_ws (r ++ w) = skip_ws w.
Proof.
  induction r as [|c r IH]; simpl; [reflexivity|].
  destruct (is_ws c); [exact IH|discriminate].
Qed.

Lemma skip_ws_blank w : Forall (fun c => is_ws c = true) w -> skip_ws w = [].
Proof. induction 1 as [|c w Hc _ IH]; simpl; [reflexivity|]. by rewrite Hc. Qed.

Lemma skip_ws_blank_app w s :
  Forall (fun c => is_ws c = true) w -> skip_ws (w ++ s) = skip_ws s.
Proof. induction 1 as [|c w Hc _ IH]; simpl; [reflexivity|]. by rewrite Hc. Qed.

Lemma span_digits_app s x :
  boundary x ->
  span_digits (s ++ x) = ((span_digits s).1, (span_digits s).2 ++ x).
Proof.
  intros Hx. induction s as [|c s IH]; simpl.
  - at_boundary x Hx; reflexivity.
  - destruct (is_digit c); [|reflexivity].
    rewrite IH. by destruct (span_digits s).
Qed.

Lemma match_integer_app s x :
  boundary x ->
  match_integer (s ++ x)
  = match match_integer s with
    | Some (i, r) => Some (i, r ++ x)
    | None => None
    end.
Proof.
  intros Hx. unfold match_integer.
  assert (Hstart : forall sign : str,
             match x with
             | [] => None
             | c :: t =>
                 if (c =? 48)%N then Some (sign ++ [c], t)
                 else if is_digit c
                      then let '(d, r) := span_digits t in Some (sign ++ c :: d, r)
                      else None
             end = None).
  { intros sign. at_boundary x Hx; reflexivity. }
  assert (Hx0 : match x with
                | [] => ([], x)
                | c :: t => if (c =? 45)%N then ([c], t) else ([], x)
                end = ([], x)).
  { at_boundary x Hx; reflexivity. }
  destruct s as [|c t]; simpl.
  - rewrite Hx0. exact (Hstart []).
  - destruct (c =? 45)%N.
    + destruct t as [|c2 t]; simpl; [exact (Hstart [c])|].
      destruct (c2 =? 48)%N; [reflexivity|].
      destruct (is_digit c2); [|reflexivity].
      rewrite span_digits_app by done. by destruct (span_digits t).
    + destruct (c =? 48)%N; [reflexivity|].
      destruct (is_digit c); [|reflexivity].
      rewrite span_digits_app by done. by destruct (span_digits t).
Qed.

Lemma match_frac_app s x :
  boundary x ->
  match_frac (s ++ x) = ((match_frac s).1, (match_frac s).2 ++ x).
Proof.
  intros Hx. unfold match_frac. destruct s as [|c t]; simpl.
  - at_boundary x Hx; reflexivity.
  - destruct (c =? 46)%N; [|reflexivity].
    rewrite span_digits_app by done.
    destruct (span_digits t) as [[|d ds] r]; reflexivity.
Qed.

Lemma match_exp_app s x :
  boundary x ->
  match_exp (s ++ x) = ((match_exp s).1, (match_exp s).2 ++ x).
Proof.
  intros Hx. unfold match_exp. destruct s as [|c t]; simpl.
  - at_boundary x Hx; reflexivity.
  - destruct ((c =? 101)%N || (c =? 69)%N); [|reflexivity].
    destruct t as [|g t]; simpl.
    + at_boundary x Hx; reflexivity.
    + destruct ((g =? 45)%N || (g =? 43)%N).
      * rewrite span_digits_app by done.
        destruct (span_digits t) as [[|d ds] r]; reflexivity.
      * change (g :: t ++ x) with ((g :: t) ++ x).
        rewrite span_digits_app by done.
        destruct (span_digits (g :: t)) as [[|d ds] r]; reflexivity.
Qed.

Lemma match_number_app s x :
  boundary x ->
  match_number (s ++ x)
  = match match_number s with
    | Some (i, f, e, r) => Some (i, f, e, r ++ x)
    | None => None
    end.
Proof.
  intros Hx. unfold match_number. rewrite match_integer_app by done.
  destruct (match_integer s) as [[i r1]|]; [|reflexivity].
  rewrite match_frac_app by done. destruct (match_frac r1) as [f r2]. simpl.
  rewrite match_exp_app by done. by destruct (match_exp r2) as [e r3].
Qed.

Lemma startswith_app_true s p x : startswith s p = true -> startswith (s ++ x) p = true.
Proof.
  revert s. induction p as [|a p IH]; intros s; [by destruct (s ++ x)|].
  destruct s as [|b s]; simpl; [discriminate|].
  intros [-> H]%andb_prop. simpl. by apply IH.
Qed.

Lemma startswith_length s p : startswith s p = true -> (length p <= length s)%nat.
Proof.
  revert s. induction p as [|a p IH]; intros s; simpl; [lia|].
  destruct s as [|b s]; simpl; [discriminate|].
  intros [_ H]%andb_prop. apply IH in H. simpl. lia.
Qed.

(** A keyword holds no whitespace, so it cannot end inside [x]. *)
Lemma startswith_app_keyword s kw x :
  boundary x -> Forall (fun k => is_ws k = false) kw ->
  startswith (s ++ x) kw = startswith s kw.
Proof.
  intros Hx Hkw. revert s. induction Hkw as [|k kw Hk _ IH]; intros s.
  - by destruct (s ++ x), s.
  - destruct s as [|b s]; simpl; [|by rewrite IH].
    destruct x as [|c x]; [reflexivity|]. simpl in Hx. simpl.
    destruct (k =? c)%N eqn:E; [|reflexivity].
    apply N.eqb_eq in E. subst c. congruence.
Qed.

Lemma drop_app_keyword s kw x :
  startswith s kw = true -> drop (length kw) (s ++ x) = drop (length kw) s ++ x.
Proof. intros H. apply drop_app_le. by apply startswith_length. Qed.

Lemma scanstring_app x s : carries x (scanstring s) (scanstring (s ++ x)).
Proof.
  remember (length s) as n eqn:Hn. revert s Hn.
  induction n as [n IH] using lt_wf_ind. intros s ->.
  assert (IH' : forall s', (length s' < length s)%nat ->
                           carries x (scanstring s') (scanstring (s' ++ x))).
  { intros s' Hlt. by apply (IH (length s')). }
  clear IH.
  destruct s as [|c s]; [apply carries_fail|]. simpl.
  destruct (c =? 34)%N; [apply carries_done|].
  destruct (c =? 92)%N.
  2:{ destruct (c <? 32)%N; [apply carries_fail|].
      apply carries_cons, IH'. simpl. lia. }
  destruct s as [|e s]; [apply carries_fail|]. simpl.
  destruct (e =? 117)%N.
  2:{ destruct (unescape e); [|apply carries_fail].
      apply carries_cons, IH'. simpl. lia. }
  destruct s as [|h1 [|h2 [|h3 [|h4 r]]]]; try apply carries_fail. simpl.
  destruct (decode_uXXXX h1 h2 h3 h4) as [uni|]; [|apply carries_fail].
  destruct ((55296 <=? uni)%N && (uni <=? 56319)%N).
  2:{ apply carries_cons, IH'. simpl. lia. }
  assert (Hr : carries x (scan_cons uni (scanstring r))
                         (scan_cons uni (scanstring (r ++ x)))).
  { apply carries_cons, IH'. simpl. lia. }
  remember (scanstring r) as mr eqn:Hmr.
  remember (scanstring (r ++ x)) as mr' eqn:Hmr'.
  destruct r as [|b [|u r1]].
  - subst mr. apply carries_fail.
  - simpl in Hmr. destruct (b =? 92)%N eqn:Eb.
    + apply N.eqb_eq in Eb. subst b. simpl in Hmr. subst mr. apply carries_fail.
    + destruct x as [|u x']; [exact Hr|].
      change ([b] ++ u :: x') with (b :: u :: x'). cbv beta iota.
      rewrite Eb. exact Hr.
  - change ((b :: u :: r1) ++ x) with (b :: u :: (r1 ++ x)).
    cbv beta iota.
    destruct ((b =? 92)%N && (u =? 117)%N); [|exact Hr].
    destruct r1 as [|g1 [|g2 [|g3 [|g4 r2]]]]; try apply carries_fail.
    change ((g1 :: g2 :: g3 :: g4 :: r2) ++ x) with (g1 :: g2 :: g3 :: g4 :: (r2 ++ x)).
    cbv beta iota.
    destruct (decode_uXXXX g1 g2 g3 g4) as [uni2|]; [|apply carries_fail].
    destruct ((56320 <=? uni2)%N && (uni2 <=? 57343)%N); [|exact Hr].
    apply carries_cons, IH'. simpl. lia.
Qed.

Section ScanPastBoundary.
Variable x : str.
Hypothesis x_boundary : boundary x.

Section Items.
Variables scan scan' : str -> Json.scan (json * str).
Hypothesis scan_app : forall s, carries x (scan s) (scan' (s ++ x)).
Hypothesis scan_nil : forall y, scan [] <> Done y.

Lemma array_items_nil n values y : array_items scan n [] values <> Done y.
Proof.
  destruct n as [|n]; simpl; [discriminate|].
  unfold mbind, scan_bind. destruct (scan []) as [a| |] eqn:E; try discriminate.
  by destruct (scan_nil a).
Qed.

Lemma array_items_app n n' s values :
  (n <= n')%nat ->
  carries x (array_items scan n s values) (array_items scan' n' (s ++ x) values).
Proof.
  revert n' s values. induction n as [|n IH]; intros n' s values Hn;
    [apply carries_starved|].
  destruct n' as [|n']; [lia|]. simpl. unfold mbind, scan_bind.
  destruct (scan s) as [[v s1]| |] eqn:E;
    [|apply carries_fail|apply carries_starved].
  rewrite (scan_app s v s1 E).
  destruct (skip_ws s1) as [|c s2] eqn:Es; [apply carries_fail|].
  rewrite skip_ws_app, Es by (by rewrite Es). simpl.
  destruct (c =? 93)%N; [apply carries_done|].
  destruct (c =? 44)%N; [|apply carries_fail].
  destruct (skip_ws s2) as [|c3 s3] eqn:Es2.
  - intros y r H. by destruct (array_items_nil n (values ++ [v]) (y, r)).
  - rewrite skip_ws_app, Es2 by (by rewrite Es2). apply IH. lia.
Qed.

Lemma JSONArray_app s : carries x (JSONArray scan s) (JSONArray scan' (s ++ x)).
Proof.
  unfold JSONArray. destruct (skip_ws s) as [|c r] eqn:Es.
  - cbn [startswith]. intros y r H. by destruct (array_items_nil 1 [] (y, r)).
  - rewrite skip_ws_app, Es by (by rewrite Es).
    change ((c :: r) ++ x) with (c :: (r ++ x)). cbn [startswith drop].
    destruct (93 =? c)%N; cbn [andb]; [apply carries_done|].
    apply (array_items_app (S (length (c :: r))) (S (length (c :: (r ++ x))))
                           (c :: r) []).
    simpl. rewrite length_app. lia.
Qed.

Lemma object_items_app n n' s pairs :
  (n <= n')%nat ->
  carries x (object_items scan n s pairs) (object_items scan' n' (s ++ x) pairs).
Proof.
  revert n' s pairs. induction n as [|n IH]; intros n' s pairs Hn;
    [apply carries_starved|].
  destruct n' as [|n']; [lia|]. simpl. unfold mbind, scan_bind.
  destruct (scanstring s) as [[key s1]| |] eqn:E;
    [|apply carries_fail|apply carries_starved].
  rewrite (scanstring_app x s key s1 E).
  destruct (skip_ws s1) as [|colon s2] eqn:Es; [apply carries_fail|].
  rewrite skip_ws_app, Es by (by rewrite Es). simpl.
  destruct (colon =? 58)%N; [|apply carries_fail].
  destruct (skip_ws s2) as [|c2 s2'] eqn:Es2.
  { destruct (scan []) as [a| |] eqn:En;
      [by destruct (scan_nil a)|apply carries_fail|apply carries_starved]. }
  rewrite skip_ws_app, Es2 by (by rewrite Es2).
  destruct (scan (c2 :: s2')) as [[v s3]| |] eqn:E3;
    [|apply carries_fail|apply carries_starved].
  rewrite (scan_app (c2 :: s2') v s3 E3).
  destruct (skip_ws s3) as [|nextchar s4] eqn:Es3; [apply carries_fail|].
  rewrite skip_ws_app, Es3 by (by rewrite Es3). simpl.
  destruct (nextchar =? 125)%N; [apply carries_done|].
  destruct (nextchar =? 44)%N; [|apply carries_fail].
  destruct (skip_ws s4) as [|quote s5] eqn:Es4; [apply carries_fail|].
  rewrite skip_ws_app, Es4 by (by rewrite Es4). simpl.
  destruct (quote =? 34)%N; [|apply carries_fail].
  apply IH. lia.
Qed.

Lemma JSONObject_app s : carries x (JSONObject scan s) (JSONObject scan' (s ++ x)).
Proof.
  unfold JSONObject. destruct (skip_ws s) as [|c r] eqn:Es; [apply carries_fail|].
  rewrite skip_ws_app, Es by (by rewrite Es).
  change ((c :: r) ++ x) with (c :: (r ++ x)). cbv beta iota.
  destruct (c =? 125)%N; [apply carries_done|].
  destruct (c =? 34)%N; [|apply carries_fail].
  apply object_items_app. rewrite length_app. lia.
Qed.
End Items.

Lemma scan_once_nil f y : scan_once f [] <> Done y.
Proof. destruct f; discriminate. Qed.

Lemma keyword_no_ws :
  Forall (fun k => is_ws k = false) kw_null
  /\ Forall (fun k => is_ws k = false) kw_true
  /\ Forall (fun k => is_ws k = false) kw_false
  /\ Forall (fun k => is_ws k = false) kw_NaN
  /\ Forall (fun k => is_ws k = false) kw_Infinity
  /\ Forall (fun k => is_ws k = false) kw_minus_Infinity.
Proof. repeat split; repeat constructor. Qed.

Lemma scan_once_app f f' s :
  (f <= f')%nat -> carries x (scan_once f s) (scan_once f' (s ++ x)).
Proof.
  revert f' s. induction f as [|f IH]; intros f' s Hf; [apply carries_starved|].
  destruct f' as [|f']; [lia|].
  destruct s as [|c s]; [apply carries_fail|].
  destruct keyword_no_ws as (Hnull & Htrue & Hfalse & HNaN & HInf & HmInf).
  change ((c :: s) ++ x) with (c :: (s ++ x)).
  cbn [scan_once].
  destruct (c =? 34)%N.
  { unfold mbind, scan_bind.
    destruct (scanstring s) as [[k r]| |] eqn:E;
      [|apply carries_fail|apply carries_starved].
    rewrite (scanstring_app x s k r E). apply carries_done. }
  destruct (c =? 123)%N.
  { apply JSONObject_app; [|apply scan_once_nil]. intros s0. apply IH. lia. }
  destruct (c =? 91)%N.
  { apply JSONArray_app; [|apply scan_once_nil]. intros s0. apply IH. lia. }
  change (c :: (s ++ x)) with ((c :: s) ++ x).
  rewrite !startswith_app_keyword by assumption.
  destruct (startswith (c :: s) kw_null) eqn:E1.
  { pose proof (drop_app_keyword (c :: s) kw_null x E1) as Hd.
    cbv [kw_null length] in Hd. rewrite Hd. apply carries_done. }
  destruct (startswith (c :: s) kw_true) eqn:E2.
  { pose proof (drop_app_keyword (c :: s) kw_true x E2) as Hd.
    cbv [kw_true length] in Hd. rewrite Hd. apply carries_done. }
  destruct (startswith (c :: s) kw_false) eqn:E3.
  { pose proof (drop_app_keyword (c :: s) kw_false x E3) as Hd.
    cbv [kw_false length] in Hd. rewrite Hd. apply carries_done. }
  rewrite match_number_app by assumption.
  destruct (match_number (c :: s)) as [[[[i fr] e] r]|].
  { destruct fr, e; apply carries_done. }
  destruct (startswith (c :: s) kw_NaN) eqn:E4.
  { pose proof (drop_app_keyword (c :: s) kw_NaN x E4) as Hd.
    cbv [kw_NaN length] in Hd. rewrite Hd. apply carries_done. }
  destruct (startswith (c :: s) kw_Infinity) eqn:E5.
  { pose proof (drop_app_keyword (c :: s) kw_Infinity x E5) as Hd.
    cbv [kw_Infinity length] in Hd. rewrite Hd. apply carries_done. }
  destruct (startswith (c :: s) kw_minus_Infinity) eqn:E6.
  { pose proof (drop_app_keyword (c :: s) kw_minus_Infinity x E6) as Hd.
    cbv [kw_minus_Infinity length] in Hd. rewrite Hd. apply carries_done. }
  apply carries_fail.
Qed.
End ScanPastBoundary.

(** [json.loads] gives the same value when whitespace is put around a text
    it accepts. *)
Lemma loads_padded w1 t w2 v :
  Forall (fun c => is_ws c = true) w1 -> Forall (fun c => is_ws c = true) w2 ->
  loads t = inr v -> loads (w1 ++ t ++ w2) = inr v.
Proof.
  intros H1 H2. unfold loads. rewrite skip_ws_blank_app by assumption.
  destruct (skip_ws t) as [|c s0] eqn:Et; [discriminate|].
  rewrite skip_ws_app, Et by (by rewrite Et).
  destruct (scan_once (S (length (c :: s0))) (c :: s0)) as [[v' r]| |] eqn:E;
    try discriminate.
  assert (Hb : boundary w2) by (destruct H2; simpl; auto).
  rewrite (scan_once_app w2 Hb (S (length (c :: s0))) (S (length ((c :: s0) ++ w2)))
                         (c :: s0) ltac:(rewrite length_app; lia) v' r E).
  destruct (skip_ws r) as [|? ?] eqn:Er; [|discriminate].
  intros [= <-]. rewrite skip_ws_app_blank by assumption.
  by rewrite skip_ws_blank.
Qed.

(** ** json.loads: the fuel given by [loads] is enough *)

Lemma shrinks_fail {A} s : shrinks s (@Fail (A * str)).
Proof. split; discriminate. Qed.

Lemma shrinks_done {A} s (y : A) r : (length r < length s)%nat -> shrinks s (Done (y, r)).
Proof. intros H. split; [discriminate|]. by intros y' r' [= <- <-]. Qed.

Lemma shrinks_longer {A} s s' (m : scan (A * str)) :
  shrinks s' m -> (length s' <= length s)%nat -> shrinks s m.
Proof. intros [H1 H2] Hl. split; [exact H1|]. intros y r H. specialize (H2 y r H). lia. Qed.

Lemma shrinks_cons s c m : shrinks s m -> shrinks s (scan_cons c m).
Proof.
  intros [H1 H2]. unfold scan_cons, mbind, scan_bind.
  destruct m as [[k r]| |]; [|apply shrinks_fail|done].
  apply shrinks_done. by apply (H2 k r).
Qed.

Lemma skip_ws_length s : (length (skip_ws s) <= length s)%nat.
Proof. induction s as [|c s IH]; simpl; [lia|]. destruct (is_ws c); simpl; lia. Qed.

Lemma span_digits_length s : (length (span_digits s).2 <= length s)%nat.
Proof.
  induction s as [|c s IH]; simpl; [lia|].
  destruct (is_digit c); [|simpl; lia].
  destruct (span_digits s). simpl in *. lia.
Qed.

Lemma match_integer_length s i r :
  match_integer s = Some (i, r) -> (length r < length s)%nat.
Proof.
  unfold match_integer.
  assert (H : forall sign s1,
             match s1 with
             | [] => None
             | c :: t =>
                 if (c =? 48)%N then Some (sign ++ [c], t)
                 else if is_digit c
                      then let '(d, r) := span_digits t in Some (sign ++ c :: d, r)
                      else None
             end = Some (i, r) -> (length r < length s1)%nat).
  { intros sign [|c t]; [discriminate|].
    destruct (c =? 48)%N; [intros [= _ <-]; simpl; lia|].
    destruct (is_digit c); [|discriminate].
    pose proof (span_digits_length t) as Hl. destruct (span_digits t) as [d r'].
    intros [= _ <-]. simpl in *. lia. }
  destruct s as [|c t]; [exact (H [] [])|].
  destruct (c =? 45)%N.
  - intros Hm. apply (H [c] t) in Hm. simpl. lia.
  - exact (H [] (c :: t)).
Qed.

Lemma match_frac_length s : (length (match_frac s).2 <= length s)%nat.
Proof.
  unfold match_frac. destruct s as [|c t]; simpl; [lia|].
  destruct (c =? 46)%N; [|simpl; lia].
  pose proof (span_digits_length t) as Hl.
  destruct (span_digits t) as [[|d ds] r]; simpl in *; lia.
Qed.

Lemma match_exp_length s : (length (match_exp s).2 <= length s)%nat.
Proof.
  unfold match_exp. destruct s as [|c t]; simpl; [lia|].
  destruct ((c =? 101)%N || (c =? 69)%N); [|simpl; lia].
  destruct t as [|g t]; simpl; [lia|].
  destruct ((g =? 45)%N || (g =? 43)%N).
  - pose proof (span_digits_length t) as Hl.
    destruct (span_digits t) as [[|d ds] r]; simpl in *; lia.
  - pose proof (span_digits_length (g :: t)) as Hl.
    destruct (span_digits (g :: t)) as [[|d ds] r]; simpl in *; lia.
Qed.

Lemma match_number_length s i fr e r :
  match_number s = Some (i, fr, e, r) -> (length r < length s)%nat.
Proof.
  unfold match_number. destruct (match_integer s) as [[i0 r1]|] eqn:E; [|discriminate].
  apply match_integer_length in E.
  pose proof (match_frac_length r1) as H1. destruct (match_frac r1) as [f0 r2].
  pose proof (match_exp_length r2) as H2. destruct (match_exp r2) as [e0 r3].
  intros [= _ _ _ <-]. simpl in *. lia.
Qed.

Lemma scanstring_shrinks s : shrinks s (scanstring s).
Proof.
  remember (length s) as n eqn:Hn. revert s Hn.
  induction n as [n IH] using lt_wf_ind. intros s ->.
  assert (IH' : forall s', (length s' < length s)%nat -> shrinks s (scanstring s')).
  { intros s' Hlt. apply (shrinks_longer s s'); [by apply (IH (length s'))|lia]. }
  clear IH.
  destruct s as [|c s]; [apply shrinks_fail|]. cbn [scanstring].
  destruct (c =? 34)%N; [apply shrinks_done; simpl; lia|].
  destruct (c =? 92)%N.
  2:{ destruct (c <? 32)%N; [apply shrinks_fail|].
      apply shrinks_cons, IH'. simpl. lia. }
  destruct s as [|e s]; [apply shrinks_fail|].
  destruct (e =? 117)%N.
  2:{ destruct (unescape e); [|apply shrinks_fail].
      apply shrinks_cons, IH'. simpl. lia. }
  destruct s as [|h1 [|h2 [|h3 [|h4 r]]]]; try apply shrinks_fail.
  destruct (decode_uXXXX h1 h2 h3 h4) as [uni|]; [|apply shrinks_fail].
  assert (Hr : shrinks (c :: e :: h1 :: h2 :: h3 :: h4 :: r)
                       (scan_cons uni (scanstring r))).
  { apply shrinks_cons, IH'. simpl. lia. }
  destruct ((55296 <=? uni)%N && (uni <=? 56319)%N); [|exact Hr].
  remember (scanstring r) as mr eqn:Hmr.
  destruct r as [|b [|u r1]]; try exact Hr.
  destruct ((b =? 92)%N && (u =? 117)%N); [|exact Hr].
  destruct r1 as [|g1 [|g2 [|g3 [|g4 r2]]]]; try apply shrinks_fail.
  destruct (decode_uXXXX g1 g2 g3 g4) as [uni2|]; [|apply shrinks_fail].
  destruct ((56320 <=? uni2)%N && (uni2 <=? 57343)%N); [|exact Hr].
  apply shrinks_cons, IH'. simpl. lia.
Qed.

Section ItemsFed.
Variable scan : str -> Json.scan (json * str).
Variable L : nat.
Hypothesis scan_fed : forall s, (length s < L)%nat -> shrinks s (scan s).

Lemma array_items_fed n s values :
  (length s < n)%nat -> (length s < L)%nat ->
  shrinks s (array_items scan n s values).
Proof.
  revert s values. induction n as [|n IH]; intros s values Hn HL; [lia|].
  simpl. unfold mbind, scan_bind.
  destruct (scan_fed s HL) as [Hst Hlen].
  destruct (scan s) as [[v s1]| |]; [|apply shrinks_fail|done].
  specialize (Hlen v s1 eq_refl).
  pose proof (skip_ws_length s1) as Hs1.
  destruct (skip_ws s1) as [|c s2]; [apply shrinks_fail|]. simpl in Hs1.
  destruct (c =? 93)%N; [apply shrinks_done; lia|].
  destruct (c =? 44)%N; [|apply shrinks_fail].
  pose proof (skip_ws_length s2) as Hs2.
  apply (shrinks_longer s (skip_ws s2)); [apply IH|]; lia.
Qed.

Lemma JSONArray_fed c s :
  (length s < L)%nat -> shrinks (c :: s) (JSONArray scan s).
Proof.
  intros HL. unfold JSONArray. pose proof (skip_ws_length s) as Hs.
  destruct (startswith (skip_ws s) [93%N]) eqn:E.
  - apply shrinks_done. rewrite length_drop. simpl. lia.
  - apply (shrinks_longer (c :: s) (skip_ws s));
      [apply array_items_fed|simpl]; lia.
Qed.

Lemma object_items_fed n s pairs :
  (length s < n)%nat -> (length s < L)%nat ->
  shrinks s (object_items scan n s pairs).
Proof.
  revert s pairs. induction n as [|n IH]; intros s pairs Hn HL; [lia|].
  simpl. unfold mbind, scan_bind.
  destruct (scanstring_shrinks s) as [Hst Hlen].
  destruct (scanstring s) as [[key s1]| |]; [|apply shrinks_fail|done].
  specialize (Hlen key s1 eq_refl).
  pose proof (skip_ws_length s1) as Hs1.
  destruct (skip_ws s1) as [|colon s2]; [apply shrinks_fail|]. simpl in Hs1.
  destruct (colon =? 58)%N; [|apply shrinks_fail].
  pose proof (skip_ws_length s2) as Hs2.
  destruct (scan_fed (skip_ws s2) ltac:(lia)) as [Hst2 Hlen2].
  destruct (scan (skip_ws s2)) as [[v s3]| |]; [|apply shrinks_fail|done].
  specialize (Hlen2 v s3 eq_refl).
  pose proof (skip_ws_length s3) as Hs3.
  destruct (skip_ws s3) as [|nextchar s4]; [apply shrinks_fail|]. simpl in Hs3.
  destruct (nextchar =? 125)%N; [apply shrinks_done; lia|].
  destruct (nextchar =? 44)%N; [|apply shrinks_fail].
  pose proof (skip_ws_length s4) as Hs4.
  destruct (skip_ws s4) as [|quote s5]; [apply shrinks_fail|]. simpl in Hs4.
  destruct (quote =? 34)%N; [|apply shrinks_fail].
  apply (shrinks_longer s s5); [apply IH|]; lia.
Qed.

Lemma JSONObject_fed c s :
  (length s < L)%nat -> shrinks (c :: s) (JSONObject scan s).
Proof.
  intros HL. unfold JSONObject. pose proof (skip_ws_length s) as Hs.
  destruct (skip_ws s) as [|nextchar r]; [apply shrinks_fail|]. simpl in Hs.
  destruct (nextchar =? 125)%N; [apply shrinks_done; simpl; lia|].
  destruct (nextchar =? 34)%N; [|apply shrinks_fail].
  apply (shrinks_longer (c :: s) r); [apply object_items_fed|simpl]; lia.
Qed.
End ItemsFed.

Lemma scan_once_shrinks f s : (length s < f)%nat -> shrinks s (scan_once f s).
Proof.
  revert s. induction f as [|f IH]; intros s Hf; [lia|].
  destruct s as [|c s]; [apply shrinks_fail|]. simpl in Hf.
  cbn [scan_once].
  destruct (c =? 34)%N.
  { unfold mbind, scan_bind. destruct (scanstring_shrinks s) as [Hst Hlen].
    destruct (scanstring s) as [[k r]| |]; [|apply shrinks_fail|done].
    apply shrinks_done. specialize (Hlen k r eq_refl). simpl. lia. }
  destruct (c =? 123)%N; [apply (JSONObject_fed _ f IH); lia|].
  destruct (c =? 91)%N; [apply (JSONArray_fed _ f IH); lia|].
  assert (Hdrop : forall kw, startswith (c :: s) kw = true -> kw <> [] ->
                             (length (drop (length kw) (c :: s)) < length (c :: s))%nat).
  { intros kw _ Hkw. rewrite length_drop. destruct kw; [done|]. simpl. lia. }
  destruct (startswith (c :: s) kw_null) eqn:E1;
    [apply shrinks_done, (Hdrop kw_null E1); discriminate|].
  destruct (startswith (c :: s) kw_true) eqn:E2;
    [apply shrinks_done, (Hdrop kw_true E2); discriminate|].
  destruct (startswith (c :: s) kw_false) eqn:E3;
    [apply shrinks_done, (Hdrop kw_false E3); discriminate|].
  destruct (match_number (c :: s)) as [[[[i fr] e] r]|] eqn:En.
  { apply match_number_length in En. destruct fr, e; by apply shrinks_done. }
  destruct (startswith (c :: s) kw_NaN) eqn:E4;
    [apply shrinks_done, (Hdrop kw_NaN E4); discriminate|].
  destruct (startswith (c :: s) kw_Infinity) eqn:E5;
    [apply shrinks_done, (Hdrop kw_Infinity E5); discriminate|].
  destruct (startswith (c :: s) kw_minus_Infinity) eqn:E6;
    [apply shrinks_done, (Hdrop kw_minus_Infinity E6); discriminate|].
  apply shrinks_fail.
Qed.

(** [loads] never runs out of fuel: its [Starved] branch is dead. *)
Lemma scan_once_fed s : scan_once (S (length s)) s <> Starved.
Proof. apply (scan_once_shrinks (S (length s)) s). lia. Qed.

(** ** C5: fences around a JSON text *)

Lemma is_ws_isspace c : is_ws c = true -> isspace c = true.
Proof. intros [-> | [-> | [-> | ->]]]%is_ws_cases; reflexivity. Qed.

Lemma is_ws_not_backtick c : is_ws c = true -> (96 =? c)%N = false.
Proof. intros [-> | [-> | [-> | ->]]]%is_ws_cases; reflexivity. Qed.

Lemma lstrip_length s : (length (lstrip s) <= length s)%nat.
Proof. induction s as [|c s IH]; simpl; [lia|]. destruct (isspace c); simpl; lia. Qed.

Lemma rstrip_length s : (length (rstrip s) <= length s)%nat.
Proof.
  induction s as [|c s IH]; simpl; [lia|].
  destruct (rstrip s); [destruct (isspace c)|]; simpl in *; lia.
Qed.

Lemma lstrip_blank_app w s :
  Forall (fun c => is_ws c = true) w -> lstrip (w ++ s) = lstrip s.
Proof.
  induction 1 as [|c w Hc _ IH]; simpl; [reflexivity|].
  by rewrite (is_ws_isspace c Hc).
Qed.

Lemma rstrip_blank w : Forall (fun c => is_ws c = true) w -> rstrip w = [].
Proof.
  induction 1 as [|c w Hc _ IH]; simpl; [reflexivity|].
  by rewrite IH, (is_ws_isspace c Hc).
Qed.

Lemma rstrip_app_blank s w :
  Forall (fun c => is_ws c = true) w -> rstrip (s ++ w) = rstrip s.
Proof.
  intros Hw. induction s as [|c s IH]; simpl; [by apply rstrip_blank|].
  by rewrite IH.
Qed.

Lemma rstrip_app_nonspace s a : isspace a = false -> rstrip (s ++ [a]) = s ++ [a].
Proof.
  intros Ha. induction s as [|c s IH]; simpl; [by rewrite Ha|].
  rewrite IH. by destruct (s ++ [a]) eqn:E; [destruct s; discriminate|].
Qed.

(** A text that [strip] leaves alone starts with a character that is not a
    space, and [rstrip] leaves it alone too. *)
Lemma strip_fixed c0 c :
  strip (c0 :: c) = c0 :: c -> isspace c0 = false /\ rstrip (c0 :: c) = c0 :: c.
Proof.
  unfold strip. simpl lstrip. destruct (isspace c0) eqn:E; [|auto].
  intros H. pose proof (rstrip_length (lstrip c)) as H1.
  pose proof (lstrip_length c) as H2. rewrite H in H1. simpl in H1. lia.
Qed.

Lemma strip_padded w1 c w2 :
  Forall (fun c => is_ws c = true) w1 -> Forall (fun c => is_ws c = true) w2 ->
  strip c = c -> strip (w1 ++ c ++ w2) = c.
Proof.
  intros H1 H2 Hc. unfold strip. rewrite lstrip_blank_app by assumption.
  destruct c as [|c0 c].
  - simpl. assert (lstrip w2 = []) as ->; [|reflexivity].
    rewrite <- (app_nil_r w2). rewrite lstrip_blank_app by assumption. reflexivity.
  - destruct (strip_fixed c0 c Hc) as [Hc0 Hr].
    change ((c0 :: c) ++ w2) with (c0 :: (c ++ w2)). simpl lstrip. rewrite Hc0.
    change (c0 :: (c ++ w2)) with ((c0 :: c) ++ w2).
    by rewrite rstrip_app_blank.
Qed.

Lemma strip_fenced t : strip (fenced t) = fenced t.
Proof.
  unfold strip.
  assert (lstrip (fenced t) = fenced t) as -> by reflexivity.
  unfold fenced.
  change (FENCE_JSON ++ NL ++ t ++ NL ++ FENCE)
    with (FENCE_JSON ++ NL ++ t ++ NL ++ [96%N; 96%N] ++ [96%N]).
  rewrite !app_assoc. by apply rstrip_app_nonspace.
Qed.

Lemma startswith_fence_app s d u :
  (96 =? d)%N = false ->
  startswith (s ++ d :: u) FENCE = true -> startswith s FENCE = true.
Proof.
  intros Hd. unfold FENCE.
  destruct s as [|a [|b [|c s]]]; cbn [startswith app]; rewrite ?Hd;
    cbn [andb]; rewrite ?andb_false_r; try discriminate; auto.
Qed.

Section ReplaceFence.
Variable old : str.
Hypothesis old_backtick : exists old', old = 96%N :: old'.
Hypothesis old_fence : forall s, startswith s old = true -> startswith s FENCE = true.

Lemma replace_scan_other a s :
  (96 =? a)%N = false ->
  replace_scan old [] 0 (a :: s) = a :: replace_scan old [] 0 s.
Proof.
  intros Ha. destruct old_backtick as [old' ->].
  cbn [replace_scan startswith]. by rewrite Ha.
Qed.

Lemma replace_scan_blank w s :
  Forall (fun c => is_ws c = true) w ->
  replace_scan old [] 0 (w ++ s) = w ++ replace_scan old [] 0 s.
Proof.
  induction 1 as [|c w Hc _ IH]; [reflexivity|].
  change ((c :: w) ++ s) with (c :: (w ++ s)).
  rewrite replace_scan_other by (by apply is_ws_not_backtick). by rewrite IH.
Qed.

Lemma replace_scan_clean c d u :
  contains c FENCE = false -> (96 =? d)%N = false ->
  replace_scan old [] 0 (c ++ d :: u) = c ++ replace_scan old [] 0 (d :: u).
Proof.
  intros Hc Hd. induction c as [|a c IH]; [reflexivity|].
  cbn [contains] in Hc. apply orb_false_elim in Hc as [Hs Hc].
  change ((a :: c) ++ d :: u) with (a :: (c ++ d :: u)).
  cbn [replace_scan].
  destruct (startswith (a :: c ++ d :: u) old) eqn:E.
  - apply old_fence in E.
    apply (startswith_fence_app (a :: c) d u Hd) in E. congruence.
  - by rewrite IH.
Qed.

Lemma replace_scan_padded w1 c w2 tail :
  Forall (fun c => is_ws c = true) w1 -> Forall (fun c => is_ws c = true) w2 ->
  w2 <> [] -> contains c FENCE = false ->
  replace_scan old [] 0 (w1 ++ c ++ w2 ++ tail)
  = w1 ++ c ++ w2 ++ replace_scan old [] 0 tail.
Proof.
  intros H1 H2 Hne Hc. rewrite replace_scan_blank by assumption.
  destruct w2 as [|d w2]; [done|].
  change ((d :: w2) ++ tail) with (d :: (w2 ++ tail)).
  rewrite replace_scan_clean by
    (assumption || (apply is_ws_not_backtick; by inversion H2)).
  change (d :: (w2 ++ tail)) with ((d :: w2) ++ tail).
  by rewrite replace_scan_blank.
Qed.
End ReplaceFence.

Lemma startswith_prefix s p q :
  startswith s (p ++ q) = true -> startswith s p = true.
Proof.
  revert s. induction p as [|a p IH]; intros s; [reflexivity|].
  destruct s as [|b s]; simpl; [discriminate|].
  intros [-> H]%andb_prop. simpl. by apply IH.
Qed.

(** What lines 86 to 88 make of a fenced text without fences inside. *)
Lemma strip_fences_fenced w1 c w2 :
  Forall (fun c => is_ws c = true) w1 -> Forall (fun c => is_ws c = true) w2 ->
  contains c FENCE = false ->
  strip_fences (fenced (w1 ++ c ++ w2)) = (NL ++ w1) ++ c ++ (w2 ++ NL).
Proof.
  intros H1 H2 Hc. unfold strip_fences. rewrite strip_fenced.
  assert (Hstart : startswith (fenced (w1 ++ c ++ w2)) FENCE = true) by reflexivity.
  rewrite Hstart.
  assert (Hnl1 : Forall (fun c => is_ws c = true) (NL ++ w1)).
  { apply Forall_app. split; [by repeat constructor|assumption]. }
  assert (Hnl2 : Forall (fun c => is_ws c = true) (w2 ++ NL)).
  { apply Forall_app. split; [assumption|by repeat constructor]. }
  assert (Hne : w2 ++ NL <> []) by (by destruct w2).
  assert (Hfirst : replace (fenced (w1 ++ c ++ w2)) FENCE_JSON []
                   = (NL ++ w1) ++ c ++ (w2 ++ NL) ++ FENCE).
  { transitivity (replace_scan FENCE_JSON [] 0
                    ((NL ++ w1) ++ c ++ (w2 ++ NL) ++ FENCE)).
    - unfold fenced. rewrite <- !app_assoc. reflexivity.
    - rewrite (replace_scan_padded FENCE_JSON) by
        (eauto || (intros s Hs; by apply (startswith_prefix s FENCE (lit "json")))).
      reflexivity. }
  rewrite Hfirst.
  transitivity (replace_scan FENCE [] 0 ((NL ++ w1) ++ c ++ (w2 ++ NL) ++ FENCE));
    [reflexivity|].
  rewrite (replace_scan_padded FENCE) by (eauto || (intros s Hs; exact Hs)).
  simpl replace_scan. by rewrite app_nil_r.
Qed.

Lemma contains_startswith c p : contains c p = false -> startswith c p = false.
Proof. destruct c; cbn [contains]; by intros [H _]%orb_false_elim. Qed.

(** C5, as stated, fails: a JSON text whose feedback quotes code between
    fence markers is accepted by [json.loads], but once it is wrapped in a
    fence the worker deletes the markers inside the string as well, and the
    parsed feedback differs. *)
Lemma C5_fence_inside_feedback_is_lost :
  loads (jlit "{'score':90,'feedback':'use ```print(1)```'}")
  = inr (JObj [(KEY_SCORE, JInt 90);
               (KEY_FEEDBACK, JStr (lit "use ```print(1)```"))])
  /\ parse_response (fenced (jlit "{'score':90,'feedback':'use ```print(1)```'}"))
     = inr (JObj [(KEY_SCORE, JInt 90);
                  (KEY_FEEDBACK, JStr (lit "use print(1)"))])
  /\ parse_response (fenced (jlit "{'score':90,'feedback':'use ```print(1)```'}"))
     <> parse_response (jlit "{'score':90,'feedback':'use ```print(1)```'}").
Proof.
  split; [vm_compute; reflexivity|]. split; [vm_compute; reflexivity|].
  vm_compute. discriminate.
Qed.

(** C5, amended. Let [c] be a JSON text without whitespace at its ends that
    [json.loads] decodes to [v] and that contains no fence marker, and let
    [t] be [c] with any JSON whitespace before and after it. Then parsing
    [t] directly, passing [t] through the worker's strip-and-parse step, and
    passing [t] wrapped in a fence tagged json through that step all give
    [v]. *)
Theorem C5_fenced_text_parses_alike (w1 c w2 : str) (v : json) :
  Forall (fun a => is_ws a = true) w1 ->
  Forall (fun a => is_ws a = true) w2 ->
  strip c = c ->
  loads c = inr v ->
  contains c FENCE = false ->
  let t := w1 ++ c ++ w2 in
  loads t = inr v
  /\ parse_response t = inr v
  /\ parse_response (fenced t) = inr v.
Proof.
  intros H1 H2 Hs Hv Hc t. split; [by apply loads_padded|]. split.
  - unfold parse_response, strip_fences, t.
    rewrite strip_padded by assumption.
    by rewrite (contains_startswith c FENCE Hc).
  - unfold parse_response, t. rewrite strip_fences_fenced by assumption.
    apply loads_padded; [|by apply Forall_app; split; [|repeat constructor]|exact Hv].
    apply Forall_app. split; [by repeat constructor|assumption].
Qed.

Lemma C5_fenced_text_witness :
  strip (jlit "{'score':90,'feedback':'good'}") = jlit "{'score':90,'feedback':'good'}"
  /\ contains (jlit "{'score':90,'feedback':'good'}") FENCE = false
  /\ parse_response (fenced (NL ++ jlit "{'score':90,'feedback':'good'}" ++ NL))
     = inr (JObj [(KEY_SCORE, JInt 90); (KEY_FEEDBACK, JStr (lit "good"))]).
Proof.
  split; [vm_compute; reflexivity|]. split; [vm_compute; reflexivity|].
  apply (C5_fenced_text_parses_alike NL (jlit "{'score':90,'feedback':'good'}") NL).
  - repeat constructor.
  - repeat constructor.
  - vm_compute. reflexivity.
  - vm_compute. reflexivity.
  - vm_compute. reflexivity.
Defined.

(** * Further properties of the handlers *)

(** ** activate_class *)

(** X1. After [POST /api/admin/activate] the classrooms are the same rows with
    the same course, name and chapter, and a classroom is active exactly
    when it is the one named by the request: at most one classroom is
    active, and none when the request names a classroom that does not
    exist. The other tables, the queue and the log are untouched. *)
Theorem activate_class_leaves_one_active (req : ActivateClassRequest) (w : World) :
  let w' := snd (activate_class req w) in
  fst (activate_class req w) = inr ()
  /\ (forall id,
        match classrooms (db w) !! id, classrooms (db w') !! id with
        | Some c, Some c' =>
            Classroom.course_id c' = Classroom.course_id c
            /\ Classroom.name c' = Classroom.name c
            /\ Classroom.active_chapter c' = Classroom.active_chapter c
            /\ Classroom.is_active c' = bool_decide (id = activate_classroom_id req)
        | None, None => True
        | _, _ => False
        end)
  /\ courses (db w') = courses (db w)
  /\ students (db w') = students (db w)
  /\ submissions (db w') = submissions (db w)
  /\ queue w' = queue w
  /\ unfinished_tasks w' = unfinished_tasks w
  /\ events w' = events w.
Proof.
  simpl. split; [reflexivity|]. split; [|by repeat split].
  intros id.
  destruct (decide (activate_classroom_id req = id)) as [<-|Hne].
  - rewrite lookup_alter_eq, lookup_fmap.
    destruct (classrooms (db w) !! activate_classroom_id req) as [c|]; simpl; [|done].
    by rewrite bool_decide_eq_true_2.
  - rewrite lookup_alter_ne, lookup_fmap by done.
    destruct (classrooms (db w) !! id) as [c|]; simpl; [|done].
    rewrite bool_decide_eq_false_2 by (intros ->; done). done.
Qed.

Lemma list_singleton_char {A} (l : list A) (a : A) :
  NoDup l -> (forall x, x ∈ l <-> x = a) -> l = [a].
Proof.
  intros Hnd H. destruct l as [|x l].
  - assert (Ha : a ∈ @nil A) by (by apply H). by apply not_elem_of_nil in Ha.
  - assert (x = a) as -> by (apply H, list_elem_of_here).
    destruct l as [|y l]; [reflexivity|].
    assert (y = a) as -> by (apply H, list_elem_of_further, list_elem_of_here).
    apply NoDup_cons in Hnd as [Hnotin _]. destruct Hnotin. apply list_elem_of_here.
Qed.

Lemma list_empty_char {A} (l : list A) : (forall x, x ∉ l) -> l = [].
Proof. destruct l as [|x l]; [done|]. intros H. destruct (H x). apply list_elem_of_here. Qed.


(** ** The catalogs built at import time *)

Lemma str_ltb_trans a b c :
  str_ltb a b = true -> str_ltb b c = true -> str_ltb a c = true.
Proof.
  revert b c. induction a as [|x a IH]; intros [|y b] [|z c]; simpl; try done.
  intros H1 H2.
  apply orb_prop in H1 as [H1|[H1 H1']%andb_prop];
    apply orb_prop in H2 as [H2|[H2 H2']%andb_prop];
    rewrite ?N.ltb_lt, ?N.eqb_eq in *; apply orb_true_iff.
  - left. apply N.ltb_lt. lia.
  - left. apply N.ltb_lt. lia.
  - left. apply N.ltb_lt. lia.
  - right. apply andb_true_iff. split; [apply N.eqb_eq; lia|]. by apply (IH b c).
Qed.

Lemma str_ltb_total a b :
  a <> b -> str_ltb a b = false -> str_ltb b a = true.
Proof.
  revert b. induction a as [|x a IH]; intros [|y b]; simpl; try done.
  intros Hne H. apply orb_false_elim in H as [H1 H2].
  apply N.ltb_ge in H1. apply orb_true_iff.
  destruct (N.eq_dec x y) as [->|Hxy].
  - right. rewrite N.eqb_refl in *. simpl in *. apply IH; [|exact H2].
    intros ->. done.
  - left. apply N.ltb_lt. lia.
Qed.

Lemma str_ltb_irrefl a : str_ltb a a = false.
Proof.
  induction a as [|x a IH]; simpl; [reflexivity|].
  by rewrite N.ltb_irrefl, N.eqb_refl, IH.
Qed.

Lemma sorted_insert_elem x y l : y ∈ sorted_insert x l <-> y = x \/ y ∈ l.
Proof.
  induction l as [|z l IH]; simpl.
  - rewrite list_elem_of_singleton. split; [auto|]. intros [H|H]; [done|].
    by apply not_elem_of_nil in H.
  - case_bool_decide as Hxz.
    + subst z. rewrite elem_of_cons. tauto.
    + destruct (str_ltb x z).
      * rewrite elem_of_cons. tauto.
      * rewrite !elem_of_cons, IH. tauto.
Qed.

Lemma sorted_insert_sorted x l :
  StronglySorted (fun a b => str_ltb a b = true) l ->
  StronglySorted (fun a b => str_ltb a b = true) (sorted_insert x l).
Proof.
  induction 1 as [|z l Hs IH Hall]; simpl.
  - repeat constructor.
  - case_bool_decide as Hxz; [by constructor|].
    destruct (str_ltb x z) eqn:E.
    + constructor; [by constructor|]. constructor; [exact E|].
      eapply Forall_impl; [exact Hall|]. simpl. intros w Hw.
      by apply (str_ltb_trans x z w).
    + constructor; [exact IH|]. apply Forall_forall. intros w Hw.
      apply sorted_insert_elem in Hw as [->|Hw].
      * by apply str_ltb_total.
      * rewrite Forall_forall in Hall. by apply Hall.
Qed.

Lemma sorted_set_elem x l : x ∈ sorted_set l <-> x ∈ l.
Proof.
  induction l as [|y l IH]; simpl; [reflexivity|].
  rewrite sorted_insert_elem, elem_of_cons, IH. tauto.
Qed.

Lemma sorted_set_sorted l :
  StronglySorted (fun a b => str_ltb a b = true) (sorted_set l).
Proof.
  induction l as [|y l IH]; simpl; [constructor|]. by apply sorted_insert_sorted.
Qed.

(** X3. [CHAPTERS_BY_COURSE] has one entry for each course of
    [PROBLEMS_BY_COURSE], in the same order. The chapters of an entry are in
    strictly increasing code-point order, so none is repeated, and they are
    exactly the chapters of the course's problems, with "Unknown" standing
    for a problem that has no chapter. *)
Theorem chapters_sorted_and_complete (raw : RawData) :
  List.map fst (CHAPTERS_BY_COURSE raw) = List.map fst (PROBLEMS_BY_COURSE raw)
  /\ forall i name chapters,
       CHAPTERS_BY_COURSE raw !! i = Some (name, chapters) ->
       StronglySorted (fun a b => str_ltb a b = true) chapters
       /\ NoDup chapters
       /\ exists problems,
           PROBLEMS_BY_COURSE raw !! i = Some (name, problems)
           /\ forall ch,
                ch ∈ chapters
                <-> exists p, p ∈ problems
                              /\ default UNKNOWN (Problem.chapter p) = ch.
Proof.
  unfold CHAPTERS_BY_COURSE. split.
  - rewrite map_map. reflexivity.
  - intros i name chapters Hi.
    change (List.map ?f ?l) with (f <$> l) in Hi.
    rewrite list_lookup_fmap in Hi.
    destruct (PROBLEMS_BY_COURSE raw !! i) as [[name' problems]|] eqn:E;
      [|discriminate].
    simpl in Hi. injection Hi as <- <-.
    pose proof (sorted_set_sorted
                  (List.map (fun p => default UNKNOWN (Problem.chapter p)) problems))
      as Hs.
    split; [exact Hs|]. split.
    + clear -Hs. induction Hs as [|a l Hs IH Hall]; constructor; [|exact IH].
      intros Ha. rewrite Forall_forall in Hall. specialize (Hall a Ha).
      by rewrite str_ltb_irrefl in Hall.
    + exists problems. split; [reflexivity|]. intros ch.
      rewrite sorted_set_elem, list_elem_of_In, in_map_iff. split.
      * intros (p & Hp & Hin). exists p. by rewrite list_elem_of_In.
      * intros (p & Hin & Hp). exists p. by rewrite <- list_elem_of_In.
Qed.

(** ** The problems of the active chapter *)

Lemma target_problems_key_error ch ps p :
  p ∈ ps -> Problem.chapter p = None -> target_problems ch ps = inl KeyError.
Proof.
  induction ps as [|q ps IH]; intros Hin Hp; [by apply not_elem_of_nil in Hin|].
  cbn [target_problems]. destruct (Problem.chapter q) as [c|] eqn:E; [|reflexivity].
  simpl. apply elem_of_cons in Hin as [-> | Hin]; [congruence|].
  by rewrite (IH Hin Hp).
Qed.

Lemma chapters_of_course raw name :
  assoc_get (CHAPTERS_BY_COURSE raw) name []
  = sorted_set (List.map (fun p => default UNKNOWN (Problem.chapter p))
                         (assoc_get (PROBLEMS_BY_COURSE raw) name [])).
Proof.
  unfold CHAPTERS_BY_COURSE.
  induction (PROBLEMS_BY_COURSE raw) as [|[k ps] l IH]; [reflexivity|].
  simpl. case_bool_decide; [reflexivity|exact IH].
Qed.

(** X4. A problem of problems.yaml that has no [chapter] key is filed by the
    loader under the chapter "Unknown", but the two views subscript the
    key: for every class of the problem's course [GET /api/status] fails
    with a KeyError, and so does [GET /api/problems] for every student of
    such a class, whatever the class's active chapter is. *)
Theorem chapterless_problem_breaks_views
  (raw : RawData) (order : list (Z * Submission.t) -> list (Z * Submission.t))
  (d : DB) (cid : Z) (classroom : Classroom.t) (course : Course.t) (p : Problem.t) :
  classrooms d !! cid = Some classroom ->
  courses d !! Classroom.course_id classroom = Some course ->
  p ∈ assoc_get (PROBLEMS_BY_COURSE raw) (Course.name course) [] ->
  Problem.chapter p = None ->
  UNKNOWN ∈ assoc_get (CHAPTERS_BY_COURSE raw) (Course.name course) []
  /\ get_status raw order cid d = inl KeyError
  /\ forall sid student,
       students d !! sid = Some student ->
       Student.classroom_id student = cid ->
       get_problems raw order sid d = inl KeyError.
Proof.
  intros Hc Hcourse Hin Hp. split; [|split].
  - rewrite chapters_of_course, sorted_set_elem, list_elem_of_In, in_map_iff.
    exists p. rewrite Hp. split; [reflexivity|]. by apply list_elem_of_In.
  - unfold get_status. rewrite Hc, Hcourse. simpl.
    by rewrite (target_problems_key_error _ _ p Hin Hp).
  - intros sid student Hs Hcid. unfold get_problems. rewrite Hs, Hcid, Hc. simpl.
    rewrite Hcourse. simpl.
    by rewrite (target_problems_key_error _ _ p Hin Hp).
Qed.

Lemma chapterless_problem_breaks_views_witness :
  UNKNOWN ∈ assoc_get (CHAPTERS_BY_COURSE chapterless_raw) DEFAULT_COURSE []
  /\ get_status chapterless_raw sort_desc 1 sample_db = inl KeyError
  /\ get_problems chapterless_raw sort_desc 1 sample_db = inl KeyError.
Proof.
  destruct (chapterless_problem_breaks_views chapterless_raw sort_desc sample_db 1
              {| Classroom.course_id := 1; Classroom.name := lit "1-1";
                 Classroom.active_chapter := lit "ch1"; Classroom.is_active := false |}
              {| Course.name := DEFAULT_COURSE |}
              (Problem.with_course_name DEFAULT_COURSE chapterless_problem))
    as (H1 & H2 & H3).
  - vm_compute. reflexivity.
  - vm_compute. reflexivity.
  - vm_compute. apply list_elem_of_In. right. left. reflexivity.
  - reflexivity.
  - split; [exact H1|]. split; [exact H2|].
    eapply H3; vm_compute; reflexivity.
Defined.

(** X5. [POST /api/admin/progress] for a class that is stored answers with
    success and changes nothing but that class's active chapter.  When the
    class's course is stored and each of its problems has a chapter, the
    two views then show the new chapter: [GET /api/status] reports it with
    exactly the course's problems of that chapter, in file order, and, up
    to their order, one row for each student of the class; [GET /api/problems] gives a student
    of the class the same chapter and the same problems. *)
Theorem update_progress_then_views
  (raw : RawData) (order : list (Z * Submission.t) -> list (Z * Submission.t))
  (req : ProgressUpdateRequest) (w : World) (c : Classroom.t) (course : Course.t) :
  classrooms (db w) !! progress_classroom_id req = Some c ->
  courses (db w) !! Classroom.course_id c = Some course ->
  let course_problems := assoc_get (PROBLEMS_BY_COURSE raw) (Course.name course) [] in
  let shown :=
    filter (fun p => Problem.chapter p = Some (progress_active_chapter req))
           course_problems in
  Forall (fun p => Problem.chapter p <> None) course_problems ->
  let w' := snd (update_progress req w) in
  fst (update_progress req w) = inr ()
  /\ (forall id, id <> progress_classroom_id req ->
                 classrooms (db w') !! id = classrooms (db w) !! id)
  /\ (exists c', classrooms (db w') !! progress_classroom_id req = Some c'
                 /\ Classroom.active_chapter c' = progress_active_chapter req
                 /\ Classroom.course_id c' = Classroom.course_id c
                 /\ Classroom.name c' = Classroom.name c
                 /\ Classroom.is_active c' = Classroom.is_active c)
  /\ courses (db w') = courses (db w)
  /\ students (db w') = students (db w)
  /\ submissions (db w') = submissions (db w)
  /\ queue w' = queue w
  /\ (exists report,
        get_status raw order (progress_classroom_id req) (db w') = inr report
        /\ report_chapter report = Some (progress_active_chapter req)
        /\ report_problems report = shown
        /\ List.map row_info (report_students report)
           ≡ₚ List.map (fun s => Student.student_number (snd s) ++ [32%N]
                                 ++ Student.name (snd s))
                (filter (fun kv => Student.classroom_id (snd kv)
                                   = progress_classroom_id req)
                        (map_to_list (students (db w)))))
  /\ forall sid student,
       students (db w) !! sid = Some student ->
       Student.classroom_id student = progress_classroom_id req ->
       exists problems,
         get_problems raw order sid (db w')
         = inr (progress_active_chapter req, problems)
         /\ List.map fst problems = shown.
Proof.
  intros Hc Hcourse course_problems shown Hall w'.
  subst w'. unfold update_progress. rewrite Hc.
  destruct w as [d q u ev]. simpl in *.
  split; [reflexivity|]. split.
  { intros id Hid. by rewrite lookup_insert_ne. }
  split.
  { eexists. rewrite lookup_insert_eq. split; [reflexivity|]. simpl. done. }
  do 4 (split; [reflexivity|]).
  split.
  - unfold get_status. simpl. rewrite lookup_insert_eq. simpl.
    rewrite Hcourse. simpl.
    fold course_problems. rewrite (target_problems_ok _ _ Hall). simpl.
    eexists. split; [reflexivity|]. simpl. split; [reflexivity|].
    split; [reflexivity|]. rewrite map_map. reflexivity.
  - intros sid student Hs Hcid. unfold get_problems. simpl. rewrite Hs, Hcid.
    rewrite lookup_insert_eq. simpl. rewrite Hcourse. simpl.
    fold course_problems. rewrite (target_problems_ok _ _ Hall). simpl.
    eexists. split; [reflexivity|]. rewrite map_map. simpl. apply map_id.
Qed.

Lemma update_progress_then_views_witness :
  exists report,
    get_status two_chapter_raw sort_desc 1
      (db (snd (update_progress
                  {| progress_classroom_id := 1; progress_active_chapter := lit "ch2" |}
                  {| db := sample_db; queue := []; unfinished_tasks := 0; events := [] |})))
    = inr report
    /\ report_chapter report = Some (lit "ch2")
    /\ report_problems report
       = [Problem.with_course_name DEFAULT_COURSE second_problem]
    /\ List.map row_info (report_students report)
       ≡ₚ [lit "1101" ++ [32%N] ++ lit "Kim"].
Proof.
  destruct (update_progress_then_views two_chapter_raw sort_desc
              {| progress_classroom_id := 1; progress_active_chapter := lit "ch2" |}
              {| db := sample_db; queue := []; unfinished_tasks := 0; events := [] |}
              {| Classroom.course_id := 1; Classroom.name := lit "1-1";
                 Classroom.active_chapter := lit "ch1"; Classroom.is_active := false |}
              {| Course.name := DEFAULT_COURSE |})
    as (_ & _ & _ & _ & _ & _ & _ & (report & H1 & H2 & H3 & H4) & _).
  - vm_compute. reflexivity.
  - vm_compute. reflexivity.
  - vm_compute. repeat constructor; discriminate.
  - exists report. split; [exact H1|]. split; [exact H2|]. split.
    + rewrite H3. vm_compute. reflexivity.
    + rewrite H4. vm_compute. reflexivity.
Defined.

(** ** [POST /api/login] *)

Lemma head_filter_none {A} (P : A -> Prop) `{!forall x, Decision (P x)} (l : list A) :
  head (filter P l) = None -> forall x, x ∈ l -> ~ P x.
Proof.
  intros Hh x Hx HP.
  assert (Hin : x ∈ filter P l) by (by apply list_elem_of_filter).
  destruct (filter P l); [by apply not_elem_of_nil in Hin|discriminate].
Qed.

Lemma head_filter_some {A} (P : A -> Prop) `{!forall x, Decision (P x)} (l : list A) x :
  head (filter P l) = Some x -> x ∈ l /\ P x.
Proof.
  intros Hh.
  assert (Hin : x ∈ filter P l).
  { destruct (filter P l) as [|y l']; [discriminate|]. injection Hh as ->.
    apply list_elem_of_here. }
  apply list_elem_of_filter in Hin. tauto.
Qed.

(** What a login writes: one student row, under the id [id].  Either no
    stored student had the request's student number, and the row is new,
    under a fresh id, with the clock reading as its creation time; or the
    row replaces a stored one that had this number, keeping its id and its
    creation time.  In both cases the row carries the request's class,
    number and name. *)
Lemma login_students now req w :
  exists id s,
    students (db (snd (login now req w))) = <[id := s]> (students (db w))
    /\ Student.classroom_id s = login_classroom_id req
    /\ Student.student_number s = login_student_number req
    /\ Student.name s = login_name req
    /\ match students (db w) !! id with
       | None =>
           id = next_id (students (db w))
           /\ Student.created_at s = now
           /\ forall i a, students (db w) !! i = Some a ->
                          Student.student_number a <> login_student_number req
       | Some old =>
           Student.student_number old = login_student_number req
           /\ Student.created_at s = Student.created_at old
       end.
Proof.
  unfold login.
  destruct (head _) as [[id old]|] eqn:E.
  - apply head_filter_some in E as [Hin Hnum]. simpl in Hnum.
    apply elem_of_map_to_list in Hin.
    eexists id, _. simpl. split; [reflexivity|]. simpl.
    rewrite Hin. auto.
  - pose proof (head_filter_none _ _ E) as Hnone.
    eexists (next_id (students (db w))), _. simpl. split; [reflexivity|]. simpl.
    rewrite next_id_fresh. repeat split; try reflexivity.
    intros i a Hi. apply (Hnone (i, a)). by apply elem_of_map_to_list.
Qed.

Lemma login_keeps_numbers_unique now req w :
  unique_student_numbers (db w) ->
  unique_student_numbers (db (snd (login now req w))).
Proof.
  intros Hu. unfold unique_student_numbers.
  destruct (login_students now req w) as (id & s & -> & _ & Hnum & _ & Hold).
  assert (Hclash : forall j b, j <> id -> students (db w) !! j = Some b ->
                               Student.student_number b <> login_student_number req).
  { intros j b Hj Hb Heq.
    destruct (students (db w) !! id) as [old|] eqn:Hid.
    - destruct Hold as [Hold _]. apply Hj. apply (Hu j id b old Hb Hid). congruence.
    - destruct Hold as (_ & _ & Hnone). by apply (Hnone j b). }
  intros i j a b Ha Hb Heq.
  destruct (decide (i = id)) as [->|Hi]; destruct (decide (j = id)) as [->|Hj];
    try reflexivity.
  - rewrite lookup_insert_eq in Ha. rewrite lookup_insert_ne in Hb by done.
    injection Ha as <-. destruct (Hclash j b Hj Hb). congruence.
  - rewrite lookup_insert_eq in Hb. rewrite lookup_insert_ne in Ha by done.
    injection Hb as <-. destruct (Hclash i a Hi Ha). congruence.
  - rewrite lookup_insert_ne in Ha, Hb by done. by apply (Hu i j a b).
Qed.

Lemma fold_add_classroom_others (rows : str -> Classroom.t) names d :
  let d' := fold_left (fun d name => add_classroom (rows name) d) names d in
  courses d' = courses d /\ students d' = students d.
Proof.
  revert d. induction names as [|n ns IH]; intros d; simpl; [by split|].
  destruct (IH (add_classroom (rows n) d)) as [-> ->]. by split.
Qed.

(** Student rows are written by [login] only. *)
Lemma step_students raw a s :
  (forall now req, a <> Handle (ReqLogin now req)) ->
  students (db (world (step raw a s))) = students (db (world s)).
Proof.
  intros Ha. destruct a as [r|g].
  - change (world (step raw (Handle r) s)) with (handle raw r (world s)).
    destruct r as [req|now req|now req|cid|req|req]; simpl.
    + unfold setup_system. simpl.
      destruct (fold_add_classroom_others
                  (fun name => {| Classroom.course_id := next_id (courses (db (world s)));
                                  Classroom.name := name;
                                  Classroom.active_chapter :=
                                    hd [] (assoc_get (CHAPTERS_BY_COURSE raw)
                                                     (setup_course_name req) []);
                                  Classroom.is_active := false |})
                  (setup_class_names req)
                  (set_courses <[next_id (courses (db (world s))) :=
                                   {| Course.name := setup_course_name req |}]>
                               (db (world s)))) as [_ H].
      exact H.
    + by destruct (Ha now req).
    + pose proof (submit_world raw now req (world s)) as H.
      destruct (PROBLEMS_DICT raw !! submit_problem_id req).
      * destruct H as (_ & _ & ->). reflexivity.
      * by rewrite H.
    + unfold check_submission. by destruct (submissions (db (world s)) !! cid).
    + reflexivity.
    + unfold update_progress. by destruct (classrooms (db (world s)) !! _).
  - rewrite step_world_worker. destruct (worker_alive s); [|reflexivity].
    pose proof (worker_iteration_world g (world s)) as H. simpl in H.
    destruct (queue (world s)) as [|[[jid p] code] rest]; [by rewrite H|].
    destruct H as [_ H].
    destruct (submissions (db (world s)) !! jid).
    + destruct H as (sc & fc & ->). reflexivity.
    + by rewrite H.
Qed.

(** X6. In every state the process can reach, no two student rows have the
    same student number: [login] looks the number up before it adds a row,
    and nothing else writes student rows.  Logging in again with a number
    that is stored therefore rewrites that one row, whose id and creation
    time stay, and adds none. *)
Theorem student_numbers_stay_unique (raw : RawData) (actions : list Action) :
  let w := world (run raw actions initial_system) in
  unique_student_numbers (db w)
  /\ forall now req id old,
       students (db w) !! id = Some old ->
       Student.student_number old = login_student_number req ->
       students (db (snd (login now req w)))
       = <[id := {| Student.classroom_id := login_classroom_id req;
                    Student.student_number := login_student_number req;
                    Student.name := login_name req;
                    Student.created_at := Student.created_at old |}]>
           (students (db w)).
Proof.
  assert (Hu : unique_student_numbers (db (world (run raw actions initial_system)))).
  { induction actions as [|a actions IH] using rev_ind.
    - intros i j a b Ha. simpl in Ha. rewrite lookup_empty in Ha. discriminate.
    - rewrite run_app. simpl.
      set (s := run raw actions initial_system) in *.
      destruct a as [[req|now req|now req|cid|req|req]|g];
        try (unfold unique_student_numbers;
             rewrite (step_students raw _ s) by discriminate; exact IH).
      by apply login_keeps_numbers_unique. }
  intros w. split; [exact Hu|].
  intros now req id old Hid Hnum.
  destruct (login_students now req w) as (id' & s & -> & Hc & Hn & Hname & Hold).
  destruct (students (db w) !! id') as [old'|] eqn:Hid'.
  - destruct Hold as [Hnum' Hcreated].
    assert (id = id') as <- by (apply (Hu id id' old old' Hid Hid'); congruence).
    assert (old' = old) as -> by congruence.
    f_equal. destruct s; simpl in *. congruence.
  - destruct Hold as (_ & _ & Hnone). by destruct (Hnone id old Hid).
Qed.

(** X7. A login that names a class which is not stored fails with an
    AttributeError, but only after the student row has been committed: the
    student is stored with that class id, and a later [GET /api/problems]
    for the student fails in the same way instead of answering 404. *)
Theorem login_unknown_class_still_stores
  (raw : RawData) (order : list (Z * Submission.t) -> list (Z * Submission.t))
  (now : Z) (req : LoginRequest) (w : World) :
  classrooms (db w) !! login_classroom_id req = None ->
  let w' := snd (login now req w) in
  fst (login now req w) = inl AttributeError
  /\ exists id s,
       students (db w') !! id = Some s
       /\ Student.classroom_id s = login_classroom_id req
       /\ Student.student_number s = login_student_number req
       /\ Student.name s = login_name req
       /\ get_problems raw order id (db w') = inl AttributeError.
Proof.
  intros Hc w'.
  assert (Hcs : classrooms (db w') = classrooms (db w)).
  { unfold w', login. by destruct (head _) as [[id old]|]. }
  split.
  - unfold login. destruct (head _) as [[id old]|]; simpl; by rewrite Hc.
  - destruct (login_students now req w) as (id & s & Hs & Hcl & Hn & Hname & _).
    fold w' in Hs. exists id, s.
    assert (Hid : students (db w') !! id = Some s) by (by rewrite Hs, lookup_insert_eq).
    split; [exact Hid|]. do 3 (split; [assumption|]).
    unfold get_problems. by rewrite Hid, Hcs, Hcl, Hc.
Qed.

Lemma login_unknown_class_still_stores_witness :
  fst (login 10 {| login_classroom_id := 5; login_student_number := lit "1101";
                   login_name := lit "Kim" |} initial_world)
  = inl AttributeError
  /\ exists id s,
       students (db (snd (login 10 {| login_classroom_id := 5;
                                      login_student_number := lit "1101";
                                      login_name := lit "Kim" |} initial_world)))
         !! id = Some s
       /\ Student.classroom_id s = 5.
Proof.
  destruct (login_unknown_class_still_stores sample_raw sort_desc 10
              {| login_classroom_id := 5; login_student_number := lit "1101";
                 login_name := lit "Kim" |} initial_world)
    as (H1 & id & s & H2 & H3 & _).
  - reflexivity.
  - split; [exact H1|]. exists id, s. split; [exact H2|exact H3].
Defined.

(** ** [POST /api/system/setup] *)

Lemma fold_add_classroom_classrooms (rows : str -> Classroom.t) names d :
  let d' := fold_left (fun d name => add_classroom (rows name) d) names d in
  exists ids,
    length ids = length names
    /\ NoDup ids
    /\ (forall id, id ∈ ids -> classrooms d !! id = None)
    /\ (forall id, id ∉ ids -> classrooms d' !! id = classrooms d !! id)
    /\ forall k id name,
         ids !! k = Some id -> names !! k = Some name ->
         classrooms d' !! id = Some (rows name).
Proof.
  revert d. induction names as [|n ns IH]; intros d; simpl.
  - exists []. split; [reflexivity|]. split; [constructor|].
    split; [by intros id ?%not_elem_of_nil|]. split; [reflexivity|].
    intros k id name Hk. by rewrite lookup_nil in Hk.
  - destruct (IH (add_classroom (rows n) d)) as (ids & Hlen & Hnd & Hfresh & Hout & Hnew).
    set (id0 := next_id (classrooms d)) in *.
    assert (H0 : classrooms (add_classroom (rows n) d) !! id0 = Some (rows n)).
    { unfold add_classroom. simpl. apply lookup_insert_eq. }
    assert (Hnotin : id0 ∉ ids).
    { intros Hin. specialize (Hfresh id0 Hin). congruence. }
    exists (id0 :: ids). split; [simpl; by rewrite Hlen|].
    split; [by constructor|]. split; [|split].
    + intros id [-> | Hin]%elem_of_cons; [apply next_id_fresh|].
      specialize (Hfresh id Hin). unfold add_classroom in Hfresh. simpl in Hfresh.
      fold id0 in Hfresh.
      destruct (decide (id = id0)) as [->|Hne]; [by rewrite lookup_insert_eq in Hfresh|].
      by rewrite lookup_insert_ne in Hfresh.
    + intros id Hid. apply not_elem_of_cons in Hid as [Hne Hid].
      rewrite (Hout id Hid). unfold add_classroom. simpl. by apply lookup_insert_ne.
    + intros [|k] id name Hk Hname; simpl in *.
      * injection Hk as <-. injection Hname as <-. by rewrite (Hout id0 Hnotin).
      * by apply (Hnew k).
Qed.

Lemma first_chapter_least chapters :
  StronglySorted (fun a b => str_ltb a b = true) chapters ->
  match chapters with
  | [] => hd [] chapters = []
  | _ :: _ =>
      hd [] chapters ∈ chapters
      /\ forall ch, ch ∈ chapters -> ch = hd [] chapters \/ str_ltb (hd [] chapters) ch = true
  end.
Proof.
  intros Hs. destruct chapters as [|c rest]; [reflexivity|]. simpl.
  split; [apply list_elem_of_here|].
  apply StronglySorted_inv in Hs as [_ Hall]. rewrite Forall_forall in Hall.
  intros ch [-> | Hin]%elem_of_cons; auto.
Qed.

(** X8. [POST /api/system/setup] stores one course, under a fresh id and with
    the request's name, and one class for each class name of the request,
    in the request's order and each under a fresh id of its own.  Every
    new class belongs to the new course, is inactive, and starts on the
    least chapter, in code-point order, that problems.yaml has for the
    course name; it starts on the empty chapter when problems.yaml has no
    problem under that name.  Rows that were stored stay as they were, and
    students, submissions and the queue are untouched. *)
Theorem setup_system_adds_course_and_classes
  (raw : RawData) (req : SetupRequest) (w : World) :
  let w' := snd (setup_system raw req w) in
  let course_id := next_id (courses (db w)) in
  let chapters := assoc_get (CHAPTERS_BY_COURSE raw) (setup_course_name req) [] in
  fst (setup_system raw req w) = inr ()
  /\ courses (db w) !! course_id = None
  /\ courses (db w')
     = <[course_id := {| Course.name := setup_course_name req |}]> (courses (db w))
  /\ students (db w') = students (db w)
  /\ submissions (db w') = submissions (db w)
  /\ queue w' = queue w
  /\ (exists ids,
        length ids = length (setup_class_names req)
        /\ NoDup ids
        /\ (forall id, id ∈ ids -> classrooms (db w) !! id = None)
        /\ (forall id, id ∉ ids -> classrooms (db w') !! id = classrooms (db w) !! id)
        /\ forall k id name,
             ids !! k = Some id -> setup_class_names req !! k = Some name ->
             classrooms (db w') !! id
             = Some {| Classroom.course_id := course_id;
                       Classroom.name := name;
                       Classroom.active_chapter := hd [] chapters;
                       Classroom.is_active := false |})
  /\ match chapters with
     | [] => hd [] chapters = []
     | _ :: _ =>
         hd [] chapters ∈ chapters
         /\ forall ch, ch ∈ chapters ->
                       ch = hd [] chapters \/ str_ltb (hd [] chapters) ch = true
     end.
Proof.
  intros w' course_id chapters.
  set (d1 := set_courses <[course_id := {| Course.name := setup_course_name req |}]> (db w)).
  assert (Hdb : db w' = fold_left (fun d name => add_classroom (setup_row raw req (db w) name) d)
                          (setup_class_names req) d1) by reflexivity.
  destruct (fold_add_classroom_others (setup_row raw req (db w))
              (setup_class_names req) d1) as [Hcourses Hstudents].
  pose proof (fold_add_classroom_submissions (setup_row raw req (db w))
                (setup_class_names req) d1) as Hsubs.
  destruct (fold_add_classroom_classrooms (setup_row raw req (db w))
              (setup_class_names req) d1) as (ids & Hids).
  rewrite <- Hdb in Hcourses, Hstudents, Hsubs, Hids.
  split; [reflexivity|]. split; [apply next_id_fresh|].
  split; [exact Hcourses|]. split; [exact Hstudents|]. split; [exact Hsubs|].
  split; [reflexivity|]. split; [exists ids; exact Hids|].
  apply first_chapter_least. unfold chapters. rewrite chapters_of_course.
  apply sorted_set_sorted.
Qed.

(** ** Classes, courses and the active class in the states the process reaches *)

Lemma activate_class_lookup req w id :
  classrooms (db (snd (activate_class req w))) !! id
  = (fun c => if bool_decide (id = activate_classroom_id req)
              then activate (deactivate c) else deactivate c)
      <$> classrooms (db w) !! id.
Proof.
  simpl. destruct (decide (activate_classroom_id req = id)) as [<-|Hne].
  - rewrite lookup_alter_eq, lookup_fmap, bool_decide_eq_true_2 by done.
    by destruct (classrooms (db w) !! _).
  - rewrite lookup_alter_ne, lookup_fmap by done.
    rewrite bool_decide_eq_false_2 by (intros ->; done). reflexivity.
Qed.

Lemma setup_system_classrooms raw req w id c' :
  classrooms (db (snd (setup_system raw req w))) !! id = Some c' ->
  classrooms (db w) !! id = Some c'
  \/ exists name, c' = setup_row raw req (db w) name.
Proof.
  intros Hc'.
  destruct (fold_add_classroom_classrooms (setup_row raw req (db w))
              (setup_class_names req)
              (set_courses <[next_id (courses (db w)) :=
                               {| Course.name := setup_course_name req |}]> (db w)))
    as (ids & Hlen & _ & _ & Hout & Hnew).
  change (fold_left _ _ _) with (db (snd (setup_system raw req w))) in Hout, Hnew.
  destruct (decide (id ∈ ids)) as [Hin|Hnotin].
  - right. apply list_elem_of_lookup in Hin as [k Hk].
    destruct (lookup_lt_is_Some_2 (setup_class_names req) k) as [name Hname].
    { rewrite <- Hlen. by apply lookup_lt_Some in Hk. }
    exists name. rewrite (Hnew k id name Hk Hname) in Hc'. by injection Hc'.
  - left. rewrite (Hout id Hnotin) in Hc'. exact Hc'.
Qed.

Lemma setup_system_courses raw req w :
  courses (db (snd (setup_system raw req w)))
  = <[next_id (courses (db w)) := {| Course.name := setup_course_name req |}]>
      (courses (db w)).
Proof.
  destruct (fold_add_classroom_others (setup_row raw req (db w))
              (setup_class_names req)
              (set_courses <[next_id (courses (db w)) :=
                               {| Course.name := setup_course_name req |}]> (db w)))
    as [H _].
  exact H.
Qed.

(** Login, submit, check and the worker write neither classes nor courses. *)
Lemma step_classes_other raw a s :
  match a with
  | Handle (ReqSetup _) | Handle (ReqActivate _) | Handle (ReqProgress _) => True
  | _ =>
      classrooms (db (world (step raw a s))) = classrooms (db (world s))
      /\ courses (db (world (step raw a s))) = courses (db (world s))
  end.
Proof.
  destruct a as [[req|now req|now req|cid|req|req]|g]; try exact I.
  - simpl. unfold login. by destruct (head _) as [[id old]|].
  - simpl. pose proof (submit_world raw now req (world s)) as H.
    destruct (PROBLEMS_DICT raw !! submit_problem_id req).
    + destruct H as (_ & _ & ->). by split.
    + by rewrite H.
  - simpl. unfold check_submission. by destruct (submissions (db (world s)) !! cid).
  - rewrite step_world_worker. destruct (worker_alive s); [|by split].
    pose proof (worker_iteration_world g (world s)) as H. simpl in H.
    destruct (queue (world s)) as [|[[jid p] code] rest]; [by rewrite H|].
    destruct H as [_ H].
    destruct (submissions (db (world s)) !! jid).
    + destruct H as (sc & fc & ->). by split.
    + by rewrite H.
Qed.

Lemma update_progress_lookup req w id c' :
  classrooms (db (snd (update_progress req w))) !! id = Some c' ->
  exists c, classrooms (db w) !! id = Some c
            /\ Classroom.course_id c' = Classroom.course_id c
            /\ Classroom.is_active c' = Classroom.is_active c.
Proof.
  unfold update_progress.
  destruct (classrooms (db w) !! progress_classroom_id req) as [c|] eqn:Hc; simpl.
  - destruct (decide (id = progress_classroom_id req)) as [->|Hne].
    + rewrite lookup_insert_eq. intros [= <-]. eauto.
    + rewrite lookup_insert_ne by done. eauto.
  - eauto.
Qed.

Lemma update_progress_courses req w :
  courses (db (snd (update_progress req w))) = courses (db w).
Proof. unfold update_progress. by destruct (classrooms (db w) !! _). Qed.

Lemma step_classes_have_courses raw a s :
  classes_have_courses (db (world s)) ->
  classes_have_courses (db (world (step raw a s))).
Proof.
  intros Hinv. pose proof (step_classes_other raw a s) as Hother.
  destruct a as [[req|now req|now req|cid|req|req]|g];
    cbv beta iota in Hother;
    try (match type of Hother with
         | _ /\ _ => destruct Hother as [Hcl Hco]; unfold classes_have_courses;
                     rewrite Hcl, Hco; exact Hinv
         end);
    clear Hother; intros id c' Hc';
    change (world (step raw (Handle ?r) s)) with (handle raw r (world s)) in *;
    cbn [handle] in *.
  - rewrite setup_system_courses.
    apply setup_system_classrooms in Hc' as [Hold|[name ->]].
    + destruct (Hinv id c' Hold) as [course Hcourse].
      destruct (decide (Classroom.course_id c' = next_id (courses (db (world s)))))
        as [->|Hne].
      * rewrite lookup_insert_eq. eauto.
      * rewrite lookup_insert_ne by done. eauto.
    + simpl. rewrite lookup_insert_eq. eauto.
  - rewrite activate_class_lookup in Hc'.
    destruct (classrooms (db (world s)) !! id) as [c|] eqn:Hc; [|discriminate].
    simpl in Hc'. injection Hc' as <-.
    change (courses (db (snd (activate_class req (world s)))))
      with (courses (db (world s))).
    destruct (Hinv id c Hc) as [course Hcourse]. exists course.
    by destruct (bool_decide _).
  - rewrite update_progress_courses.
    apply update_progress_lookup in Hc' as (c & Hc & -> & _). by apply (Hinv id c).
Qed.

Lemma step_one_active_class raw a s :
  one_active_class (db (world s)) ->
  one_active_class (db (world (step raw a s))).
Proof.
  intros Hinv. pose proof (step_classes_other raw a s) as Hother.
  destruct a as [[req|now req|now req|cid|req|req]|g];
    cbv beta iota in Hother;
    try (match type of Hother with
         | _ /\ _ => destruct Hother as [Hcl _]; unfold one_active_class;
                     rewrite Hcl; exact Hinv
         end);
    clear Hother; intros i j a b Ha Hb Hact_a Hact_b;
    change (world (step raw (Handle ?r) s)) with (handle raw r (world s)) in *;
    cbn [handle] in *.
  - apply setup_system_classrooms in Ha as [Ha|[name ->]]; [|discriminate].
    apply setup_system_classrooms in Hb as [Hb|[name ->]]; [|discriminate].
    by apply (Hinv i j a b).
  - rewrite activate_class_lookup in Ha, Hb.
    destruct (classrooms (db (world s)) !! i) as [ci|]; [|discriminate].
    destruct (classrooms (db (world s)) !! j) as [cj|]; [|discriminate].
    simpl in Ha, Hb. injection Ha as <-. injection Hb as <-.
    case_bool_decide as Hi; [|discriminate]. case_bool_decide as Hj; [|discriminate].
    congruence.
  - apply update_progress_lookup in Ha as (ca & Ha & _ & Hia).
    apply update_progress_lookup in Hb as (cb & Hb & _ & Hib).
    apply (Hinv i j ca cb Ha Hb); congruence.
Qed.

Lemma target_problems_error ch ps e :
  target_problems ch ps = inl e -> e = KeyError.
Proof.
  induction ps as [|p ps IH]; [discriminate|]. cbn [target_problems].
  destruct (Problem.chapter p); simpl; [|congruence].
  destruct (target_problems ch ps) as [e'|rest]; simpl; [|discriminate].
  intros [= <-]. by apply IH.
Qed.

Lemma active_entries_ok d classes :
  Forall (fun cls => is_Some (courses d !! Classroom.course_id (snd cls))) classes ->
  exists l, active_entries d classes = inr l
            /\ List.map active_id l = List.map fst classes.
Proof.
  induction 1 as [|cls classes [course Hcourse] _ (l & IH & Hids)].
  - by exists [].
  - simpl. rewrite Hcourse. simpl. rewrite IH. simpl.
    eexists. split; [reflexivity|]. simpl. by rewrite Hids.
Qed.

Lemma active_classes_at_most_one d :
  one_active_class d ->
  (length (filter (fun kv => Classroom.is_active (snd kv) = true)
                  (map_to_list (classrooms d))) <= 1)%nat.
Proof.
  intros Hone.
  set (l := filter _ _).
  assert (Hnd : NoDup l) by (apply NoDup_filter, NoDup_map_to_list).
  assert (Hin : forall x, x ∈ l -> classrooms d !! x.1 = Some x.2
                                   /\ Classroom.is_active x.2 = true).
  { intros [i a] [Ha Hx]%list_elem_of_filter. by apply elem_of_map_to_list in Hx. }
  destruct l as [|x [|y l']]; simpl; try lia.
  destruct (Hin x) as [Hx Hxa]; [apply list_elem_of_here|].
  destruct (Hin y) as [Hy Hya]; [apply list_elem_of_further, list_elem_of_here|].
  assert (x.1 = y.1) as Heq by (by apply (Hone x.1 y.1 x.2 y.2)).
  assert (x = y) as ->.
  { destruct x as [i a], y as [j b]. simpl in *. subst j. congruence. }
  apply NoDup_cons in Hnd as [Hnotin _]. destruct Hnotin. apply list_elem_of_here.
Qed.

(** X9. In every state the process can reach, every class belongs to a course
    that is stored and at most one class is active.  So
    [GET /api/student/active_classes] answers, with at most one class;
    [GET /api/status] never fails for want of a course; and
    [GET /api/system/info] lists every class under the name of its stored
    course, never under "Unknown" for want of one. *)
Theorem reachable_classes_are_consistent
  (raw : RawData) (order : list (Z * Submission.t) -> list (Z * Submission.t))
  (actions : list Action) :
  let d := db (world (run raw actions initial_system)) in
  classes_have_courses d
  /\ one_active_class d
  /\ (exists l, get_active_classes d = inr l /\ (length l <= 1)%nat)
  /\ (forall cid, get_status raw order cid d <> inl AttributeError)
  /\ Forall (fun info =>
               exists course,
                 courses d !! info_course_id info = Some course
                 /\ info_course_name info = Course.name course)
            (info_classes (get_system_info raw d)).
Proof.
  assert (Hinv : classes_have_courses (db (world (run raw actions initial_system)))
                 /\ one_active_class (db (world (run raw actions initial_system)))).
  { induction actions as [|a actions [IH1 IH2]] using rev_ind.
    - split.
      + intros id c H. simpl in H. rewrite lookup_empty in H. discriminate.
      + intros i j a b H. simpl in H. rewrite lookup_empty in H. discriminate.
    - rewrite run_app. simpl. split.
      + by apply step_classes_have_courses.
      + by apply step_one_active_class. }
  destruct Hinv as [Hcourses Hone]. intros d. fold d in Hcourses, Hone.
  split; [exact Hcourses|]. split; [exact Hone|]. split; [|split].
  - unfold get_active_classes.
    destruct (active_entries_ok d
                (filter (fun kv => Classroom.is_active (snd kv) = true)
                        (map_to_list (classrooms d)))) as (l & Hl & Hids).
    { apply Forall_forall. intros [id c] [_ Hin]%list_elem_of_filter.
      apply elem_of_map_to_list in Hin. by apply (Hcourses id c). }
    exists l. split; [exact Hl|].
    pose proof (active_classes_at_most_one d Hone) as Hlen.
    apply (f_equal length) in Hids. rewrite !length_map in Hids. lia.
  - intros cid. unfold get_status.
    destruct (classrooms d !! cid) as [c|] eqn:Hc; [|discriminate].
    destruct (Hcourses cid c Hc) as [course ->]. simpl.
    destruct (target_problems _ _) as [e|targets] eqn:Ht; simpl; [|discriminate].
    apply target_problems_error in Ht as ->. discriminate.
  - unfold get_system_info. simpl. apply Forall_forall. intros info Hin.
    apply list_elem_of_In, in_map_iff in Hin as ([id c] & <- & Hin).
    apply list_elem_of_In, elem_of_map_to_list in Hin.
    destruct (Hcourses id c Hin) as [course Hcourse]. exists course. simpl.
    by rewrite Hcourse.
Qed.

(** ** [GET /api/system/info] *)

Lemma setups_app l1 l2 : setups (l1 ++ l2) = setups l1 ++ setups l2.
Proof.
  induction l1 as [|[[req|now req|now req|cid|req|req]|g] l1 IH]; simpl;
    by rewrite ?IH.
Qed.

Lemma step_courses raw a s :
  courses (db (world (step raw a s)))
  = match a with
    | Handle (ReqSetup req) =>
        <[next_id (courses (db (world s))) := {| Course.name := setup_course_name req |}]>
          (courses (db (world s)))
    | _ => courses (db (world s))
    end.
Proof.
  pose proof (step_classes_other raw a s) as Hother.
  destruct a as [[req|now req|now req|cid|req|req]|g];
    cbv beta iota in Hother;
    try (match type of Hother with _ /\ _ => by destruct Hother as [_ ->] end).
  - apply setup_system_courses.
  - reflexivity.
  - apply update_progress_courses.
Qed.

Lemma fold_add_classroom_names (rows : str -> Classroom.t) names d :
  (forall name, Classroom.name (rows name) = name) ->
  List.map (fun kv => Classroom.name (snd kv))
    (map_to_list (classrooms (fold_left (fun d name => add_classroom (rows name) d)
                                        names d)))
  ≡ₚ List.map (fun kv => Classroom.name (snd kv)) (map_to_list (classrooms d)) ++ names.
Proof.
  intros Hrows. revert d. induction names as [|n ns IH]; intros d; simpl.
  - by rewrite app_nil_r.
  - rewrite IH. unfold add_classroom at 1. simpl.
    rewrite map_to_list_insert by apply next_id_fresh. simpl. rewrite Hrows.
    by rewrite Permutation_middle.
Qed.

Lemma names_of_classrooms (m m' : gmap Z Classroom.t) :
  (forall id, Classroom.name <$> m' !! id = Classroom.name <$> m !! id) ->
  List.map (fun kv => Classroom.name (snd kv)) (map_to_list m')
  ≡ₚ List.map (fun kv => Classroom.name (snd kv)) (map_to_list m).
Proof.
  intros H.
  assert (Heq : Classroom.name <$> m' = Classroom.name <$> m).
  { apply map_eq. intros id. by rewrite !lookup_fmap. }
  assert (Hl : forall m0 : gmap Z Classroom.t,
             List.map (fun kv => Classroom.name (snd kv)) (map_to_list m0)
             ≡ₚ List.map snd (map_to_list (Classroom.name <$> m0))).
  { intros m0. rewrite map_to_list_fmap.
    change (List.map snd ?l) with (snd <$> l).
    rewrite <- list_fmap_compose. reflexivity. }
  by rewrite !Hl, Heq.
Qed.

Lemma step_class_names raw a s :
  List.map (fun kv => Classroom.name (snd kv))
           (map_to_list (classrooms (db (world (step raw a s)))))
  ≡ₚ List.map (fun kv => Classroom.name (snd kv))
              (map_to_list (classrooms (db (world s))))
     ++ match a with
        | Handle (ReqSetup req) => setup_class_names req
        | _ => []
        end.
Proof.
  pose proof (step_classes_other raw a s) as Hother.
  destruct a as [[req|now req|now req|cid|req|req]|g];
    cbv beta iota in Hother; rewrite ?app_nil_r;
    try (match type of Hother with _ /\ _ => by destruct Hother as [-> _] end).
  - exact (fold_add_classroom_names (setup_row raw req (db (world s)))
             (setup_class_names req) _ (fun _ => eq_refl)).
  - apply names_of_classrooms. intros id.
    change (world (step raw (Handle (ReqActivate req)) s))
      with (snd (activate_class req (world s))).
    rewrite activate_class_lookup.
    destruct (classrooms (db (world s)) !! id) as [c|]; [|reflexivity].
    simpl. by destruct (bool_decide _).
  - apply names_of_classrooms. intros id.
    change (world (step raw (Handle (ReqProgress req)) s))
      with (snd (update_progress req (world s))).
    unfold update_progress.
    destruct (classrooms (db (world s)) !! progress_classroom_id req) as [c|] eqn:Hc;
      [|reflexivity].
    simpl. destruct (decide (id = progress_classroom_id req)) as [->|Hne].
    + by rewrite lookup_insert_eq, Hc.
    + by rewrite lookup_insert_ne.
Qed.

(** X10. What [GET /api/system/info] reports in a state the process has
    reached: the courses are those of the setup requests served so far,
    one for each request even when two requests give the same course
    name; the classes are the class names of those requests, all of them;
    and [initialized] is true exactly when a setup request has been
    served. *)
Theorem system_info_reports_the_setups (raw : RawData) (actions : list Action) :
  let info := get_system_info raw (db (world (run raw actions initial_system))) in
  List.map (fun kv => Course.name (snd kv)) (info_courses info)
    ≡ₚ List.map setup_course_name (setups actions)
  /\ List.map info_name (info_classes info)
    ≡ₚ concat (List.map setup_class_names (setups actions))
  /\ (info_initialized info = true <-> setups actions <> []).
Proof.
  simpl.
  assert (Hinv :
    List.map (fun kv => Course.name (snd kv))
      (map_to_list (courses (db (world (run raw actions initial_system)))))
      ≡ₚ List.map setup_course_name (setups actions)
    /\ List.map (fun kv => Classroom.name (snd kv))
         (map_to_list (classrooms (db (world (run raw actions initial_system)))))
       ≡ₚ concat (List.map setup_class_names (setups actions))).
  { induction actions as [|a actions [IH1 IH2]] using rev_ind; [by split|].
    rewrite run_app, setups_app, map_app, map_app, concat_app. simpl. split.
    - rewrite step_courses.
      destruct a as [[req|now req|now req|cid|req|req]|g]; simpl;
        rewrite ?app_nil_r; try exact IH1.
      rewrite map_to_list_insert by apply next_id_fresh. simpl. rewrite IH1.
      apply Permutation_cons_append.
    - rewrite step_class_names, IH2.
      destruct a as [[req|now req|now req|cid|req|req]|g]; simpl;
        by rewrite ?app_nil_r. }
  destruct Hinv as [Hcourses Hclasses]. split; [exact Hcourses|]. split.
  - rewrite map_map. simpl. exact Hclasses.
  - apply Permutation_length in Hcourses. rewrite !length_map in Hcourses.
    rewrite bool_decide_eq_true, Hcourses.
    destruct (setups actions); simpl; split; (done || lia).
Qed.

(** ** The worker in the states the process reaches *)

Lemma got_ids_app l1 l2 : got_ids (l1 ++ l2) = got_ids l1 ++ got_ids l2.
Proof. induction l1 as [|[id|p|ms] l1 IH]; simpl; by rewrite ?IH. Qed.

Lemma prompts_app l1 l2 : prompts (l1 ++ l2) = prompts l1 ++ prompts l2.
Proof. induction l1 as [|[id|p|ms] l1 IH]; simpl; by rewrite ?IH. Qed.

Lemma handle_other_tasks raw r w :
  (forall now req, r <> ReqSubmit now req) ->
  unfinished_tasks (handle raw r w) = unfinished_tasks w.
Proof.
  intros Hr. destruct r as [req|now req|now req|id|req|req]; simpl.
  - reflexivity.
  - unfold login. by destruct (head _) as [[id old]|].
  - by destruct (Hr now req).
  - unfold check_submission. by destruct (submissions (db w) !! id).
  - reflexivity.
  - unfold update_progress. by destruct (classrooms (db w) !! _).
Qed.

Lemma step_worker_healthy raw a s :
  worker_healthy s -> worker_healthy (step raw a s).
Proof.
  intros (Halive & Hcount & Hqueued & Hgrading).
  pose proof (step_queued_jobs_grading raw a s Hqueued) as Hqueued'.
  destruct a as [r|g].
  - change (step raw (Handle r) s)
      with {| world := handle raw r (world s); worker_alive := worker_alive s |} in *.
    split; [exact Halive|]. cbn [world] in *.
    destruct r as [req|now req|now req|cid|req|req];
      try (match goal with
           | |- context [handle raw ?r _] =>
               let H := fresh in
               assert (H : forall now req, r <> ReqSubmit now req) by discriminate;
               destruct (handle_other raw r (world s) H) as [Hs Hqq];
               rewrite (handle_other_tasks raw r (world s) H), Hs, Hqq;
               split; [exact Hcount|]; split; [exact Hqueued'|exact Hgrading]
           end).
    cbn [handle] in *.
    pose proof (submit_world raw now req (world s)) as H.
    destruct (PROBLEMS_DICT raw !! submit_problem_id req) as [problem|].
    + destruct H as (_ & _ & Hsub). rewrite Hsub in *. cbn [snd] in *.
      split; [|split; [exact Hqueued'|]].
      * cbn. rewrite length_app. simpl. lia.
      * intros id row Hrow Hst. cbn in Hrow |- *. rewrite map_app.
        apply elem_of_app.
        destruct (decide (id = next_id (submissions (db (world s))))) as [->|Hne].
        -- right. apply list_elem_of_here.
        -- left. rewrite lookup_insert_ne in Hrow by done. by apply (Hgrading id row).
    + rewrite H. cbn [snd]. split; [exact Hcount|]. split; [exact Hqueued|exact Hgrading].
  - destruct (queue (world s)) as [|[[id p] code] rest] eqn:Hq.
    { assert (step raw (WorkerTurn g) s = s) as ->.
      { simpl. rewrite Halive. unfold worker_iteration. by rewrite Hq. }
      unfold worker_healthy. rewrite Hq. auto. }
    destruct Hqueued as [Hnd Hrows].
    destruct (Hrows (id, p, code)) as (row & Hrow & Hst);
      [rewrite ?Hq; apply list_elem_of_here|].
    destruct (worker_iteration_found g (world s) id p code rest row Hq Hrow)
      as (sc & fc & w' & Hturn & Hdb & Hrest & Hu & _).
    { rewrite Hcount. simpl. lia. }
    assert (Hstep : step raw (WorkerTurn g) s = {| world := w'; worker_alive := true |}).
    { simpl. by rewrite Halive, Hturn. }
    rewrite Hstep in *. unfold worker_healthy. cbn [world worker_alive] in *.
    split; [reflexivity|]. split; [|split; [exact Hqueued'|]].
    + rewrite Hu, Hrest, Hcount. simpl. lia.
    + intros id' row' Hrow' Hst'. rewrite Hdb in Hrow'. simpl in Hrow'.
      rewrite Hrest.
      destruct (decide (id' = id)) as [->|Hne].
      * rewrite lookup_insert_eq in Hrow'. injection Hrow' as <-. discriminate.
      * rewrite lookup_insert_ne in Hrow' by done.
        specialize (Hgrading id' row' Hrow' Hst').
        simpl in Hgrading. apply elem_of_cons in Hgrading as [Heq|Hin]; [|exact Hin].
        by destruct Hne.
Qed.

Lemma run_worker_healthy raw actions :
  worker_healthy (run raw actions initial_system).
Proof.
  induction actions as [|a actions IH] using rev_ind.
  - split; [reflexivity|]. split; [reflexivity|]. split.
    + split; [apply NoDup_nil_2|]. intros j Hj. by apply not_elem_of_nil in Hj.
    + intros id row H. simpl in H. rewrite lookup_empty in H. discriminate.
  - rewrite run_app. simpl. by apply step_worker_healthy.
Qed.

(** X11. While rows are not deleted behind the process's back, the worker
    never dies.  In every state the process can reach the worker is
    running and the queue's count of unfinished tasks is the number of
    queued jobs; a turn of the worker waits when the queue is empty, and
    else takes the oldest job, whose row is stored with status "grading",
    rewrites that row and no other as completed, whatever the grader does,
    and goes on to its next turn. *)
Theorem reachable_worker_never_dies (raw : RawData) (actions : list Action) :
  let s := run raw actions initial_system in
  worker_alive s = true
  /\ unfinished_tasks (world s) = Z.of_nat (length (queue (world s)))
  /\ forall g,
       match queue (world s) with
       | [] => worker_iteration g (world s) = Blocked (world s)
       | (id, p, code) :: rest =>
           exists row sc fc w',
             submissions (db (world s)) !! id = Some row
             /\ Submission.status row = STATUS_GRADING
             /\ worker_iteration g (world s) = Next w'
             /\ db w' = set_submissions <[id := graded row sc fc]> (db (world s))
             /\ Submission.status (graded row sc fc) = STATUS_COMPLETED
             /\ queue w' = rest
             /\ unfinished_tasks w' = Z.of_nat (length rest)
       end.
Proof.
  intros s. destruct (run_worker_healthy raw actions) as (Halive & Hcount & Hqueued & _).
  fold s in Halive, Hcount, Hqueued.
  split; [exact Halive|]. split; [exact Hcount|]. intros g.
  destruct (queue (world s)) as [|[[id p] code] rest] eqn:Hq.
  - unfold worker_iteration. by rewrite Hq.
  - destruct Hqueued as [_ Hrows].
    destruct (Hrows (id, p, code)) as (row & Hrow & Hst);
      [rewrite Hq; apply list_elem_of_here|].
    destruct (worker_iteration_found g (world s) id p code rest row Hq Hrow)
      as (sc & fc & w' & Hturn & Hdb & Hrest & Hu & _).
    { rewrite Hcount. simpl. lia. }
    exists row, sc, fc, w'. do 6 (split; [done|]).
    rewrite Hu, Hcount. simpl. lia.
Qed.

(** ** After a restart *)

Lemma step_sound_since raw d a s :
  sound_since d s -> sound_since d (step raw a s).
Proof.
  intros (Halive & Hcount & Hqueued & Hnew & Hold & Hrows).
  pose proof (step_queued_jobs_grading raw a s Hqueued) as Hqueued'.
  destruct a as [r|g].
  - change (step raw (Handle r) s)
      with {| world := handle raw r (world s); worker_alive := worker_alive s |} in *.
    unfold sound_since. cbn [world worker_alive] in *.
    split; [exact Halive|].
    destruct r as [req|now req|now req|cid|req|req];
      try (match goal with
           | |- context [handle raw ?r _] =>
               let H := fresh in
               assert (H : forall now req, r <> ReqSubmit now req) by discriminate;
               destruct (handle_other raw r (world s) H) as [Hs Hqq];
               rewrite (handle_other_tasks raw r (world s) H), Hs, Hqq;
               split; [exact Hcount|]; split; [exact Hqueued'|];
               split; [exact Hnew|]; split; [exact Hold|exact Hrows]
           end).
    cbn [handle] in *.
    pose proof (submit_world raw now req (world s)) as H.
    destruct (PROBLEMS_DICT raw !! submit_problem_id req) as [problem|].
    + destruct H as (_ & _ & Hsub). rewrite Hsub in *. cbn [snd] in *.
      set (nid := next_id (submissions (db (world s)))) in *.
      assert (Hfresh : submissions d !! nid = None).
      { destruct (submissions d !! nid) as [row|] eqn:E; [|reflexivity].
        apply Hold in E. unfold nid in E. by rewrite next_id_fresh in E. }
      split; [cbn; rewrite length_app; simpl; lia|].
      split; [exact Hqueued'|]. split; [|split].
      * intros j Hj. cbn in Hj. apply elem_of_app in Hj as [Hj|Hj]; [by apply Hnew|].
        apply list_elem_of_singleton in Hj. subst j. exact Hfresh.
      * intros id row Hrow. cbn.
        destruct (decide (id = nid)) as [->|Hne]; [congruence|].
        rewrite lookup_insert_ne by done. by apply Hold.
      * intros id row Hrow Hd. cbn in Hrow |- *. rewrite map_app.
        destruct (decide (id = nid)) as [->|Hne].
        -- rewrite lookup_insert_eq in Hrow. injection Hrow as <-. left.
           split; [reflexivity|]. apply elem_of_app. right. apply list_elem_of_here.
        -- rewrite lookup_insert_ne in Hrow by done.
           destruct (Hrows id row Hrow Hd) as [[Hg Hin]|Hc]; [|by right].
           left. split; [exact Hg|]. apply elem_of_app. by left.
    + rewrite H. cbn [snd]. split; [exact Hcount|]. split; [exact Hqueued|].
      split; [exact Hnew|]. split; [exact Hold|exact Hrows].
  - destruct (queue (world s)) as [|[[id p] code] rest] eqn:Hq.
    { assert (step raw (WorkerTurn g) s = s) as ->.
      { simpl. rewrite Halive. unfold worker_iteration. by rewrite Hq. }
      unfold sound_since. rewrite Hq. auto 10. }
    destruct Hqueued as [_ Hjobs].
    destruct (Hjobs (id, p, code)) as (row & Hrow & Hst);
      [rewrite ?Hq; apply list_elem_of_here|].
    unfold job_id in Hrow. simpl in Hrow.
    destruct (worker_iteration_found g (world s) id p code rest row Hq Hrow)
      as (sc & fc & w' & Hturn & Hdb & Hrest & Hu & _).
    { rewrite Hcount. simpl. lia. }
    assert (Hstep : step raw (WorkerTurn g) s = {| world := w'; worker_alive := true |}).
    { simpl. by rewrite Halive, Hturn. }
    rewrite Hstep in *. unfold sound_since. cbn [world worker_alive] in *.
    split; [reflexivity|]. split; [rewrite Hu, Hrest, Hcount; simpl; lia|].
    split; [exact Hqueued'|]. split; [|split].
    + intros j Hj. rewrite Hrest in Hj. apply Hnew. by apply list_elem_of_further.
    + intros id' row' Hrow'. rewrite Hdb. simpl.
      destruct (decide (id' = id)) as [->|Hne].
      * specialize (Hnew (id, p, code) (list_elem_of_here _ _)).
        unfold job_id in Hnew. simpl in Hnew. congruence.
      * rewrite lookup_insert_ne by done. by apply Hold.
    + intros id' row' Hrow' Hd. rewrite Hdb in Hrow'. simpl in Hrow'. rewrite Hrest.
      destruct (decide (id' = id)) as [->|Hne].
      * rewrite lookup_insert_eq in Hrow'. injection Hrow' as <-. by right.
      * rewrite lookup_insert_ne in Hrow' by done.
        destruct (Hrows id' row' Hrow' Hd) as [[Hg Hin]|Hc]; [|by right].
        left. split; [exact Hg|]. simpl in Hin.
        apply elem_of_cons in Hin as [Heq|Hin]; [by destruct Hne|exact Hin].
Qed.

Lemma run_sound_since raw d actions :
  sound_since d (run raw actions (started d)).
Proof.
  induction actions as [|a actions IH] using rev_ind.
  - split; [reflexivity|]. split; [reflexivity|]. split.
    + split; [apply NoDup_nil_2|]. intros j Hj. by apply not_elem_of_nil in Hj.
    + split; [intros j Hj; by apply not_elem_of_nil in Hj|].
      split; [auto|]. intros id row Hrow Hd. simpl in Hrow. congruence.
  - rewrite run_app. simpl. by apply step_sound_since.
Qed.

Lemma run_worker_turns_since raw d gs s :
  sound_since d s ->
  queue (world (run raw (List.map WorkerTurn gs) s)) = drop (length gs) (queue (world s)).
Proof.
  revert s. induction gs as [|g gs IH]; intros s Hs; [reflexivity|].
  change (run raw (List.map WorkerTurn (g :: gs)) s)
    with (run raw (List.map WorkerTurn gs) (step raw (WorkerTurn g) s)).
  rewrite IH by (by apply step_sound_since).
  destruct Hs as (Halive & Hcount & [_ Hjobs] & _).
  assert (Hq : queue (world (step raw (WorkerTurn g) s)) = tail (queue (world s))).
  { simpl. rewrite Halive.
    destruct (queue (world s)) as [|[[id p] code] rest] eqn:Hq.
    - unfold worker_iteration. by rewrite Hq.
    - destruct (Hjobs (id, p, code)) as (row & Hrow & Hst); [apply list_elem_of_here|].
      destruct (worker_iteration_found g (world s) id p code rest row Hq Hrow)
        as (sc & fc & w' & -> & _ & Hrest & _).
      { rewrite Hcount. simpl. lia. }
      exact Hrest. }
  rewrite Hq. destruct (queue (world s)); [simpl; by rewrite drop_nil|reflexivity].
Qed.

(** X12. The process is started on a stored database [d], for the first
    time or again, and serves requests and takes turns of the worker, a
    turn being taken as a whole.  In every state it reaches, a submission
    stored since the start has status "grading" exactly when its job is
    waiting in the queue, and status "completed" exactly when it is not.
    A row that was stored before the start is never queued and stays as
    it was: one that was left "grading" when the process stopped stays
    "grading". *)
Theorem grading_iff_queued_since_start
  (raw : RawData) (d : DB) (actions : list Action) :
  let w := world (run raw actions (started d)) in
  forall id row,
    submissions (db w) !! id = Some row ->
    match submissions d !! id with
    | Some old => row = old /\ id ∉ List.map job_id (queue w)
    | None =>
        (Submission.status row = STATUS_GRADING <-> id ∈ List.map job_id (queue w))
        /\ (Submission.status row = STATUS_COMPLETED
            <-> id ∉ List.map job_id (queue w))
    end.
Proof.
  intros w id row Hrow.
  destruct (run_sound_since raw d actions) as (_ & _ & [_ Hjobs] & Hnew & Hold & Hrows).
  fold w in Hjobs, Hnew, Hold, Hrows.
  assert (Hback : id ∈ List.map job_id (queue w) ->
                  Submission.status row = STATUS_GRADING /\ submissions d !! id = None).
  { intros Hin. apply list_elem_of_In, in_map_iff in Hin as (j & <- & Hj).
    apply list_elem_of_In in Hj. destruct (Hjobs j Hj) as (row' & Hrow' & Hst).
    split; [congruence|by apply Hnew]. }
  destruct (submissions d !! id) as [old|] eqn:Hd.
  - split; [specialize (Hold id old Hd); congruence|].
    intros Hin. apply Hback in Hin as [_ Hin]. discriminate.
  - destruct (Hrows id row Hrow Hd) as [[Hg Hin]|Hc].
    + split; [by split|]. split; [|done].
      intros Hc. rewrite Hc in Hg. discriminate.
    + assert (Hout : id ∉ List.map job_id (queue w)).
      { intros Hin. apply Hback in Hin as [Hg _]. rewrite Hc in Hg. discriminate. }
      split; [|by split]. split; [|done].
      intros Hg. rewrite Hc in Hg. discriminate.
Qed.

Lemma grading_iff_queued_since_start_witness :
  submissions
    (db (world (run sample_raw [Handle (ReqSubmit 2000 sample_request)]
                  (started (db world_submitted))))) !! 1
  = Some sample_row
  /\ Submission.status sample_row = STATUS_GRADING
  /\ (1 ∉ List.map job_id
            (queue (world (run sample_raw [Handle (ReqSubmit 2000 sample_request)]
                             (started (db world_submitted))))))
  /\ (2 ∈ List.map job_id
            (queue (world (run sample_raw [Handle (ReqSubmit 2000 sample_request)]
                             (started (db world_submitted)))))).
Proof.
  assert (H1 : submissions
                 (db (world (run sample_raw [Handle (ReqSubmit 2000 sample_request)]
                               (started (db world_submitted))))) !! 1
               = Some sample_row) by (vm_compute; reflexivity).
  assert (H2 : submissions
                 (db (world (run sample_raw [Handle (ReqSubmit 2000 sample_request)]
                               (started (db world_submitted))))) !! 2
               = Some (new_row 2000 sample_request)) by (vm_compute; reflexivity).
  pose proof (grading_iff_queued_since_start sample_raw (db world_submitted)
                [Handle (ReqSubmit 2000 sample_request)] 1 _ H1) as Hold.
  pose proof (grading_iff_queued_since_start sample_raw (db world_submitted)
                [Handle (ReqSubmit 2000 sample_request)] 2 _ H2) as Hnew.
  assert (E1 : submissions (db world_submitted) !! 1 = Some sample_row)
    by (vm_compute; reflexivity).
  assert (E2 : submissions (db world_submitted) !! 2 = None)
    by (vm_compute; reflexivity).
  rewrite E1 in Hold. rewrite E2 in Hnew.
  split; [exact H1|]. split; [reflexivity|]. split; [exact (proj2 Hold)|].
  apply (proj1 Hnew). reflexivity.
Defined.

(** X13. The process is started on a stored database [d], for the first
    time or again.  From any state it reaches, as many turns of the worker
    as there are queued jobs, whatever the grader answers in each, empty
    the queue and leave the worker running; every submission stored since
    the start then has status "completed".  A row that was stored before
    the start is as it was: a submission that was "grading" when the
    process stopped is not graded, however many turns the worker takes. *)
Theorem every_submission_since_start_gets_graded
  (raw : RawData) (d : DB) (actions : list Action) (graders : list Grader) :
  length graders = length (queue (world (run raw actions (started d)))) ->
  let s' := run raw (actions ++ List.map WorkerTurn graders) (started d) in
  queue (world s') = []
  /\ worker_alive s' = true
  /\ forall id row,
       submissions (db (world s')) !! id = Some row ->
       match submissions d !! id with
       | Some old => row = old
       | None => Submission.status row = STATUS_COMPLETED
       end.
Proof.
  intros Hlen s'.
  assert (Hq : queue (world s') = []).
  { unfold s'. rewrite run_app, (run_worker_turns_since raw d) by apply run_sound_since.
    rewrite Hlen. apply drop_all. }
  destruct (run_sound_since raw d (actions ++ List.map WorkerTurn graders))
    as (Halive & _ & _ & _ & Hold & Hrows).
  fold s' in Halive, Hold, Hrows.
  split; [exact Hq|]. split; [exact Halive|]. intros id row Hrow.
  destruct (submissions d !! id) as [old|] eqn:Hd.
  - specialize (Hold id old Hd). congruence.
  - destruct (Hrows id row Hrow Hd) as [[_ Hin]|Hc]; [|exact Hc].
    rewrite Hq in Hin. by apply not_elem_of_nil in Hin.
Qed.

Lemma every_submission_since_start_gets_graded_witness :
  queue (world (run sample_raw
                  ([Handle (ReqSubmit 2000 sample_request)]
                   ++ List.map WorkerTurn [network_error])
                  (started (db world_submitted)))) = []
  /\ submissions
       (db (world (run sample_raw
                     ([Handle (ReqSubmit 2000 sample_request)]
                      ++ List.map WorkerTurn [network_error])
                     (started (db world_submitted))))) !! 1
     = Some sample_row
  /\ Submission.status sample_row = STATUS_GRADING.
Proof.
  destruct (every_submission_since_start_gets_graded sample_raw (db world_submitted)
              [Handle (ReqSubmit 2000 sample_request)] [network_error])
    as (Hq & _ & Hrows); [vm_compute; reflexivity|].
  split; [exact Hq|]. split; [|reflexivity].
  assert (H1 : submissions
                 (db (world (run sample_raw
                               ([Handle (ReqSubmit 2000 sample_request)]
                                ++ List.map WorkerTurn [network_error])
                               (started (db world_submitted))))) !! 1
               = Some sample_row) by (vm_compute; reflexivity).
  exact H1.
Defined.

(** ** The life of a row *)

Lemma step_row_kept raw a s id row :
  worker_healthy s ->
  submissions (db (world s)) !! id = Some row ->
  exists row',
    submissions (db (world (step raw a s))) !! id = Some row'
    /\ same_origin row row'
    /\ (Submission.status row = STATUS_COMPLETED -> row' = row).
Proof.
  intros (Halive & Hcount & [_ Hrows] & _) Hrow.
  destruct a as [r|g].
  - pose proof (step_submissions raw (Handle r) s id) as H. rewrite Hrow in H.
    destruct (submissions (db (world (step raw (Handle r) s))) !! id) as [row'|];
      [|done].
    destruct H as [->|(g & sc & fc & [=] & _)]. exists row. by repeat split.
  - rewrite step_world_worker, Halive.
    pose proof (worker_iteration_world g (world s)) as H. simpl in H.
    destruct (queue (world s)) as [|[[jid p] code] rest] eqn:Hq.
    { rewrite H. exists row. by repeat split. }
    destruct H as [_ H].
    destruct (Hrows (jid, p, code)) as (jrow & Hjrow & Hst); [apply list_elem_of_here|].
    unfold job_id in Hjrow. simpl in Hjrow. rewrite Hjrow in H.
    destruct H as (sc & fc & ->). simpl.
    destruct (decide (id = jid)) as [->|Hne].
    + rewrite lookup_insert_eq. assert (jrow = row) as -> by congruence.
      eexists. split; [reflexivity|]. split; [by repeat split|].
      intros Hc. rewrite Hc in Hst. discriminate.
    + rewrite lookup_insert_ne by done. exists row. by repeat split.
Qed.

(** X14. A submission row is never removed, and the student, the problem, the
    code and the creation time it was stored with never change: in every
    state reached later the row is there with these fields as they were.
    Once its status is "completed" the row is final: score, feedback and
    status stay as they are. *)
Theorem completed_rows_are_final
  (raw : RawData) (actions more : list Action) (id : Z) (row : Submission.t) :
  submissions (db (world (run raw actions initial_system))) !! id = Some row ->
  exists row',
    submissions (db (world (run raw (actions ++ more) initial_system))) !! id = Some row'
    /\ same_origin row row'
    /\ (Submission.status row = STATUS_COMPLETED -> row' = row).
Proof.
  intros Hrow. induction more as [|a more (row1 & Hrow1 & Horigin & Hfinal)] using rev_ind.
  - rewrite app_nil_r. exists row. by repeat split.
  - rewrite app_assoc, run_app. simpl.
    destruct (step_row_kept raw a (run raw (actions ++ more) initial_system) id row1)
      as (row2 & Hrow2 & Horigin2 & Hfinal2);
      [apply run_worker_healthy|exact Hrow1|].
    exists row2. split; [exact Hrow2|]. split.
    + destruct Horigin as (? & ? & ? & ?), Horigin2 as (? & ? & ? & ?).
      repeat split; congruence.
    + intros Hc. rewrite <- (Hfinal Hc). apply Hfinal2. by rewrite (Hfinal Hc).
Qed.

Lemma completed_rows_are_final_witness :
  exists row',
    submissions
      (db (world (run sample_raw
                    ((sample_requests ++ [WorkerTurn network_error])
                     ++ [WorkerTurn network_error; Handle (ReqCheck 1)])
                    initial_system))) !! 1 = Some row'
    /\ same_origin
         (graded (new_row 1000 {| submit_student_id := 1; submit_problem_id := 1;
                                  submit_code_answer := lit "print(0)" |})
                 (Some 0) (Some FEEDBACK_FAILED))
         row'.
Proof.
  destruct (completed_rows_are_final sample_raw
              (sample_requests ++ [WorkerTurn network_error])
              [WorkerTurn network_error; Handle (ReqCheck 1)] 1
              (graded (new_row 1000 {| submit_student_id := 1; submit_problem_id := 1;
                                       submit_code_answer := lit "print(0)" |})
                      (Some 0) (Some FEEDBACK_FAILED)))
    as (row' & H1 & H2 & _).
  - vm_compute. reflexivity.
  - exists row'. split; [exact H1|exact H2].
Defined.

(** ** The queue is first in, first out *)

Lemma handle_events raw r w : events (handle raw r w) = events w.
Proof.
  destruct r as [req|now req|now req|id|req|req]; simpl.
  - reflexivity.
  - unfold login. by destruct (head _) as [[id old]|].
  - pose proof (submit_world raw now req w) as H.
    destruct (PROBLEMS_DICT raw !! submit_problem_id req).
    + destruct H as (_ & _ & ->). reflexivity.
    + by rewrite H.
  - unfold check_submission. by destruct (submissions (db w) !! id).
  - reflexivity.
  - unfold update_progress. by destruct (classrooms (db w) !! _).
Qed.

Lemma worker_iteration_job_history g w :
  job_history (world_of (worker_iteration g w)) = job_history w.
Proof.
  pose proof (worker_iteration_world g w) as Hw. simpl in Hw.
  unfold job_history.
  destruct (queue w) as [|[[id p] code] rest] eqn:Hq; [by rewrite Hw, Hq|].
  destruct Hw as [-> _].
  unfold worker_iteration. rewrite Hq. change ((id, p, code).1.1) with id.
  destruct (process_job_events g (id, p, code) (emit (EvGet id) (set_queue rest w)))
    as (mid & Hmid & _ & Hev).
  assert (Hnone : got_ids mid = []) by (by destruct Hmid as [->|[prompt ->]]).
  destruct (process_job g (id, p, code) _) as [[e|[]] w']; simpl in Hev |- *;
    rewrite Hev, !got_ids_app, Hnone; simpl; rewrite ?app_nil_r, <- app_assoc;
    reflexivity.
Qed.

(** One action and the history of jobs: an accepted submit adds the id of
    its new row at the end, and nothing else changes it. *)
Lemma step_job_history raw a s :
  job_history (world (step raw a s))
  = job_history (world s)
    ++ match a with
       | Handle (ReqSubmit now req) =>
           match PROBLEMS_DICT raw !! submit_problem_id req with
           | Some _ => [next_id (submissions (db (world s)))]
           | None => []
           end
       | _ => []
       end.
Proof.
  destruct a as [r|g].
  - change (world (step raw (Handle r) s)) with (handle raw r (world s)).
    unfold job_history. rewrite handle_events.
    destruct r as [req|now req|now req|cid|req|req];
      try (match goal with
           | |- context [handle raw ?r _] =>
               let H := fresh in
               assert (H : forall now req, r <> ReqSubmit now req) by discriminate;
               destruct (handle_other raw r (world s) H) as [_ ->];
               by rewrite app_nil_r
           end).
    simpl. pose proof (submit_world raw now req (world s)) as H.
    destruct (PROBLEMS_DICT raw !! submit_problem_id req) as [problem|].
    + destruct H as (_ & _ & ->). simpl. by rewrite map_app, app_assoc.
    + rewrite H. simpl. by rewrite app_nil_r.
  - rewrite step_world_worker, app_nil_r. destruct (worker_alive s); [|reflexivity].
    apply worker_iteration_job_history.
Qed.

Lemma step_job_history_sound raw a s :
  job_history_sound (world s) -> job_history_sound (world (step raw a s)).
Proof.
  intros [Hnd Hrows].
  assert (Hkept : forall id, is_Some (submissions (db (world s)) !! id) ->
                             is_Some (submissions (db (world (step raw a s))) !! id)).
  { intros id [row Hrow]. pose proof (step_submissions raw a s id) as H.
    rewrite Hrow in H. by destruct (submissions (db (world (step raw a s))) !! id). }
  unfold job_history_sound. rewrite step_job_history.
  destruct a as [[req|now req|now req|cid|req|req]|g]; rewrite ?app_nil_r;
    try (split; [exact Hnd|]; intros id Hid; by apply Hkept, Hrows).
  destruct (PROBLEMS_DICT raw !! submit_problem_id req) as [problem|] eqn:Hp;
    rewrite ?app_nil_r;
    [|split; [exact Hnd|]; intros id Hid; by apply Hkept, Hrows].
  split.
  - apply NoDup_app. split; [exact Hnd|]. split; [|apply NoDup_singleton].
    intros id Hid ->%list_elem_of_singleton.
    destruct (Hrows _ Hid) as [row Hrow]. rewrite next_id_fresh in Hrow. discriminate.
  - intros id [Hid| ->%list_elem_of_singleton]%elem_of_app; [by apply Hkept, Hrows|].
    simpl. pose proof (submit_world raw now req (world s)) as H. rewrite Hp in H.
    destruct H as (_ & _ & ->). simpl. rewrite lookup_insert_eq. eauto.
Qed.

Lemma run_job_history_prefix raw more s :
  job_history (world s) `prefix_of` job_history (world (run raw more s)).
Proof.
  induction more as [|a more IH] using rev_ind; [reflexivity|].
  rewrite run_app. simpl. rewrite step_job_history.
  etrans; [exact IH|]. by apply prefix_app_r.
Qed.

(** X15. The queue is first in, first out.  The ids of the jobs taken so far
    followed by those of the jobs still waiting form one list without
    repetition; an accepted submit adds its new id at the end of it and
    nothing else changes it.  So at every later time the list has grown
    at its end only, and the jobs taken are a prefix of it: the worker
    takes the jobs in the order in which they were queued. *)
Theorem jobs_are_taken_in_order (raw : RawData) (actions more : list Action) :
  let w := world (run raw actions initial_system) in
  let w' := world (run raw (actions ++ more) initial_system) in
  job_history w `prefix_of` job_history w'
  /\ got_ids (events w') `prefix_of` job_history w'
  /\ NoDup (job_history w')
  /\ forall a,
       job_history (world (step raw a (run raw actions initial_system)))
       = job_history w
         ++ match a with
            | Handle (ReqSubmit now req) =>
                match PROBLEMS_DICT raw !! submit_problem_id req with
                | Some _ => [next_id (submissions (db w))]
                | None => []
                end
            | _ => []
            end.
Proof.
  intros w w'. split; [|split; [|split]].
  - unfold w, w'. rewrite run_app. apply run_job_history_prefix.
  - by apply prefix_app_r.
  - unfold w'. generalize (actions ++ more). intros l.
    enough (job_history_sound (world (run raw l initial_system))) as [H _] by exact H.
    induction l as [|a l IH] using rev_ind.
    + split; [apply NoDup_nil_2|]. intros id Hid. by apply not_elem_of_nil in Hid.
    + rewrite run_app. simpl. by apply step_job_history_sound.
  - intros a. apply step_job_history.
Qed.

(** ** What the grader is asked *)

Lemma step_jobs_match_rows raw a s :
  jobs_match_rows raw (world s) -> jobs_match_rows raw (world (step raw a s)).
Proof.
  intros Hinv.
  assert (Hold : forall id p code,
             (id, p, code) ∈ queue (world s) ->
             exists row, submissions (db (world (step raw a s))) !! id = Some row
                         /\ Submission.code_answer row = code
                         /\ PROBLEMS_DICT raw !! Submission.problem_id row = Some p).
  { intros id p code Hin. destruct (Hinv id p code Hin) as (row & Hrow & Hcode & Hp).
    pose proof (step_submissions raw a s id) as H. rewrite Hrow in H.
    destruct (submissions (db (world (step raw a s))) !! id) as [row'|]; [|done].
    exists row'. split; [reflexivity|].
    destruct H as [->|(g & sc & fc & _ & ->)]; by split. }
  destruct a as [r|g].
  - change (world (step raw (Handle r) s)) with (handle raw r (world s)) in *.
    destruct r as [req|now req|now req|cid|req|req];
      try (match goal with
           | |- context [handle raw ?r _] =>
               let H := fresh in
               assert (H : forall now req, r <> ReqSubmit now req) by discriminate;
               destruct (handle_other raw r (world s) H) as [_ Hq];
               intros id p code Hin; rewrite Hq in Hin; by apply Hold
           end).
    intros id p code Hin. cbn [handle] in *.
    pose proof (submit_world raw now req (world s)) as H.
    destruct (PROBLEMS_DICT raw !! submit_problem_id req) as [problem|] eqn:Hp.
    + destruct H as (_ & _ & Hsub). rewrite Hsub in *. cbn [snd] in *.
      simpl in Hin. apply elem_of_app in Hin as [Hin|Hin]; [by apply Hold|].
      apply list_elem_of_singleton in Hin. injection Hin as -> -> ->.
      simpl. rewrite lookup_insert_eq. eexists. split; [reflexivity|]. by split.
    + rewrite H in *. by apply Hold.
  - intros id p code Hin. apply Hold.
    rewrite step_world_worker in Hin. destruct (worker_alive s); [|exact Hin].
    pose proof (worker_iteration_world g (world s)) as H. simpl in H.
    destruct (queue (world s)) as [|[[jid jp] jcode] rest] eqn:Hq;
      [by rewrite H, Hq in Hin|].
    destruct H as [Hrest _]. rewrite Hrest in Hin. by apply list_elem_of_further.
Qed.

(** X16. In a state the process can reach, the oldest job carries the catalog's
    problem for its row's problem id and the row's stored code.  A turn of
    the worker takes that job, calls the grader at most once, with the
    prompt built from that problem and that code, and sleeps for the
    interval; the grader is not called when the prompt cannot be built
    because the problem lacks a title, a description or grading
    criteria. *)
Theorem grader_is_asked_about_the_row
  (raw : RawData) (actions : list Action) (g : Grader)
  (id : Z) (p : Problem.t) (code : str) (rest : list Job) :
  let s := run raw actions initial_system in
  queue (world s) = (id, p, code) :: rest ->
  exists row,
    submissions (db (world s)) !! id = Some row
    /\ PROBLEMS_DICT raw !! Submission.problem_id row = Some p
    /\ code = Submission.code_answer row
    /\ events (world (step raw (WorkerTurn g) s))
       = events (world s)
         ++ EvGet id
            :: match build_prompt p (Submission.code_answer row) with
               | inr prompt => [EvGenerate prompt]
               | inl _ => []
               end
         ++ [EvSleep SLEEP_INTERVAL_MS].
Proof.
  intros s Hq.
  assert (Hjobs : jobs_match_rows raw (world s)).
  { unfold s. clear. induction actions as [|a actions IH] using rev_ind.
    - intros id p code Hin. by apply not_elem_of_nil in Hin.
    - rewrite run_app. simpl. by apply step_jobs_match_rows. }
  destruct (run_worker_healthy raw actions) as (Halive & Hcount & _ & _).
  fold s in Halive, Hcount.
  destruct (Hjobs id p code) as (row & Hrow & Hcode & Hp);
    [rewrite Hq; apply list_elem_of_here|].
  exists row. split; [exact Hrow|]. split; [exact Hp|]. split; [done|].
  destruct (worker_iteration_found g (world s) id p code rest row Hq Hrow)
    as (sc & fc & w' & Hturn & _ & _ & _ & Hev).
  { rewrite Hcount, Hq. simpl. lia. }
  rewrite step_world_worker, Halive, Hturn. simpl. by rewrite Hev, Hcode.
Qed.

Lemma grader_is_asked_about_the_row_witness :
  exists row,
    submissions (db (world (run sample_raw sample_requests initial_system))) !! 1
    = Some row
    /\ PROBLEMS_DICT sample_raw !! Submission.problem_id row
       = Some (Problem.with_course_name DEFAULT_COURSE sample_problem).
Proof.
  destruct (grader_is_asked_about_the_row sample_raw sample_requests network_error 1
              (Problem.with_course_name DEFAULT_COURSE sample_problem) (lit "print(0)")
              [(2, Problem.with_course_name DEFAULT_COURSE sample_problem,
                lit "print(1)")])
    as (row & H1 & H2 & _).
  - vm_compute. reflexivity.
  - exists row. split; [exact H1|exact H2].
Defined.

(** ** The catalog of problems by id *)

Lemma fold_insert_problems l (m : gmap Z Problem.t) k :
  fold_left (fun d p => <[Problem.id p := p]> d) l m !! k
  = match last (filter (fun p => Problem.id p = k) l) with
    | Some p => Some p
    | None => m !! k
    end.
Proof.
  revert m. induction l as [|p l IH]; intros m; [reflexivity|].
  simpl. rewrite IH, filter_cons.
  destruct (decide (Problem.id p = k)) as [<-|Hne].
  - rewrite lookup_insert_eq.
    destruct (filter _ l) as [|q l'] eqn:E; [reflexivity|].
    change (last (p :: q :: l')) with (last (q :: l')).
    destruct (last (q :: l')) eqn:E2; [reflexivity|].
    by apply last_None in E2.
  - by rewrite lookup_insert_ne.
Qed.

Lemma fold_courses_flat (courses : list (str * list Problem.t)) (m : gmap Z Problem.t) :
  fold_left (fun d cp => fold_left (fun d p => <[Problem.id p := p]> d) (snd cp) d)
            courses m
  = fold_left (fun d p => <[Problem.id p := p]> d) (concat (List.map snd courses)) m.
Proof.
  revert m. induction courses as [|cp courses IH]; intros m; [reflexivity|].
  simpl. by rewrite IH, fold_left_app.
Qed.

Lemma problems_by_course_named raw name ps p :
  (name, ps) ∈ PROBLEMS_BY_COURSE raw -> p ∈ ps -> Problem.course_name p = Some name.
Proof.
  unfold PROBLEMS_BY_COURSE. intros Hin Hp.
  apply list_elem_of_In, in_map_iff in Hin as ([n l] & [= <- <-] & _).
  apply list_elem_of_In, in_map_iff in Hp as (q & <- & _). reflexivity.
Qed.

(** X17. [PROBLEMS_DICT] maps an id to the last problem of problems.yaml, in
    file order over all courses, that has this id: an id used twice, in
    one course or in two, stands for the later problem only.  A problem
    found under an id has that id and carries the name of a course of the
    file that lists it; and the id of every problem of the file is a
    key. *)
Theorem problems_dict_keeps_the_last (raw : RawData) (k : Z) :
  PROBLEMS_DICT raw !! k = last (filter (fun p => Problem.id p = k) (all_problems raw))
  /\ (forall p,
        PROBLEMS_DICT raw !! k = Some p ->
        Problem.id p = k
        /\ exists name ps,
             (name, ps) ∈ PROBLEMS_BY_COURSE raw /\ p ∈ ps
             /\ Problem.course_name p = Some name)
  /\ (forall name ps p,
        (name, ps) ∈ PROBLEMS_BY_COURSE raw -> p ∈ ps -> Problem.id p = k ->
        is_Some (PROBLEMS_DICT raw !! k)).
Proof.
  assert (Heq : PROBLEMS_DICT raw !! k
                = last (filter (fun p => Problem.id p = k) (all_problems raw))).
  { unfold PROBLEMS_DICT, all_problems. rewrite fold_courses_flat, fold_insert_problems.
    by destruct (last _). }
  split; [exact Heq|]. split.
  - intros p Hp. rewrite Heq in Hp. apply last_Some in Hp as [l' Hl'].
    assert (Hin : p ∈ filter (fun p => Problem.id p = k) (all_problems raw)).
    { rewrite Hl'. apply elem_of_app. right. apply list_elem_of_here. }
    apply list_elem_of_filter in Hin as [Hid Hin]. split; [exact Hid|].
    unfold all_problems in Hin.
    apply list_elem_of_In, in_concat in Hin as (ps & Hin & Hps).
    apply list_elem_of_In in Hps.
    apply in_map_iff in Hin as ([name ps'] & Hsnd & Hin).
    simpl in Hsnd. subst ps'. apply list_elem_of_In in Hin.
    exists name, ps. split; [exact Hin|]. split; [exact Hps|].
    by apply (problems_by_course_named raw name ps).
  - intros name ps p Hin Hp Hid. rewrite Heq.
    assert (Hf : p ∈ filter (fun p => Problem.id p = k) (all_problems raw)).
    { apply list_elem_of_filter. split; [exact Hid|].
      unfold all_problems. apply list_elem_of_In, in_concat. exists ps.
      split; [|by apply list_elem_of_In].
      apply in_map_iff. exists (name, ps). split; [reflexivity|].
      by apply list_elem_of_In. }
    destruct (last _) eqn:E; [eauto|].
    apply last_None in E. rewrite E in Hf. by apply not_elem_of_nil in Hf.
Qed.

Lemma problems_dict_keeps_the_last_witness :
  exists p, PROBLEMS_DICT shared_id_raw !! 1 = Some p
            /\ Problem.id p = 1
            /\ Problem.course_name p = Some (lit "B").
Proof.
  destruct (problems_dict_keeps_the_last shared_id_raw 1) as (H & Hid & _).
  eexists. split; [rewrite H; vm_compute; reflexivity|].
  split; [|reflexivity].
  apply Hid. vm_compute. reflexivity.
Defined.

(** ** The shape of the grader's answer *)

Lemma py_get_shape j key default :
  match py_get (first_of_list j) key default with
  | inl e => e = AttributeError /\ accepted_shape j = false
  | inr _ => accepted_shape j = true
  end.
Proof.
  destruct j as [|b|z|f|s|[|x l]|d]; simpl; auto.
  - destruct x; simpl; auto. by destruct (dict_get _ _).
  - by destruct (dict_get _ _).
Qed.

(** X18. Lines 91 to 95 accept an answer that parses to an object, to an empty
    list or to a list headed by an object.  Any other JSON value (a
    number, a string, [null], [true], a list headed by something that is
    not an object) has no [get]: the [try] suite raises AttributeError
    after the grader was called, and the turn stores score 0 with the
    failure message.  An answer of an accepted shape never fails in this
    way. *)
Theorem answer_shape_decides
  (g : Grader) (id : Z) (row : Submission.t) (p : Problem.t) (code : str) (w : World)
  (prompt : str) (response : Response) (response_text : str) (res_json : json) :
  submissions (db w) !! id = Some row ->
  build_prompt p code = inr prompt ->
  g prompt = inr response ->
  text response = inr response_text ->
  parse_response response_text = inr res_json ->
  if accepted_shape res_json
  then fst (grade g id row p code w) <> inl AttributeError
  else fst (grade g id row p code w) = inl AttributeError
       /\ try_except (try_suite g (id, p, code)) (except_suite (id, p, code)) w
          = (inr (),
             set_db (set_submissions
                       <[id := graded row (Some 0) (Some FEEDBACK_FAILED)]>)
                    (emit (EvGenerate prompt) w)).
Proof.
  intros Hrow Hp Hg Ht Hj.
  pose proof (grade_of_parsed g id row p code w prompt response response_text res_json
                Hp Hg Ht Hj) as Hgrade.
  pose proof (py_get_shape res_json KEY_SCORE (JInt 0)) as Hscore.
  pose proof (py_get_shape res_json KEY_FEEDBACK (JStr FEEDBACK_DEFAULT)) as Hfeedback.
  unfold mbind, M_bind, lift, commit_submission in Hgrade.
  destruct (py_get (first_of_list res_json) KEY_SCORE (JInt 0)) as [e|score].
  - destruct Hscore as [-> ->].
    assert (Hgr : grade g id row p code w = (inl AttributeError, emit (EvGenerate prompt) w))
      by exact Hgrade.
    split; [by rewrite Hgr|].
    by destruct (try_except_on_failure g id p code w row _ _ Hrow Hgr) as (-> & _).
  - rewrite Hscore.
    destruct (py_get (first_of_list res_json) KEY_FEEDBACK _) as [e|feedback].
    { destruct Hfeedback as [_ Hf]. congruence. }
    rewrite Hgrade. clear.
    assert (Hi : bind_int score <> inl AttributeError) by (destruct score; discriminate).
    assert (Hs : bind_str feedback <> inl AttributeError)
      by (destruct feedback; discriminate).
    destruct (bind_int score) as [e|sc]; [simpl; congruence|].
    destruct (bind_str feedback) as [e|fc]; [simpl; congruence|].
    discriminate.
Qed.

Lemma answer_shape_decides_witness :
  fst (grade (answers (lit "42")) 1 sample_row sample_problem (lit "print(1)")
             world_submitted)
  = inl AttributeError
  /\ fst (grade (answers (lit "[[1]]")) 1 sample_row sample_problem (lit "print(1)")
                world_submitted)
     = inl AttributeError.
Proof.
  destruct (build_prompt sample_problem (lit "print(1)")) as [e|prompt] eqn:Hp;
    [vm_compute in Hp; discriminate|].
  split.
  - refine (proj1 (answer_shape_decides (answers (lit "42")) 1 sample_row sample_problem
              (lit "print(1)") world_submitted prompt {| text := inr (lit "42") |}
              (lit "42") (JInt 42) _ Hp _ _ _));
      vm_compute; reflexivity.
  - refine (proj1 (answer_shape_decides (answers (lit "[[1]]")) 1 sample_row sample_problem
              (lit "print(1)") world_submitted prompt {| text := inr (lit "[[1]]") |}
              (lit "[[1]]") (JArr [JArr [JInt 1]]) _ Hp _ _ _));
      vm_compute; reflexivity.
Defined.

(** ** Submitting and polling *)

(** X19. The id a submit answers with is new: polling it before the submit
    answers 404, polling it afterwards answers with the row the submit
    returned, status "grading"; and polling changes nothing.  The student
    id of the request is stored as it is given, whether or not such a
    student exists. *)
Theorem submit_then_check
  (raw : RawData) (now : Z) (req : SubmitRequest) (w : World) (problem : Problem.t) :
  PROBLEMS_DICT raw !! submit_problem_id req = Some problem ->
  exists id row w',
    submit raw now req w = (inr (id, row), w')
    /\ check_submission id w = (inl (HTTPException 404), w)
    /\ check_submission id w' = (inr row, w')
    /\ Submission.status row = STATUS_GRADING
    /\ Submission.score row = None
    /\ Submission.student_id row = submit_student_id req
    /\ Submission.problem_id row = submit_problem_id req
    /\ Submission.code_answer row = submit_code_answer req.
Proof.
  intros Hp. pose proof (submit_world raw now req w) as H. rewrite Hp in H.
  destruct H as (_ & _ & Hsub). eexists _, _, _. split; [exact Hsub|].
  unfold check_submission. simpl. rewrite next_id_fresh, lookup_insert_eq.
  by repeat split.
Qed.

Lemma submit_then_check_witness :
  exists id row w',
    submit sample_raw 1000 sample_request initial_world = (inr (id, row), w')
    /\ check_submission id w' = (inr row, w').
Proof.
  destruct (submit_then_check sample_raw 1000 sample_request initial_world
              (Problem.with_course_name DEFAULT_COURSE sample_problem))
    as (id & row & w' & H1 & _ & H2 & _).
  - vm_compute. reflexivity.
  - exists id, row, w'. split; [exact H1|exact H2].
Defined.

Lemma grade_without_prompt g id row p code w e :
  build_prompt p code = inl e -> grade g id row p code w = (inl e, w).
Proof. intros H. unfold grade, mbind, M_bind, lift. by rewrite H. Qed.

Lemma build_prompt_incomplete p code :
  Problem.title p = None \/ Problem.description p = None \/ Problem.ai_prompt p = None ->
  build_prompt p code = inl KeyError.
Proof.
  intros H. unfold build_prompt, subscript.
  destruct (Problem.title p), (Problem.description p), (Problem.ai_prompt p);
    try reflexivity.
  destruct H as [H|[H|H]]; discriminate.
Qed.

(** X20. A problem of problems.yaml that lacks a title, a description or
    grading criteria can be submitted to, but is never graded: when the
    worker takes the job of such a submission it does not call the
    grader, and it stores the row as completed with score 0 and the
    failure message. *)
Theorem incomplete_problem_is_never_graded
  (raw : RawData) (actions : list Action) (g : Grader)
  (id : Z) (p : Problem.t) (code : str) (rest : list Job) :
  let s := run raw actions initial_system in
  queue (world s) = (id, p, code) :: rest ->
  Problem.title p = None \/ Problem.description p = None \/ Problem.ai_prompt p = None ->
  let s' := step raw (WorkerTurn g) s in
  exists row,
    submissions (db (world s)) !! id = Some row
    /\ submissions (db (world s')) !! id
       = Some (graded row (Some 0) (Some FEEDBACK_FAILED))
    /\ prompts (events (world s')) = prompts (events (world s))
    /\ worker_alive s' = true.
Proof.
  intros s Hq Hp s'.
  destruct (run_worker_healthy raw actions) as (Halive & Hcount & [_ Hrows] & _).
  fold s in Halive, Hcount, Hrows.
  destruct (Hrows (id, p, code)) as (row & Hrow & _);
    [rewrite Hq; apply list_elem_of_here|].
  unfold job_id in Hrow. simpl in Hrow. exists row. split; [exact Hrow|].
  pose proof (build_prompt_incomplete p code Hp) as Hb.
  set (w0 := emit (EvGet id) (set_queue rest (world s))).
  destruct (try_except_on_failure g id p code w0 row KeyError w0 Hrow
              (grade_without_prompt g id row p code w0 KeyError Hb)) as (Ht & _).
  assert (Hturn : worker_iteration g (world s)
                  = Next (emit (EvSleep SLEEP_INTERVAL_MS)
                            (set_unfinished_tasks (unfinished_tasks (world s) - 1)
                               (set_db (set_submissions
                                          <[id := graded row (Some 0)
                                                    (Some FEEDBACK_FAILED)]>) w0)))).
  { unfold worker_iteration. rewrite Hq. change ((id, p, code).1.1) with id.
    fold w0. unfold process_job, try_finally. rewrite Ht.
    rewrite finally_suite_ok; [reflexivity|].
    simpl. rewrite Hcount, Hq. simpl. lia. }
  unfold s'. simpl. rewrite Halive, Hturn. simpl.
  rewrite lookup_insert_eq. split; [reflexivity|]. split; [|reflexivity].
  rewrite !prompts_app. simpl. by rewrite !app_nil_r.
Qed.

Lemma incomplete_problem_is_never_graded_witness :
  exists row,
    submissions
      (db (world (step untitled_raw (WorkerTurn (answers (lit "{}")))
                    (run untitled_raw
                       [Handle (ReqSubmit 1000 {| submit_student_id := 7;
                                                  submit_problem_id := 3;
                                                  submit_code_answer := lit "print(1)" |})]
                       initial_system)))) !! 1
    = Some (graded row (Some 0) (Some FEEDBACK_FAILED)).
Proof.
  destruct (incomplete_problem_is_never_graded untitled_raw
              [Handle (ReqSubmit 1000 {| submit_student_id := 7; submit_problem_id := 3;
                                         submit_code_answer := lit "print(1)" |})]
              (answers (lit "{}")) 1
              (Problem.with_course_name DEFAULT_COURSE untitled_problem)
              (lit "print(1)") [])
    as (row & _ & H & _).
  - vm_compute. reflexivity.
  - left. reflexivity.
  - exists row. exact H.
Defined.

(** ** Logging in and reading the problems *)

(** X21. A login that names a stored class of a stored course answers with the
    request's name, the class's name and id and the course's name; when
    each problem of the course has a chapter, [GET /api/problems] for the
    id the login answered with then gives the class's active chapter and
    exactly the course's problems of that chapter, in file order. *)
Theorem login_then_problems
  (raw : RawData) (order : list (Z * Submission.t) -> list (Z * Submission.t))
  (now : Z) (req : LoginRequest) (w : World) (c : Classroom.t) (course : Course.t) :
  classrooms (db w) !! login_classroom_id req = Some c ->
  courses (db w) !! Classroom.course_id c = Some course ->
  let course_problems := assoc_get (PROBLEMS_BY_COURSE raw) (Course.name course) [] in
  Forall (fun p => Problem.chapter p <> None) course_problems ->
  exists resp problems,
    fst (login now req w) = inr resp
    /\ resp_name resp = login_name req
    /\ resp_class_name resp = Classroom.name c
    /\ resp_course_name resp = Course.name course
    /\ resp_classroom_id resp = login_classroom_id req
    /\ get_problems raw order (resp_id resp) (db (snd (login now req w)))
       = inr (Classroom.active_chapter c, problems)
    /\ List.map fst problems
       = filter (fun p => Problem.chapter p = Some (Classroom.active_chapter c))
                course_problems.
Proof.
  intros Hc Hcourse course_problems Hall.
  unfold login, get_problems.
  destruct (head _) as [[id old]|]; simpl; rewrite Hc; simpl; rewrite Hcourse; simpl;
    (eexists _, _; split; [reflexivity|]; simpl; do 4 (split; [reflexivity|]);
     rewrite lookup_insert_eq; simpl; rewrite Hc; simpl; rewrite Hcourse; simpl;
     fold course_problems; rewrite (target_problems_ok _ _ Hall); simpl;
     split; [reflexivity|]; rewrite map_map; simpl; apply map_id).
Qed.

Lemma login_then_problems_witness :
  exists resp (problems : list (Problem.t * option Attempt)),
    fst (login 20 {| login_classroom_id := 1; login_student_number := lit "1102";
                     login_name := lit "Lee" |}
               {| db := sample_db; queue := []; unfinished_tasks := 0; events := [] |})
    = inr resp
    /\ resp_name resp = lit "Lee"
    /\ List.map fst problems = [Problem.with_course_name DEFAULT_COURSE sample_problem].
Proof.
  destruct (login_then_problems sample_raw sort_desc 20
              {| login_classroom_id := 1; login_student_number := lit "1102";
                 login_name := lit "Lee" |}
              {| db := sample_db; queue := []; unfinished_tasks := 0; events := [] |}
              {| Classroom.course_id := 1; Classroom.name := lit "1-1";
                 Classroom.active_chapter := lit "ch1"; Classroom.is_active := false |}
              {| Course.name := DEFAULT_COURSE |})
    as (resp & problems & H1 & H2 & _ & _ & _ & _ & H3).
  - vm_compute. reflexivity.
  - vm_compute. reflexivity.
  - vm_compute. repeat constructor. discriminate.
  - exists resp, problems. split; [exact H1|]. split; [exact H2|].
    rewrite H3. vm_compute. reflexivity.
Defined.

(** ** Removing the fences *)

Lemma startswith_fence_inv s :
  startswith s FENCE = true -> exists s', s = 96%N :: 96%N :: 96%N :: s'.
Proof.
  destruct s as [|a [|b [|c s']]]; cbn [startswith FENCE]; intros H;
    repeat (apply andb_prop in H as [?%N.eqb_eq H]); try discriminate H.
  subst. by exists s'.
Qed.

Lemma replace_scan_fence_step s :
  replace_scan FENCE [] 0 (96%N :: 96%N :: 96%N :: s) = replace_scan FENCE [] 0 s.
Proof. reflexivity. Qed.

Lemma replace_scan_other_step c s :
  startswith (c :: s) FENCE = false ->
  replace_scan FENCE [] 0 (c :: s) = c :: replace_scan FENCE [] 0 s.
Proof. intros H. cbn [replace_scan]. by rewrite H. Qed.

(** What is left after the fences are deleted starts with as many
    backticks as the text did, when the text started with fewer than
    three, and never with three. *)
Lemma replace_scan_fence_head n s :
  (length s <= n)%nat ->
  startswith (replace_scan FENCE [] 0 s) FENCE = false
  /\ (startswith s FENCE = false ->
      startswith (replace_scan FENCE [] 0 s) [96%N] = startswith s [96%N]
      /\ startswith (replace_scan FENCE [] 0 s) [96%N; 96%N]
         = startswith s [96%N; 96%N]).
Proof.
  revert s. induction n as [|n IH]; intros s Hlen.
  { destruct s; [|simpl in Hlen; lia]. by repeat split. }
  destruct (startswith s FENCE) eqn:Hs.
  - apply startswith_fence_inv in Hs as [s' ->]. rewrite replace_scan_fence_step.
    split; [|discriminate]. apply IH. simpl in Hlen. lia.
  - destruct s as [|c s']; [by repeat split|].
    rewrite (replace_scan_other_step c s' Hs).
    destruct (IH s') as [Hno Hsame]; [simpl in Hlen; lia|].
    change FENCE with [96%N; 96%N; 96%N] in *.
    assert (Hcons : forall r a p,
               startswith (c :: r) (a :: p) = (a =? c)%N && startswith r p)
      by reflexivity.
    rewrite !Hcons in *.
    destruct (96 =? c)%N; [|by repeat split]. rewrite !andb_true_l in *.
    assert (Hs' : startswith s' [96%N; 96%N; 96%N] = false).
    { destruct (startswith s' [96%N; 96%N; 96%N]) eqn:E; [|reflexivity].
      apply (startswith_prefix s' [96%N; 96%N] [96%N]) in E. congruence. }
    destruct (Hsame Hs') as [H1 H2].
    split; [by rewrite H2|]. intros _. split; [reflexivity|exact H1].
Qed.

Lemma replace_scan_no_fence n s :
  (length s <= n)%nat -> contains (replace_scan FENCE [] 0 s) FENCE = false.
Proof.
  revert s. induction n as [|n IH]; intros s Hlen.
  { destruct s; [reflexivity|simpl in Hlen; lia]. }
  destruct (startswith s FENCE) eqn:Hs.
  - apply startswith_fence_inv in Hs as [s' ->]. rewrite replace_scan_fence_step.
    apply IH. simpl in Hlen. lia.
  - destruct s as [|c s']; [reflexivity|].
    destruct (replace_scan_fence_head (S n) (c :: s') Hlen) as [Hno _].
    rewrite (replace_scan_other_step c s' Hs) in Hno |- *.
    cbn [contains]. rewrite Hno. simpl. apply IH. simpl in Hlen. lia.
Qed.

(** X22. When the stripped response text starts with a fence, what lines 87
    and 88 hand to [json.loads] contains no fence at all, wherever the
    fences were in the text. *)
Theorem no_fence_is_left (response_text : str) :
  startswith (strip response_text) FENCE = true ->
  contains (strip_fences response_text) FENCE = false.
Proof.
  intros H. unfold strip_fences. rewrite H.
  apply (replace_scan_no_fence (length (replace (strip response_text) FENCE_JSON []))).
  reflexivity.
Qed.

Lemma no_fence_is_left_witness :
  startswith (strip (fenced (jlit "{'feedback':'use ```print```'}"))) FENCE = true
  /\ contains (strip_fences (fenced (jlit "{'feedback':'use ```print```'}"))) FENCE
     = false.
Proof.
  split; [vm_compute; reflexivity|].
  apply no_fence_is_left. vm_compute. reflexivity.
Defined.

(** ** The properties above at sample inputs *)

Lemma chapters_sorted_and_complete_witness :
  CHAPTERS_BY_COURSE chapterless_raw !! 0%nat
  = Some (DEFAULT_COURSE, [UNKNOWN; lit "ch1"])
  /\ StronglySorted (fun a b => str_ltb a b = true) [UNKNOWN; lit "ch1"]
  /\ NoDup [UNKNOWN; lit "ch1"].
Proof.
  assert (H : CHAPTERS_BY_COURSE chapterless_raw !! 0%nat
              = Some (DEFAULT_COURSE, [UNKNOWN; lit "ch1"]))
    by (vm_compute; reflexivity).
  split; [exact H|].
  destruct (proj2 (chapters_sorted_and_complete chapterless_raw) 0%nat _ _ H)
    as (Hs & Hnd & _).
  split; [exact Hs|exact Hnd].
Defined.

Lemma student_numbers_stay_unique_witness :
  students
    (db (snd (login 99 {| login_classroom_id := 1; login_student_number := lit "1101";
                          login_name := lit "Park" |}
                    (world (run sample_raw sample_requests initial_system)))))
  = <[1 := {| Student.classroom_id := 1;
              Student.student_number := lit "1101";
              Student.name := lit "Park";
              Student.created_at := 10 |}]>
      (students (db (world (run sample_raw sample_requests initial_system)))).
Proof.
  apply (proj2 (student_numbers_stay_unique sample_raw sample_requests) 99
           {| login_classroom_id := 1; login_student_number := lit "1101";
              login_name := lit "Park" |} 1
           {| Student.classroom_id := 1; Student.student_number := lit "1101";
              Student.name := lit "Kim"; Student.created_at := 10 |});
    vm_compute; reflexivity.
Defined.

Lemma setup_system_adds_course_and_classes_witness :
  courses (db (snd (setup_system sample_raw
                      {| setup_course_name := DEFAULT_COURSE;
                         setup_class_names := [lit "1-1"; lit "1-2"] |}
                      initial_world)))
  = <[next_id (courses (db initial_world)) := {| Course.name := DEFAULT_COURSE |}]>
      (courses (db initial_world))
  /\ exists ids : list Z, length ids = 2%nat /\ NoDup ids.
Proof.
  destruct (setup_system_adds_course_and_classes sample_raw
              {| setup_course_name := DEFAULT_COURSE;
                 setup_class_names := [lit "1-1"; lit "1-2"] |} initial_world)
    as (_ & _ & Hc & _ & _ & _ & (ids & Hlen & Hnd & _) & _).
  split; [exact Hc|]. exists ids. split; [exact Hlen|exact Hnd].
Defined.
